(** * KM3D decoder: heatmap peaks, top-k, gathering, keypoint refinement
      and camera back-projection

    A shallow embedding of [mmdet3d/core/bbox/coders/km3d_decoder.py].

    Tensors are nested lists indexed in row-major order, one list level per
    axis; a Python exception is a [Raise] in the error monad [result].
    The scalar type of a tensor is abstract for the order-based stages
    (peak suppression, top-k, gathering) and is the real numbers for the
    geometric stages.  A [view] of a contiguous tensor, or one that merges
    axes whose strides allow it, is read on the row-major order of the
    elements; the view of line 172, taken on a transposed block whose
    strides do not allow it, raises as PyTorch does ([view_permuted]). *)

From Stdlib Require Import List ZArith Lia Bool Arith PeanoNat Sorted.
From Stdlib Require Import Reals Lra.
Import ListNotations.

Set Implicit Arguments.

(** ** Exceptions and the error monad *)

Inductive exn : Set :=
| TypeError
| NameError
| ValueError
| RuntimeError
| IndexError
| AttributeError.

Inductive result (A : Type) : Type :=
| Ok (a : A)
| Raise (e : exn).

Arguments Ok {A} a.
Arguments Raise {A} e.

Definition bind {A B : Type} (m : result A) (k : A -> result B) : result B :=
  match m with
  | Ok a => k a
  | Raise e => Raise e
  end.

Declare Scope result_scope.
Delimit Scope result_scope with result.
Notation "x <- m ;; k" := (bind m (fun x => k))
  (at level 61, m at next level, right associativity) : result_scope.
Notation "' p <- m ;; k" := (bind m (fun x => match x with p => k end))
  (at level 61, p pattern, m at next level, right associativity) : result_scope.
Open Scope result_scope.

Definition is_ok {A : Type} (m : result A) : bool :=
  match m with Ok _ => true | Raise _ => false end.

Fixpoint mapM {A B : Type} (f : A -> result B) (l : list A) : result (list B) :=
  match l with
  | [] => Ok []
  | x :: t => y <- f x ;; ys <- mapM f t ;; Ok (y :: ys)
  end.

(** Elementwise combination of two axes of equal extent. *)
Fixpoint zipM {A B C : Type} (f : A -> B -> result C)
         (l1 : list A) (l2 : list B) : result (list C) :=
  match l1, l2 with
  | [], [] => Ok []
  | x :: t1, y :: t2 => z <- f x y ;; zs <- zipM f t1 t2 ;; Ok (z :: zs)
  | _, _ => Raise RuntimeError
  end.

(** Elementwise combination with torch broadcasting: an axis of extent 1 is
    stretched to the extent of the other operand; any other mismatch raises. *)
Definition bzip {A B C : Type} (f : A -> B -> result C)
           (l1 : list A) (l2 : list B) : result (list C) :=
  match l1, l2 with
  | [x], _ => mapM (fun y => f x y) l2
  | _, [y] => mapM (fun x => f x y) l1
  | _, _ => zipM f l1 l2
  end.

Fixpoint zipWith {A B C : Type} (f : A -> B -> C)
         (l1 : list A) (l2 : list B) : list C :=
  match l1, l2 with
  | x :: t1, y :: t2 => f x y :: zipWith f t1 t2
  | _, _ => []
  end.

Definition ew1 {A B C : Type} (f : A -> B -> C) := bzip (fun x y => Ok (f x y)).
Definition ew2 {A B C : Type} (f : A -> B -> C) := bzip (ew1 f).
Definition ew3 {A B C : Type} (f : A -> B -> C) := bzip (ew2 f).
Definition ew4 {A B C : Type} (f : A -> B -> C) := bzip (ew3 f).

(** Shapes: the extents of a rectangular nested list. *)
Definition shape2 {A : Type} (h w : nat) (p : list (list A)) : Prop :=
  length p = h /\ Forall (fun r => length r = w) p.
Definition shape3 {A : Type} (c h w : nat) (t : list (list (list A))) : Prop :=
  length t = c /\ Forall (shape2 h w) t.
Definition shape4 {A : Type} (b c h w : nat)
           (t : list (list (list (list A)))) : Prop :=
  length t = b /\ Forall (shape3 c h w) t.

Definition get2 {A : Type} (p : list (list A)) (i j : nat) : option A :=
  match nth_error p i with
  | Some r => nth_error r j
  | None => None
  end.

Definition get3 {A : Type} (t : list (list (list A))) (c i j : nat) : option A :=
  match nth_error t c with
  | Some p => get2 p i j
  | None => None
  end.

Definition get4 {A : Type} (t : list (list (list (list A))))
           (b c i j : nat) : option A :=
  match nth_error t b with
  | Some s => get3 s c i j
  | None => None
  end.

(** ** Scalars

    What the order-based stages need from the element type of a tensor: a
    total order with its comparison, equality test, the constants 0 and 1,
    the product and the conversion of an index to a scalar. *)

Class Scalar (A : Type) : Type := {
  szero : A;
  sone : A;
  smul : A -> A -> A;
  sleb : A -> A -> bool;
  seqb : A -> A -> bool;
  of_nat : nat -> A
}.

Class ScalarLaws (A : Type) {S : Scalar A} : Prop := {
  sleb_total : forall x y : A, sleb x y = true \/ sleb y x = true;
  sleb_trans : forall x y z : A,
      sleb x y = true -> sleb y z = true -> sleb x z = true;
  sleb_antisym : forall x y : A,
      sleb x y = true -> sleb y x = true -> x = y;
  seqb_iff : forall x y : A, seqb x y = true <-> x = y;
  smul_one : forall x : A, smul x sone = x;
  smul_zero : forall x : A, smul x szero = szero
}.

Arguments ScalarLaws A {S}.

#[export] Instance Scalar_Z : Scalar Z := {
  szero := 0%Z;
  sone := 1%Z;
  smul := Z.mul;
  sleb := Z.leb;
  seqb := Z.eqb;
  of_nat := Z.of_nat
}.

Definition Rleb (x y : R) : bool := if Rle_dec x y then true else false.
Definition Rltb (x y : R) : bool := if Rlt_dec x y then true else false.
Definition Reqb (x y : R) : bool := if Req_dec_T x y then true else false.

#[export] Instance Scalar_R : Scalar R := {
  szero := 0%R;
  sone := 1%R;
  smul := Rmult;
  sleb := Rleb;
  seqb := Reqb;
  of_nat := INR
}.

(** ** Peak suppression: [_nms] *)

Section NMS.
Context {A : Type} `{Scalar A}.

(** A cell of the padded plane; [None] is a padding cell, which
    [max_pool2d] treats as minus infinity. *)
Definition at2 (p : list (list A)) (i j : Z) : option A :=
  if ((i <? 0) || (j <? 0))%Z then None
  else get2 p (Z.to_nat i) (Z.to_nat j).

Definition smax (x y : A) : A := if sleb x y then y else x.

Definition omax (a b : option A) : option A :=
  match a, b with
  | None, _ => b
  | _, None => a
  | Some x, Some y => Some (smax x y)
  end.

(** The cells under a [kernel] x [kernel] window whose top-left corner is
    at output position [(i, j)], in a plane padded by [pad]. *)
Definition window (p : list (list A)) (kernel : nat) (pad : Z) (i j : nat)
  : list (option A) :=
  flat_map
    (fun di =>
       map (fun dj => at2 p (Z.of_nat i + Z.of_nat di - pad)
                            (Z.of_nat j + Z.of_nat dj - pad))
           (seq 0 kernel))
    (seq 0 kernel).

Definition window_max (p : list (list A)) (kernel : nat) (pad : Z)
           (i j : nat) : option A :=
  fold_right omax None (window p kernel pad i j).

Definition width2 (p : list (list A)) : nat :=
  match p with
  | [] => 0
  | r :: _ => length r
  end.

(** [F.max_pool2d(plane, (kernel, kernel), stride=1, padding=pad)] on one
    plane. *)
Definition max_pool2d (kernel pad : nat) (p : list (list A))
  : result (list (list A)) :=
  if (kernel =? 0) || (kernel / 2 <? pad) then Raise RuntimeError
  else
    mapM (fun i =>
            mapM (fun j =>
                    match window_max p kernel (Z.of_nat pad) i j with
                    | Some m => Ok m
                    | None => Raise RuntimeError
                    end)
                 (seq 0 (width2 p + 2 * pad + 1 - kernel)))
         (seq 0 (length p + 2 * pad + 1 - kernel)).

Definition keep_of (m x : A) : A := if seqb m x then sone else szero.

Definition _nms (heat : list (list (list (list A)))) (kernel : nat)
  : result (list (list (list (list A)))) :=
  let pad := (kernel - 1) / 2 in
  hmax <- mapM (mapM (max_pool2d kernel pad)) heat ;;
  keep <- ew4 keep_of hmax heat ;;
  ew4 smul heat keep.

End NMS.

(** The same suppression written cell by cell, for the default 3 x 3 kernel:
    [wmax p i j] is the window maximum at [(i, j)] and [nms_cell p i j x] the
    value left there when the plane holds [x]. *)
Definition wmax {A : Type} `{Scalar A} (p : list (list A)) (i j : nat) : A :=
  match window_max p 3 1%Z i j with
  | Some m => m
  | None => szero
  end.

Definition nms_cell {A : Type} `{Scalar A} (p : list (list A)) (i j : nat) (x : A) : A :=
  smul x (keep_of (wmax p i j) x).

Fixpoint imap_from {A B : Type} (f : nat -> A -> B) (n : nat) (l : list A) : list B :=
  match l with
  | [] => []
  | x :: t => f n x :: imap_from f (S n) t
  end.

Definition imap {A B : Type} (f : nat -> A -> B) (l : list A) : list B :=
  imap_from f 0 l.

Definition nms_plane {A : Type} `{Scalar A} (p : list (list A)) : list (list A) :=
  imap (fun i r => imap (fun j x => nms_cell p i j x) r) p.

(** The pooled plane and the keep mask of a plane, cell by cell. *)
Definition pool_plane {A : Type} `{Scalar A} (h w : nat) (p : list (list A))
  : list (list A) :=
  map (fun i => map (fun j => wmax p i j) (seq 0 w)) (seq 0 h).

Definition keep_plane {A : Type} `{Scalar A} (p : list (list A))
  : list (list A) :=
  imap (fun i r => imap (fun j x => keep_of (wmax p i j) x) r) p.

(** Two indices are neighbours when they differ by at most one. *)
Definition nbr (i i' : nat) : Prop := i' = i \/ i' = S i \/ S i' = i.

(** Edge padding, as the specification words it: the neighbourhood of
    [(i, j)] read with indices clamped to the plane.  [clamp n z] is the
    index that edge replication reads for the coordinate [z] on an axis of
    extent [n]. *)
Definition clamp (n : nat) (z : Z) : nat :=
  Z.to_nat (Z.max 0 (Z.min (Z.of_nat n - 1) z)).

Definition offsets3 : list Z := [(-1)%Z; 0%Z; 1%Z].

Definition edge_window {A : Type} (p : list (list A)) (h w i j : nat)
  : list (option A) :=
  flat_map (fun di => map (fun dj => get2 p (clamp h (Z.of_nat i + di))
                                           (clamp w (Z.of_nat j + dj)))
                          offsets3)
           offsets3.

Definition edge_max {A : Type} `{Scalar A} (p : list (list A)) (h w i j : nat)
  : option A :=
  fold_right omax None (edge_window p h w i j).

(** ** Top-k selection *)

Section TopK.
Context {A : Type} `{Scalar A}.

(** [insert_front e l] puts [e] in front of the first entry whose score is
    at most the score of [e]: descending order, and among equal scores
    the entry inserted last (the lower flat index) comes first. *)
Fixpoint insert_front (e : A * nat) (l : list (A * nat)) : list (A * nat) :=
  match l with
  | [] => [e]
  | e' :: t =>
      if sleb (fst e') (fst e) then e :: e' :: t
      else e' :: insert_front e t
  end.

Fixpoint sort_desc (l : list (A * nat)) : list (A * nat) :=
  match l with
  | [] => []
  | e :: t => insert_front e (sort_desc t)
  end.

Definition enumerate (l : list A) : list (A * nat) :=
  combine l (seq 0 (length l)).

(** [torch.topk(row, K)] along the last axis: the [K] largest values in
    descending order, with their positions. *)
Definition topk_sel (row : list A) (K : nat) : list A * list nat :=
  let s := firstn K (sort_desc (enumerate row)) in
  (map fst s, map snd s).

Definition topk (row : list A) (K : nat) : result (list A * list nat) :=
  if K <=? length row then Ok (topk_sel row K) else Raise RuntimeError.

End TopK.

(** The order of the entries that [torch.topk] returns, and the same order
    read position by position on the scores alone. *)
Definition by_score_desc {A : Type} `{Scalar A} (a b : A * nat) : Prop :=
  sleb (fst b) (fst a) = true.

Definition desc_sorted {A : Type} `{Scalar A} (l : list A) : Prop :=
  forall i j x y, i < j -> nth_error l i = Some x -> nth_error l j = Some y ->
                  sleb y x = true.

(** Extents of a rank-4 tensor, as [t.size()] returns them. *)
Definition size0 {X : Type} (t : list X) : nat := length t.
Definition size1 {X : Type} (t : list (list X)) : nat :=
  match t with [] => 0 | x :: _ => length x end.
Definition size2 {X : Type} (t : list (list (list X))) : nat :=
  match t with [] => 0 | x :: _ => size1 x end.
Definition size3 {X : Type} (t : list (list (list (list X)))) : nat :=
  match t with [] => 0 | x :: _ => size2 x end.

(** ** Gathering by index *)

Definition pick {X : Type} (l : list X) (i : nat) : result X :=
  match nth_error l i with
  | Some x => Ok x
  | None => Raise RuntimeError
  end.

(** [feat.gather(1, ind)] with [ind] expanded along the last axis: row
    [ind[b][k]] of batch item [b], whole.  The index tensor may have fewer
    batch items than [feat], never more. *)
Fixpoint _gather_feat {X : Type} (feat : list (list (list X)))
         (ind : list (list nat)) : result (list (list (list X))) :=
  match ind, feat with
  | [], _ => Ok []
  | indb :: it, fb :: ft =>
      r <- mapM (pick fb) indb ;;
      rs <- _gather_feat ft it ;;
      Ok (r :: rs)
  | _ :: _, [] => Raise RuntimeError
  end.

(** [transpose n rows]: the [n] columns of [rows]. *)
Fixpoint transpose {X : Type} (n : nat) (rows : list (list X)) : list (list X) :=
  match rows with
  | [] => repeat [] n
  | r :: rs => zipWith cons r (transpose n rs)
  end.

(** [feat.permute(0, 2, 3, 1)] on one batch item: from channels x height x
    width to height x width x channels. *)
Definition permute_hwc {X : Type} (h w : nat) (fb : list (list (list X)))
  : list (list (list X)) :=
  map (transpose w) (transpose h fb).

Definition _permute_and_gather_feat {X : Type}
           (feat : list (list (list (list X)))) (ind : list (list nat))
  : result (list (list (list X))) :=
  let h := size2 feat in
  let w := size3 feat in
  let feat := map (permute_hwc h w) feat in
  let feat := map (@concat _) feat in
  _gather_feat feat ind.

(** ** Index arithmetic in float32

    On an integer tensor [/] is true division: both operands are converted
    to float32 and divided there, the quotient rounded to the nearest
    float32, ties to even.  [.int()] then drops the fraction and [.float()]
    rounds an integer to float32.  The operands here are indices and
    extents, so only quotients of non-negative integers occur; a float32 is
    a mantissa of 24 bits with an exponent, [(m, e)] standing for
    [m * 2 ^ e].  The exponent range of float32 is not reached by an
    index; the 32 bits of [.int()] are not modelled, a truncated quotient
    is kept whatever its size; a divisor 0 (an empty axis, or K = 0) meets
    no element. *)

(** [n / d] rounded to the nearest integer, ties to even ([0 <= n],
    [0 < d]). *)
Definition rne_div (n d : Z) : Z :=
  let q := (n / d)%Z in
  let r := (n mod d)%Z in
  if (2 * r <? d)%Z then q
  else if (d <? 2 * r)%Z then (q + 1)%Z
  else if Z.even q then q else (q + 1)%Z.

(** [n / (d * 2 ^ e)] as a quotient of integers, for either sign of [e]. *)
Definition scale_num (n e : Z) : Z := (n * 2 ^ Z.max 0 (- e))%Z.
Definition scale_den (d e : Z) : Z := (d * 2 ^ Z.max 0 e)%Z.

(** The exponent [e] with [2 ^ 23 <= n / (d * 2 ^ e) < 2 ^ 24]. *)
Definition f32_exponent (n d : Z) : Z :=
  let t := (Z.log2 n - Z.log2 d - 23)%Z in
  if (scale_num n t <? 2 ^ 23 * scale_den d t)%Z then (t - 1)%Z else t.

(** The float32 nearest to [n / d]. *)
Definition f32_div (n d : Z) : Z * Z :=
  if ((n <=? 0) || (d <=? 0))%Z then (0, 0)%Z
  else let e := f32_exponent n d in
       (rne_div (scale_num n e) (scale_den d e), e).

(** [.int()]: the integer part. *)
Definition f32_trunc (x : Z * Z) : Z :=
  let '(m, e) := x in
  if (e <? 0)%Z then (m / 2 ^ (- e))%Z else (m * 2 ^ e)%Z.

(** The float32 nearest to the integer [a]; it is an integer again.  Then
    [(a / b).int()] on integers [a] and [b]. *)
Definition to_f32 (a : Z) : Z := f32_trunc (f32_div a 1).
Definition div_trunc (a b : Z) : Z := f32_trunc (f32_div (to_f32 a) (to_f32 b)).

(** The same on indices: [n.float()] and [(a / b).int()]. *)
Definition float_of_int (n : nat) : nat := Z.to_nat (to_f32 (Z.of_nat n)).
Definition true_div_int (a b : nat) : nat :=
  Z.to_nat (div_trunc (Z.of_nat a) (Z.of_nat b)).

Arguments float_of_int : simpl never.
Arguments true_div_int : simpl never.

Section TopKHeat.
Context {A : Type} `{Scalar A}.

(** The per-channel stage shared by [_topk_channel] and [_topk]:
    [torch.topk(scores.view(batch, cat, -1), K)]. *)
Definition topk_planes (scores : list (list (list (list A)))) (K : nat)
  : result (list (list (list A * list nat))) :=
  mapM (mapM (fun plane => topk (concat plane) K)) scores.

Definition _topk_channel (scores : list (list (list (list A)))) (K : nat)
  : result (list (list (list A)) * list (list (list nat))
            * list (list (list A)) * list (list (list A))) :=
  let height := size2 scores in
  let width := size3 scores in
  r <- topk_planes scores K ;;
  let topk_scores := map (map fst) r in
  let topk_inds := map (map snd) r in
  let topk_inds := map (map (map (fun i => i mod (height * width)))) topk_inds in
  let topk_ys :=
    map (map (map (fun i => of_nat (float_of_int (true_div_int i width)))))
        topk_inds in
  let topk_xs :=
    map (map (map (fun i => of_nat (float_of_int (i mod width))))) topk_inds in
  Ok (topk_scores, topk_inds, topk_ys, topk_xs).

(** [t.view(batch, -1, 1)] of a rank-3 tensor. *)
Definition view_b_n_1 {X : Type} (t : list (list (list X)))
  : list (list (list X)) :=
  map (fun rows => map (fun x => [x]) (concat rows)) t.

(** [t.view(batch, K)] of a [batch x K x 1] tensor. *)
Definition view_b_K {X : Type} (t : list (list (list X))) : list (list X) :=
  map (@concat _) t.

Definition _topk (scores : list (list (list (list A)))) (K : nat)
  : result (list (list A) * list (list nat) * list (list nat)
            * list (list A) * list (list A)) :=
  let height := size2 scores in
  let width := size3 scores in
  r <- topk_planes scores K ;;
  let topk_scores := map (map fst) r in
  let topk_inds := map (map snd) r in
  let topk_inds := map (map (map (fun i => i mod (height * width)))) topk_inds in
  let topk_ys :=
    map (map (map (fun i => of_nat (float_of_int (true_div_int i width)))))
        topk_inds in
  let topk_xs :=
    map (map (map (fun i => of_nat (float_of_int (i mod width))))) topk_inds in
  r2 <- mapM (fun rows => topk (concat rows) K) topk_scores ;;
  let topk_score := map fst r2 in
  let topk_ind := map snd r2 in
  let topk_clses := map (map (fun i => true_div_int i K)) topk_ind in
  g_inds <- _gather_feat (view_b_n_1 topk_inds) topk_ind ;;
  g_ys <- _gather_feat (view_b_n_1 topk_ys) topk_ind ;;
  g_xs <- _gather_feat (view_b_n_1 topk_xs) topk_ind ;;
  Ok (topk_score, view_b_K g_inds, topk_clses, view_b_K g_ys, view_b_K g_xs).

End TopKHeat.

(** ** Real-valued tensors and small linear algebra *)

Definition T1 : Type := list R.
Definition T2 : Type := list T1.
Definition T3 : Type := list T2.
Definition T4 : Type := list T3.

Open Scope R_scope.

(** [t[..., a:b]] on the last axis. *)
Definition slice {X : Type} (a b : nat) (l : list X) : list X :=
  firstn (b - a) (skipn a l).

(** [t[..., i]]: integer indexing raises when out of range. *)
Definition index {X : Type} (l : list X) (i : nat) : result X :=
  match nth_error l i with
  | Some x => Ok x
  | None => Raise IndexError
  end.

(** [t.expand(n, ...)] on the leading axis: an extent of 1 is repeated,
    any other extent must already be [n]. *)
Definition expand0 {X : Type} (n : nat) (l : list X) : result (list X) :=
  match l with
  | [x] => Ok (repeat x n)
  | _ => if (length l =? n)%nat then Ok l else Raise RuntimeError
  end.

(** The [mask is not None] branch of [_gather_feat] (lines 64-67): the mask
    is expanded to the gathered tensor, the entries under a set mask entry are
    taken in row-major order and viewed as rows of [dim] values.  The rows of
    the gathered tensor are selected whole, since the mask is constant along
    the last axis; [view(-1, dim)] refuses [dim = 0]. *)
Definition _gather_feat_mask {X : Type} (feat : list (list (list X)))
           (ind : list (list nat)) (mask : list (list bool))
  : result (list (list X)) :=
  let dim := size2 feat in
  feat <- _gather_feat feat ind ;;
  mask <- expand0 (size0 feat) mask ;;
  mask <- mapM (expand0 (size1 feat)) mask ;;
  sel <- zipM (zipM (fun row (m : bool) => Ok (if m then [row] else [])))
              feat mask ;;
  if (dim =? 0)%nat then Raise RuntimeError else Ok (concat (concat sel)).

Definition Rsum (l : list R) : R := fold_right Rplus 0 l.

Definition dot (u v : T1) : R := Rsum (zipWith Rmult u v).

(** Matrix product; the inner extents must agree. *)
Definition mmul (a b : T2) : result T2 :=
  if forallb (fun r => (length r =? length b)%nat) a then
    let cols := transpose (size1 b) b in
    Ok (map (fun r => map (fun c => dot r c) cols) a)
  else Raise RuntimeError.

Definition det3 (a b c d e f g h i : R) : R :=
  a * (e * i - f * h) - b * (d * i - f * g) + c * (d * h - e * g).

(** [torch.inverse] of a 3 x 3 matrix, by the adjugate; a singular matrix
    raises. *)
Definition inverse3 (m : T2) : result T2 :=
  match m with
  | [[a; b; c]; [d; e; f]; [g; h; i]] =>
      let dt := det3 a b c d e f g h i in
      if Req_dec_T dt 0 then Raise RuntimeError
      else Ok [[(e * i - f * h) / dt; (c * h - b * i) / dt; (b * f - c * e) / dt];
               [(f * g - d * i) / dt; (a * i - c * g) / dt; (c * d - a * f) / dt];
               [(d * h - e * g) / dt; (b * g - a * h) / dt; (a * e - b * d) / dt]]
  | _ => Raise RuntimeError
  end.

(** [torch.atan2(y, x)]. *)
Definition atan2 (y x : R) : R :=
  if Rlt_dec 0 x then atan (y / x)
  else if Rlt_dec x 0 then
         if Rle_dec 0 y then atan (y / x) + PI else atan (y / x) - PI
       else if Rlt_dec 0 y then PI / 2
            else if Rlt_dec y 0 then - PI / 2 else 0.

(** A Python float or integer tensor element taken out of a tensor:
    [torch.FloatTensor([t, ...])] turns each tensor of the list into one
    number, which only a tensor of exactly one element allows. *)
Definition item (t : T3) : result R :=
  match t with
  | [[[x]]] => Ok x
  | _ => Raise ValueError
  end.

Definition FloatTensor (ts : list T3) : result T1 := mapM item ts.

(** ** Camera back-projection: [transform_img2cam] *)

Record Meta : Type := {
  trans_output_inv : T3;
  calib : T3
}.

(** [meta['trans_output_inv']] when [meta] was left at [None]. *)
Definition subscript (meta : option Meta) : result Meta :=
  match meta with
  | Some m => Ok m
  | None => Raise TypeError
  end.

(** [const.expand(...)] when [const] was left at [None]. *)
Definition attribute {X : Type} (o : option X) : result X :=
  match o with
  | Some x => Ok x
  | None => Raise AttributeError
  end.

(** [t.view(..., -1, 2)] on the last axis: consecutive pairs. *)
Fixpoint view_pairs {X : Type} (l : list X) : result (list (list X)) :=
  match l with
  | [] => Ok []
  | x :: y :: t => ps <- view_pairs t ;; Ok ([x; y] :: ps)
  | _ => Raise RuntimeError
  end.

(** [torch.cat((kps, hom), dim=2)] with [hom] a row of nine ones: the rows
    of [kps] must have nine entries too. *)
Definition cat_hom (m : T2) : result T2 :=
  if forallb (fun r => (length r =? 9)%nat) m then Ok (m ++ [repeat 1 9])
  else Raise RuntimeError.

(** [t.permute(0, 1, 3, 2).view(batch, boxes, -1)] of line 172 on the block
    of one object.  The permuted block shares the memory of [r]: for [r] of
    [m] rows and [n] columns its extents are [n, m] and its strides [1, n].
    A view may merge two axes only when the stride of the first is the
    extent of the second times its stride, here [1 = m * n], an axis of
    extent one imposing no condition.  So the view exists only for a block
    of at most one row or at most one column, and PyTorch raises
    [RuntimeError] for any other block.  Line 161 calls [contiguous] before
    its view; line 172 does not. *)
Definition view_permuted (r : T2) : result T1 :=
  if ((length r <=? 1) || (size1 r <=? 1))%nat
  then Ok (concat (transpose (size1 r) r))
  else Raise RuntimeError.

(** Lines 164-172 for one object: the keypoints mapped to image pixels by
    the affine [out_inv], then flattened to x, y, x, y, ... by the view of
    the permuted block. *)
Definition img_kps (out_inv : T2) (kps : T1) : result T1 :=
  pts <- view_pairs kps ;;
  m <- cat_hom (transpose 2 pts) ;;
  r <- mmul out_inv m ;;
  view_permuted r.

Definition wrap_pos (r : R) : R := if Rlt_dec PI r then r - 2 * PI else r.
Definition wrap_neg (r : R) : R := if Rlt_dec r (- PI) then r + 2 * PI else r.

(** The bin selected by comparing channels 1 and 5, as the code blends the
    two candidate angles. *)
Definition alpna_pre_of (r1 r2 r3 r5 r6 r7 : R) : R :=
  let alpha_idx := if Rlt_dec r5 r1 then 1 else 0 in
  let alpha1 := atan (r2 / r3) + (-0.5 * PI) in
  let alpha2 := atan (r6 / r7) + (0.5 * PI) in
  alpha1 * alpha_idx + alpha2 * (1 - alpha_idx).

(** Lines 174-189 for one object: [kx] is entry 16 of the image keypoints,
    [cx] and [f] are [calib[0][2]] and [calib[0][0]]. *)
Definition rot_y_of (rot : T1) (kx cx f : R) : result R :=
  r1 <- index rot 1 ;;
  r5 <- index rot 5 ;;
  r2 <- index rot 2 ;;
  r3 <- index rot 3 ;;
  r6 <- index rot 6 ;;
  r7 <- index rot 7 ;;
  let rot_y := alpna_pre_of r1 r2 r3 r5 r6 r7 + atan2 (kx - cx) f in
  Ok (wrap_neg (wrap_pos rot_y)).

(** Lines 194-202 for one object: [(kpoint - cxy) / f]. *)
Fixpoint normalize (cx cy f : R) (kpoint : T1) : T1 :=
  match kpoint with
  | x :: y :: t => (x - cx) / f :: (y - cy) / f :: normalize cx cy f t
  | _ => []
  end.

Definition kp_norm_of (calib : T2) (kps : T1) : result T1 :=
  f <- bind (index calib 0) (fun r => index r 0) ;;
  cx <- bind (index calib 0) (fun r => index r 2) ;;
  cy <- bind (index calib 1) (fun r => index r 2) ;;
  Ok (normalize cx cy f (slice 0 16 kps)).

(** The sixteen entries of [data_B] and of [data_C], from the numbers
    [length], [width], [height], [cos_rot_y] and [sin_rot_y]. *)
Definition data_B_of (length width height cos_rot_y sin_rot_y : R) : T1 :=
  [ length * 0.5 * cos_rot_y + width * 0.5 * sin_rot_y; height * 0.5;
    length * 0.5 * cos_rot_y - width * 0.5 * sin_rot_y; height * 0.5;
    - length * 0.5 * cos_rot_y - width * 0.5 * sin_rot_y; height * 0.5;
    - length * 0.5 * cos_rot_y + width * 0.5 * sin_rot_y; height * 0.5;
    length * 0.5 * cos_rot_y + width * 0.5 * sin_rot_y; - height * 0.5;
    length * 0.5 * cos_rot_y - width * 0.5 * sin_rot_y; - height * 0.5;
    - length * 0.5 * cos_rot_y - width * 0.5 * sin_rot_y; - height * 0.5;
    - length * 0.5 * cos_rot_y + width * 0.5 * sin_rot_y; - height * 0.5 ].

Definition data_C_of (length width height cos_rot_y sin_rot_y : R) : T1 :=
  [ - length * 0.5 * sin_rot_y + width * 0.5 * cos_rot_y;
    - length * 0.5 * sin_rot_y + width * 0.5 * cos_rot_y;
    - length * 0.5 * sin_rot_y - width * 0.5 * cos_rot_y;
    - length * 0.5 * sin_rot_y - width * 0.5 * cos_rot_y;
    length * 0.5 * sin_rot_y - width * 0.5 * cos_rot_y;
    length * 0.5 * sin_rot_y - width * 0.5 * cos_rot_y;
    length * 0.5 * sin_rot_y + width * 0.5 * cos_rot_y;
    length * 0.5 * sin_rot_y + width * 0.5 * cos_rot_y;
    - length * 0.5 * sin_rot_y + width * 0.5 * cos_rot_y;
    - length * 0.5 * sin_rot_y + width * 0.5 * cos_rot_y;
    - length * 0.5 * sin_rot_y - width * 0.5 * cos_rot_y;
    - length * 0.5 * sin_rot_y - width * 0.5 * cos_rot_y;
    length * 0.5 * sin_rot_y - width * 0.5 * cos_rot_y;
    length * 0.5 * sin_rot_y - width * 0.5 * cos_rot_y;
    length * 0.5 * sin_rot_y + width * 0.5 * cos_rot_y;
    length * 0.5 * sin_rot_y + width * 0.5 * cos_rot_y ].

(** The list of tensor expressions handed to [torch.FloatTensor]: entry [n]
    is the tensor of the [n]-th formula, computed elementwise (with
    broadcasting) from the five [batch x boxes x 1] tensors. *)
Definition lift5 (g : R -> R -> R -> R -> R -> R)
           (length width height cos_rot_y sin_rot_y : T3) : result T3 :=
  lw <- ew3 pair length width ;;
  lwh <- ew3 pair lw height ;;
  cs <- ew3 pair cos_rot_y sin_rot_y ;;
  ew3 (fun '(l, w, h) '(c, s) => g l w h c s) lwh cs.

Definition tensor_exprs (formulas : R -> R -> R -> R -> R -> T1)
           (length width height cos_rot_y sin_rot_y : T3) : result (list T3) :=
  mapM (fun n => lift5 (fun l w h c s => nth n (formulas l w h c s) 0)
                       length width height cos_rot_y sin_rot_y)
       (seq 0 16).

(** Lines 216-218 for one object: [cat([const, kp], dim=3)]. *)
Definition matrix_left_of (const : T2) (kp_norm : T1) : result T2 :=
  zipM (fun crow k => Ok (crow ++ [k])) const kp_norm.

(** Line 256 for one object: [matrix_B - kp_norm * matrix_C]. *)
Definition matrix_right_of (matrix_B matrix_C kp_norm : T1) : result T1 :=
  prod <- ew1 Rmult kp_norm matrix_C ;;
  ew1 Rminus matrix_B prod.

(** Lines 258-276 for one object: the three products and the inverse. *)
Definition solve_position (matrix_left : T2) (matrix_right : T1) : result T1 :=
  let matrix_left_transposed := transpose 3 matrix_left in
  let matrix_right := map (fun x => [x]) matrix_right in
  points_3d <- mmul matrix_left_transposed matrix_left ;;
  points_3d_inv <- inverse3 points_3d ;;
  points_3d_inv <- mmul points_3d_inv matrix_left_transposed ;;
  points_3d_inv <- mmul points_3d_inv matrix_right ;;
  if (length points_3d_inv =? 3)%nat then Ok (concat points_3d_inv)
  else Raise RuntimeError.

(** The corner constants: the 16 x 2 sign table itself, or a rank-4 tensor
    holding it once per batch item and box. *)
Inductive ConstT : Type :=
| Const2 (m : T2)
| Const4 (t : T4).

(** [const.expand(batch, boxes, -1, -1)]. *)
Definition expand_const (batch boxes : nat) (const : ConstT) : result T4 :=
  match const with
  | Const2 m => Ok (repeat (repeat m boxes) batch)
  | Const4 t => t <- expand0 batch t ;; mapM (expand0 boxes) t
  end.

Definition index2 (m : T2) (i j : nat) : result R :=
  r <- index m i ;; index r j.

Definition rot_y_obj (ck : T2 * T1) (rot : T1) : result T1 :=
  let '(cal, kps) := ck in
  f <- index2 cal 0 0 ;;
  cx <- index2 cal 0 2 ;;
  match slice 16 17 kps with
  | [kx] => y <- rot_y_of rot kx cx f ;; Ok [y]
  | _ => Raise RuntimeError
  end.

(** [transform_img2cam(kps, dim, rot, meta, const)].  The code merges the
    batch and box axes for [bmm] and splits them again; the model keeps the
    two axes apart throughout. *)
Definition transform_img2cam (kps dim rot : T3) (meta : option Meta)
           (const : option ConstT) : result (T3 * T3 * T3) :=
  let batch := size0 kps in
  let boxes := size1 kps in
  meta <- subscript meta ;;
  out_inv <- expand0 batch (trans_output_inv meta) ;;
  kps <- zipM (fun m kb => mapM (img_kps m) kb) out_inv kps ;;
  calib <- expand0 batch (calib meta) ;;
  ck <- zipM (fun cal kb => Ok (map (fun k => (cal, k)) kb)) calib kps ;;
  rot_y <- bzip (bzip rot_y_obj) ck rot ;;
  kp_norm <- mapM (mapM (fun '(cal, k) => kp_norm_of cal k)) ck ;;
  let height := map (map (slice 0 1)) dim in
  let width := map (map (slice 1 2)) dim in
  let length := map (map (slice 2 3)) dim in
  let cos_rot_y := map (map (map cos)) rot_y in
  let sin_rot_y := map (map (map sin)) rot_y in
  const <- attribute const ;;
  const <- expand_const batch boxes const ;;
  matrix_left <- zipM (zipM matrix_left_of) const kp_norm ;;
  exprs_B <- tensor_exprs data_B_of length width height cos_rot_y sin_rot_y ;;
  data_B <- FloatTensor exprs_B ;;
  exprs_C <- tensor_exprs data_C_of length width height cos_rot_y sin_rot_y ;;
  data_C <- FloatTensor exprs_C ;;
  matrix_right <- mapM (mapM (matrix_right_of data_B data_C)) kp_norm ;;
  points_3d_inv <- zipM (zipM solve_position) matrix_left matrix_right ;;
  Ok (points_3d_inv, rot_y, kps).

(** ** Keypoint refinement and assembly: [object_pose_decode] *)

Definition thresh : R := 0.1.

(** [torch.cat(ts, dim=2)]: the leading extents must agree. *)
Definition cat2 (a b : T3) : result T3 :=
  zipM (zipM (fun r1 r2 => Ok (r1 ++ r2))) a b.

Fixpoint cat_dim2 (ts : list T3) : result T3 :=
  match ts with
  | [] => Raise RuntimeError
  | [t] => Ok t
  | t :: rest => r <- cat_dim2 rest ;; cat2 t r
  end.

(** [t.view(batch, K, n)] of a [batch x K x c] tensor: possible when
    [c = n]. *)
Definition check_last (n : nat) (t : T3) : result T3 :=
  if forallb (forallb (fun r => (length r =? n)%nat)) t then Ok t
  else Raise RuntimeError.

(** [kps[..., ::2] += x] and [kps[..., 1::2] += y] on one row. *)
Fixpoint add_even (x : R) (l : T1) : T1 :=
  match l with
  | [] => []
  | a :: t => (a + x) :: match t with
                         | [] => []
                         | b :: t' => b :: add_even x t'
                         end
  end.

Definition add_odd (y : R) (l : T1) : T1 :=
  match l with
  | [] => []
  | a :: t => a :: add_even y t
  end.

(** A size argument as the call site passes it: a Python integer, or a
    tensor. *)
Inductive pyval : Type :=
| PyInt (n : nat)
| PyTensor (t : T4).

(** Only an integer is accepted as an extent. *)
Definition as_size (v : pyval) : result nat :=
  match v with
  | PyInt n => Ok n
  | PyTensor _ => Raise TypeError
  end.

(** [t.expand(s0, s1, s2, s3)] on a rank-4 tensor. *)
Definition expand4 (t : T4) (sizes : list pyval) : result T4 :=
  ns <- mapM as_size sizes ;;
  match ns with
  | [n0; n1; n2; n3] =>
      t <- expand0 n0 t ;;
      t <- mapM (expand0 n1) t ;;
      t <- mapM (mapM (expand0 n2)) t ;;
      mapM (mapM (mapM (expand0 n3))) t
  | _ => Raise RuntimeError
  end.

(** [t.view(s0, s1, s2)] of a rank-4 tensor whose two last axes are merged. *)
Definition view_merge_last (t : T4) (sizes : list pyval) : result T3 :=
  ns <- mapM as_size sizes ;;
  match ns with
  | [n0; n1; n2] =>
      let r := map (map (@concat _)) t in
      if ((length r =? n0)%nat
          && forallb (fun rows => (length rows =? n1)%nat) r
          && forallb (forallb (fun row => (length row =? n2)%nat)) r)%bool
      then Ok r else Raise RuntimeError
  | _ => Raise RuntimeError
  end.

(** [t.view(batch, J, K, 2)] of a [batch x (J * K) x 2] tensor, one batch
    item. *)
Definition view_J_K (J K : nat) (rows : T2) : result T3 :=
  if ((length rows =? J * K)%nat
      && forallb (fun r => (length r =? 2)%nat) rows)%bool
  then Ok (map (fun j => slice (j * K) (j * K + K) rows) (seq 0 J))
  else Raise RuntimeError.

(** Lines 376-379, one candidate of score [s]. *)
Definition keep_mask (s : R) : R := if Rlt_dec thresh s then 1 else 0.
Definition thresh_score (s : R) : R :=
  let mask := keep_mask s in (1 - mask) * -1 + mask * s.
Definition thresh_coord (s v : R) : R :=
  let mask := keep_mask s in (1 - mask) * (-10000) + mask * v.

(** Line 382: the Euclidean distance of two points. *)
Definition dist (p q : T1) : R :=
  sqrt (Rsum (map (fun d => d ^ 2) (zipWith Rminus p q))).

(** [t.min(dim)] on one row: the least value and the first position where
    it occurs; an empty row raises. *)
Fixpoint min_from (best : R) (besti i : nat) (l : T1) : R * nat :=
  match l with
  | [] => (best, besti)
  | d :: t =>
      if Rlt_dec d best then min_from d i (S i) t
      else min_from best besti (S i) t
  end.

Definition min_dim (l : T1) : result (R * nat) :=
  match l with
  | [] => Raise IndexError
  | d :: t => Ok (min_from d 0 1 t)
  end.

(** What lines 383-390 keep of the nearest candidate. *)
Record Match : Type := {
  min_dist : R;
  min_ind : nat;
  hm_score_of : R;
  hm_kps_of : T1
}.

(** Lines 380-390 for one regression keypoint [p] against the candidates
    of its keypoint channel. *)
Definition match_one (cands : T2) (scores : T1) (p : T1) : result Match :=
  '(d, i) <- min_dim (map (dist p) cands) ;;
  s <- pick scores i ;;
  c <- pick cands i ;;
  Ok {| min_dist := d; min_ind := i; hm_score_of := s; hm_kps_of := c |}.

(** Lines 391-402 for one object and keypoint: the six comparisons, joined
    by the boolean sum. *)
Definition reject (box : T1) (m : Match) : result bool :=
  left <- index box 0 ;;
  top <- index box 1 ;;
  right <- index box 2 ;;
  bottom <- index box 3 ;;
  match hm_kps_of m with
  | [hx; hy] =>
      Ok (Rltb hx left || Rltb right hx || Rltb hy top || Rltb bottom hy
          || Rltb (hm_score_of m) thresh
          || Rltb (Rmax (bottom - top) (right - left) * 0.3) (min_dist m))%bool
  | _ => Raise RuntimeError
  end.

(** Line 404 on one coordinate: [(1 - mask) * hm_kps + mask * kps]. *)
Definition select (mask hm_kps kps : R) : R :=
  (1 - mask) * hm_kps + mask * kps.

(** [t.permute(0, 2, 1, 3)]. *)
Definition permute_0213 {X : Type} (n : nat) (t : list (list (list X)))
  : list (list (list X)) :=
  map (transpose n) t.

Definition apply_offsets (num_joints K : nat) (kps_offsets : option T4)
           (hm_inds : list (list (list nat))) (hm_xs hm_ys : T3)
  : result (T3 * T3) :=
  match kps_offsets with
  | Some kps_offsets =>
      kps_offsets <- _permute_and_gather_feat kps_offsets
                       (map (@concat _) hm_inds) ;;
      kps_offsets <- mapM (view_J_K num_joints K) kps_offsets ;;
      off_x <- mapM (mapM (mapM (fun r => index r 0))) kps_offsets ;;
      off_y <- mapM (mapM (mapM (fun r => index r 1))) kps_offsets ;;
      hm_xs <- ew3 Rplus hm_xs off_x ;;
      hm_ys <- ew3 Rplus hm_ys off_y ;;
      Ok (hm_xs, hm_ys)
  | None =>
      Ok (map (map (map (fun x => x + 0.5))) hm_xs,
          map (map (map (fun y => y + 0.5))) hm_ys)
  end.

(** Lines 376-390: thresholding of the candidates and nearest-candidate
    matching, giving one [Match] per batch item, keypoint and object. *)
Definition match_candidates (num_joints : nat) (kps : T4)
           (hm_score hm_xs hm_ys : T3) : result (list (list (list Match))) :=
  let hm_score' := map (map (map thresh_score)) hm_score in
  hm_ys <- ew3 thresh_coord hm_score hm_ys ;;
  hm_xs <- ew3 thresh_coord hm_score hm_xs ;;
  hm_kps <- zipM (zipM (zipM (fun x y => Ok [x; y]))) hm_xs hm_ys ;;
  hm_kps <- mapM (expand0 num_joints) hm_kps ;;
  cands <- zipM (zipM (fun c s => Ok (c, s))) hm_kps hm_score' ;;
  zipM (zipM (fun regs '(c, s) => mapM (match_one c s) regs)) kps cands.

(** The body of [if kps_heatmap is not None:] (lines 360-406). *)
Definition refine_keypoints (K num_joints : nat) (kps bboxes : T3)
           (kps_heatmap : T4) (kps_offsets : option T4)
  : result (T3 * T3) :=
  kps_heatmap <- _nms kps_heatmap 3 ;;
  kps <- mapM (fun kb => rows <- mapM view_pairs kb ;;
                         Ok (transpose num_joints rows)) kps ;;
  '(hm_score, hm_inds, hm_ys, hm_xs) <- _topk_channel kps_heatmap K ;;
  '(hm_xs, hm_ys) <- apply_offsets num_joints K kps_offsets hm_inds hm_xs hm_ys ;;
  matched <- match_candidates num_joints kps hm_score hm_xs hm_ys ;;
  let hm_score := map (map (map (fun m => [hm_score_of m]))) matched in
  let hm_kps := map (map (map hm_kps_of)) matched in
  bottom <- mapM (fun bb => row <- mapM (fun box => b <- index box 3 ;; Ok [b]) bb ;;
                            Ok (repeat row num_joints)) bboxes ;;
  mask <- zipM (fun mb bb => mapM (fun mj => zipM (fun m box => r <- reject box m ;;
                                                   Ok [if r : bool then 1 else 0])
                                                  mj bb) mb)
               matched bboxes ;;
  mask <- expand4 mask [PyTensor bottom; PyInt num_joints; PyInt K; PyInt 2] ;;
  picked <- ew4 (fun m h => (1 - m) * h) mask hm_kps ;;
  kept <- ew4 Rmult mask kps ;;
  kps <- ew4 Rplus picked kept ;;
  kps <- view_merge_last (permute_0213 K kps)
           [PyTensor bottom; PyInt K; PyInt (num_joints * 2)] ;;
  let hm_score := map (map (@concat _)) (permute_0213 K hm_score) in
  Ok (kps, hm_score).

(** Lines 409-411: the detection record. *)
Definition assemble (bboxes scores kps_inv dim hm_score rot_y position prob
                     clses : T3) : result T3 :=
  cat_dim2 [bboxes; scores; kps_inv; dim; hm_score; rot_y; position; prob; clses].

(** Reading a local variable that no executed statement has bound. *)
Definition local {X : Type} (v : option X) : result X :=
  match v with
  | Some x => Ok x
  | None => Raise NameError
  end.

Definition object_pose_decode (heat wh kps dim rot : T4)
           (prob reg kps_heatmap kps_offsets : option T4) (K : nat)
           (meta : option Meta) (const : option ConstT) : result T3 :=
  let num_joints := (size1 kps / 2)%nat in
  heat <- _nms heat 3 ;;
  '(scores, inds, clses, ys, xs) <- _topk heat K ;;
  kps <- _permute_and_gather_feat kps inds ;;
  kps <- check_last (num_joints * 2) kps ;;
  kps <- zipM (zipM (fun x row => Ok (add_even x row))) xs kps ;;
  kps <- zipM (zipM (fun y row => Ok (add_odd y row))) ys kps ;;
  '(xs, ys) <- match reg with
               | Some reg =>
                   reg <- _permute_and_gather_feat reg inds ;;
                   reg <- check_last 2 reg ;;
                   xs <- ew3 Rplus (map (map (fun x => [x])) xs)
                                   (map (map (slice 0 1)) reg) ;;
                   ys <- ew3 Rplus (map (map (fun y => [y])) ys)
                                   (map (map (slice 1 2)) reg) ;;
                   Ok (xs, ys)
               | None =>
                   Ok (map (map (fun x => [x + 0.5])) xs,
                       map (map (fun y => [y + 0.5])) ys)
               end ;;
  wh <- _permute_and_gather_feat wh inds ;;
  wh <- check_last 2 wh ;;
  let clses := map (map (fun c => [INR c])) clses in
  let scores := map (map (fun s => [s])) scores in
  let half_w := map (map (fun r => map (fun v => v / 2) (slice 0 1 r))) wh in
  let half_h := map (map (fun r => map (fun v => v / 2) (slice 1 2 r))) wh in
  x1 <- ew3 Rminus xs half_w ;;
  y1 <- ew3 Rminus ys half_h ;;
  x2 <- ew3 Rplus xs half_w ;;
  y2 <- ew3 Rplus ys half_h ;;
  bboxes <- cat_dim2 [x1; y1; x2; y2] ;;
  dim <- _permute_and_gather_feat dim inds ;;
  dim <- check_last 3 dim ;;
  rot <- _permute_and_gather_feat rot inds ;;
  rot <- check_last 8 rot ;;
  prob <- attribute prob ;;
  prob <- _permute_and_gather_feat prob inds ;;
  prob <- mapM (mapM (fun r => p <- index r 0 ;; Ok [p])) prob ;;
  '(kps, hm_score) <-
    match kps_heatmap with
    | Some kps_heatmap =>
        '(kps, hm_score) <- refine_keypoints K num_joints kps bboxes
                              kps_heatmap kps_offsets ;;
        Ok (kps, Some hm_score)
    | None => Ok (kps, None)
    end ;;
  '(position, rot_y, kps_inv) <- transform_img2cam kps dim rot meta const ;;
  hm_score <- local hm_score ;;
  assemble bboxes scores kps_inv dim hm_score rot_y position prob clses.

(** Lines 324-351 of [object_pose_decode]: the peaks, the regression
    keypoints made absolute, the sub-pixel centres and the boxes. *)
Definition decode_boxes (heat wh kps : T4) (reg : option T4) (K : nat)
  : result (T3 * list (list nat) * T3 * T3 * T3) :=
  let num_joints := (size1 kps / 2)%nat in
  heat <- _nms heat 3 ;;
  '(scores, inds, clses, ys, xs) <- _topk heat K ;;
  kps <- _permute_and_gather_feat kps inds ;;
  kps <- check_last (num_joints * 2) kps ;;
  kps <- zipM (zipM (fun x row => Ok (add_even x row))) xs kps ;;
  kps <- zipM (zipM (fun y row => Ok (add_odd y row))) ys kps ;;
  '(xs, ys) <- match reg with
               | Some reg =>
                   reg <- _permute_and_gather_feat reg inds ;;
                   reg <- check_last 2 reg ;;
                   xs <- ew3 Rplus (map (map (fun x => [x])) xs)
                                   (map (map (slice 0 1)) reg) ;;
                   ys <- ew3 Rplus (map (map (fun y => [y])) ys)
                                   (map (map (slice 1 2)) reg) ;;
                   Ok (xs, ys)
               | None =>
                   Ok (map (map (fun x => [x + 0.5])) xs,
                       map (map (fun y => [y + 0.5])) ys)
               end ;;
  wh <- _permute_and_gather_feat wh inds ;;
  wh <- check_last 2 wh ;;
  let clses := map (map (fun c => [INR c])) clses in
  let scores := map (map (fun s => [s])) scores in
  let half_w := map (map (fun r => map (fun v => v / 2) (slice 0 1 r))) wh in
  let half_h := map (map (fun r => map (fun v => v / 2) (slice 1 2 r))) wh in
  x1 <- ew3 Rminus xs half_w ;;
  y1 <- ew3 Rminus ys half_h ;;
  x2 <- ew3 Rplus xs half_w ;;
  y2 <- ew3 Rplus ys half_h ;;
  bboxes <- cat_dim2 [x1; y1; x2; y2] ;;
  Ok (scores, inds, clses, kps, bboxes).

(** ** Normal equations *)

(** Column [i] of a matrix given by its rows. *)
Definition col (i : nat) (A : T2) : T1 := map (fun row => nth i row 0) A.

(** The Gram matrix of three columns, its determinant, and the solution of
    the normal equations by the adjugate (Cramer's rule). *)
Definition gram_det (u v w : T1) : R :=
  det3 (dot u u) (dot u v) (dot u w) (dot v u) (dot v v) (dot v w)
       (dot w u) (dot w v) (dot w w).

Definition cramer (u v w rhs : T1) : T1 :=
  let a := dot u u in let b := dot u v in let c := dot u w in
  let d := dot v u in let e := dot v v in let f := dot v w in
  let g := dot w u in let h := dot w v in let i := dot w w in
  let dt := gram_det u v w in
  [ (e * i - f * h) / dt * dot u rhs + (c * h - b * i) / dt * dot v rhs
    + (b * f - c * e) / dt * dot w rhs;
    (f * g - d * i) / dt * dot u rhs + (a * i - c * g) / dt * dot v rhs
    + (c * d - a * f) / dt * dot w rhs;
    (d * h - e * g) / dt * dot u rhs + (b * g - a * h) / dt * dot v rhs
    + (a * e - b * d) / dt * dot w rhs ].


(** ** Example inputs *)

Definition heat_Z : list (list (list (list Z))) :=
  [[[[1; 2; 3]; [4; 9; 6]; [9; 8; 9]]%Z]].

Definition scores_Z : list (list (list (list Z))) :=
  [[[[1; 2; 3]; [4; 9; 6]; [9; 8; 9]]; [[0; 7; 0]; [0; 10; 0]; [0; 0; 0]]]%Z].

Definition probe_field : list (list (list (list nat))) :=
  [[[[0; 1; 2]; [3; 4; 5]]; [[0; 1; 2]; [3; 4; 5]]]]%nat.

(** The corner sign table of the eight box corners. *)
Definition const_matrix : T2 := concat (repeat [[-1; 0]; [0; -1]] 8).

(** Identity output transform, unit focal length, principal point 0. *)
Definition meta_id : Meta :=
  {| trans_output_inv := [[[1; 0; 0]; [0; 1; 0]]];
     calib := [[[1; 0; 0; 0]; [0; 1; 0; 0]; [0; 0; 1; 0]]] |}.

Definition rot_bin1 : T1 := [0; 1; 0; 1; 0; 0; 0; 1].

(** A one-pixel field with [n] channels, all [v]. *)
Definition pixel (n : nat) (v : R) : T4 := [repeat [[v]] n].

(** The nearest candidate that the matching keeps in the one-candidate
    example: candidate 0, thresholded. *)
Definition low_match : Match :=
  {| min_dist := dist [3; 4] [thresh_coord 0.05 3; thresh_coord 0.05 4];
     min_ind := 0;
     hm_score_of := thresh_score 0.05;
     hm_kps_of := [thresh_coord 0.05 3; thresh_coord 0.05 4] |}.

(** * Properties *)

Close Scope R_scope.

(** ** The integers and the reals as scalars *)

#[export] Instance ScalarLaws_Z : ScalarLaws Z.
Proof.
  split; cbn; intros.
  - destruct (Z.leb_spec x y); [now left | right; apply Z.leb_le; lia].
  - apply Z.leb_le. apply Z.leb_le in H, H0. lia.
  - apply Z.leb_le in H, H0. lia.
  - apply Z.eqb_eq.
  - apply Z.mul_1_r.
  - apply Z.mul_0_r.
Qed.

#[export] Instance ScalarLaws_R : ScalarLaws R.
Proof.
  split; cbn; unfold Rleb, Reqb; intros.
  - destruct (Rle_dec x y); [now left | right].
    destruct (Rle_dec y x); [reflexivity | lra].
  - destruct (Rle_dec x y), (Rle_dec y z), (Rle_dec x z);
      try discriminate; try reflexivity; lra.
  - destruct (Rle_dec x y), (Rle_dec y x); try discriminate; lra.
  - destruct (Req_dec_T x y); split; intros; try discriminate; try reflexivity;
      try assumption; contradiction.
  - apply Rmult_1_r.
  - apply Rmult_0_r.
Qed.

(** ** The error monad and list combinators *)

Lemma bind_ok {A B : Type} (m : result A) (k : A -> result B) (v : B) :
  bind m k = Ok v -> exists a, m = Ok a /\ k a = Ok v.
Proof.
  destruct m as [a|e]; simpl; intros E; [eauto | discriminate].
Qed.

Lemma mapM_map {A B : Type} (f : A -> result B) (g : A -> B) (l : list A) :
  (forall x, In x l -> f x = Ok (g x)) -> mapM f l = Ok (map g l).
Proof.
  induction l as [|x t IH]; simpl; intros Hf; [reflexivity|].
  rewrite (Hf x (or_introl eq_refl)). simpl.
  rewrite IH by (intros; apply Hf; now right). reflexivity.
Qed.

Lemma mapM_ok_length {A B : Type} (f : A -> result B) (l : list A) (r : list B) :
  mapM f l = Ok r -> length r = length l.
Proof.
  revert r. induction l as [|x t IH]; simpl; intros r E.
  - now inversion E.
  - apply bind_ok in E as (y & _ & E). apply bind_ok in E as (ys & E1 & E).
    inversion E; subst. simpl. f_equal. now apply IH.
Qed.

Lemma mapM_ok_nth {A B : Type} (f : A -> result B) (l : list A) (r : list B) :
  mapM f l = Ok r ->
  forall i x, nth_error l i = Some x ->
              exists y, nth_error r i = Some y /\ f x = Ok y.
Proof.
  revert r. induction l as [|a t IH]; simpl; intros r E i x Hi.
  - destruct i; discriminate.
  - apply bind_ok in E as (y & Ey & E). apply bind_ok in E as (ys & E1 & E).
    inversion E; subst. destruct i as [|i]; simpl in *.
    + inversion Hi; subst. eauto.
    + eapply IH; eauto.
Qed.

Lemma bzip_same_length {A B C : Type} (f : A -> B -> result C) l1 l2 :
  length l1 = length l2 -> bzip f l1 l2 = zipM f l1 l2.
Proof.
  intros E. unfold bzip.
  destruct l1 as [|x [|x' t1]], l2 as [|y [|y' t2]]; try discriminate; reflexivity.
Qed.

Lemma zipM_map_l {A B C : Type} (F : B -> A -> result C)
      (g : A -> B) (G : A -> C) (l : list A) :
  (forall x, In x l -> F (g x) x = Ok (G x)) ->
  zipM F (map g l) l = Ok (map G l).
Proof.
  induction l as [|x t IH]; simpl; intros Hf; [reflexivity|].
  rewrite (Hf x (or_introl eq_refl)). simpl.
  rewrite IH by (intros; apply Hf; now right). reflexivity.
Qed.

Lemma zipM_map_r {A B C : Type} (F : A -> B -> result C)
      (g : A -> B) (G : A -> C) (l : list A) :
  (forall x, In x l -> F x (g x) = Ok (G x)) ->
  zipM F l (map g l) = Ok (map G l).
Proof.
  induction l as [|x t IH]; simpl; intros Hf; [reflexivity|].
  rewrite (Hf x (or_introl eq_refl)). simpl.
  rewrite IH by (intros; apply Hf; now right). reflexivity.
Qed.

Lemma bzip_map_l {A B C : Type} (F : B -> A -> result C)
      (g : A -> B) (G : A -> C) (l : list A) :
  (forall x, In x l -> F (g x) x = Ok (G x)) ->
  bzip F (map g l) l = Ok (map G l).
Proof.
  intros Hf. rewrite bzip_same_length by apply length_map.
  now apply zipM_map_l.
Qed.

Lemma bzip_map_r {A B C : Type} (F : A -> B -> result C)
      (g : A -> B) (G : A -> C) (l : list A) :
  (forall x, In x l -> F x (g x) = Ok (G x)) ->
  bzip F l (map g l) = Ok (map G l).
Proof.
  intros Hf. rewrite bzip_same_length by (symmetry; apply length_map).
  now apply zipM_map_r.
Qed.

(** *** Indexed maps *)

Lemma imap_from_length {A B : Type} (f : nat -> A -> B) n l :
  length (imap_from f n l) = length l.
Proof.
  revert n. induction l; simpl; intros; [reflexivity | now rewrite IHl].
Qed.

Lemma nth_error_imap_from {A B : Type} (f : nat -> A -> B) n l i :
  nth_error (imap_from f n l) i = option_map (f (n + i)) (nth_error l i).
Proof.
  revert n i. induction l as [|x t IH]; intros n i.
  - destruct i; reflexivity.
  - destruct i as [|i]; simpl.
    + now rewrite Nat.add_0_r.
    + rewrite IH. now rewrite Nat.add_succ_r.
Qed.

Lemma nth_error_imap {A B : Type} (f : nat -> A -> B) l i :
  nth_error (imap f l) i = option_map (f i) (nth_error l i).
Proof. unfold imap. now rewrite nth_error_imap_from. Qed.

Lemma imap_from_ext {A B : Type} (f g : nat -> A -> B) n l :
  (forall i x, nth_error l i = Some x -> f (n + i) x = g (n + i) x) ->
  imap_from f n l = imap_from g n l.
Proof.
  revert n. induction l as [|x t IH]; simpl; intros n Hfg; [reflexivity|].
  f_equal.
  - specialize (Hfg 0 x eq_refl). now rewrite Nat.add_0_r in Hfg.
  - apply IH. intros i y Hi. specialize (Hfg (S i) y Hi).
    now rewrite Nat.add_succ_r in Hfg.
Qed.

Lemma imap_ext {A B : Type} (f g : nat -> A -> B) l :
  (forall i x, nth_error l i = Some x -> f i x = g i x) ->
  imap f l = imap g l.
Proof. intros Hfg. apply imap_from_ext. exact Hfg. Qed.

Lemma imap_from_compose {A B C : Type} (f : nat -> B -> C) (g : nat -> A -> B) n l :
  imap_from f n (imap_from g n l) = imap_from (fun i x => f i (g i x)) n l.
Proof.
  revert n. induction l; simpl; intros; [reflexivity | now rewrite IHl].
Qed.

Lemma imap_from_id {A : Type} (f : nat -> A -> A) n l :
  (forall i x, nth_error l i = Some x -> f (n + i) x = x) ->
  imap_from f n l = l.
Proof.
  revert n. induction l as [|x t IH]; simpl; intros n Hf; [reflexivity|].
  f_equal.
  - specialize (Hf 0 x eq_refl). now rewrite Nat.add_0_r in Hf.
  - apply IH. intros i y Hi. specialize (Hf (S i) y Hi).
    now rewrite Nat.add_succ_r in Hf.
Qed.

Lemma zipM_seq_imap {A B C : Type} (F : B -> A -> result C)
      (g : nat -> B) (G : nat -> A -> C) n (l : list A) :
  (forall i x, nth_error l i = Some x -> F (g (n + i)) x = Ok (G (n + i) x)) ->
  zipM F (map g (seq n (length l))) l = Ok (imap_from G n l).
Proof.
  revert n. induction l as [|x t IH]; simpl; intros n Hf; [reflexivity|].
  pose proof (Hf 0 x eq_refl) as H0. rewrite Nat.add_0_r in H0.
  rewrite H0. simpl. rewrite IH; [reflexivity|].
  intros i y Hi. specialize (Hf (S i) y Hi). now rewrite Nat.add_succ_r in Hf.
Qed.

Lemma zipM_imap_r {A B C : Type} (F : A -> B -> result C)
      (G : nat -> A -> B) (H : nat -> A -> C) n (l : list A) :
  (forall i x, nth_error l i = Some x -> F x (G (n + i) x) = Ok (H (n + i) x)) ->
  zipM F l (imap_from G n l) = Ok (imap_from H n l).
Proof.
  revert n. induction l as [|x t IH]; simpl; intros n Hf; [reflexivity|].
  pose proof (Hf 0 x eq_refl) as H0. rewrite Nat.add_0_r in H0.
  rewrite H0. simpl. rewrite IH; [reflexivity|].
  intros i y Hi. specialize (Hf (S i) y Hi). now rewrite Nat.add_succ_r in Hf.
Qed.

(** *** Shapes *)

Lemma shape2_row {A : Type} h w (p : list (list A)) i r :
  shape2 h w p -> nth_error p i = Some r -> length r = w.
Proof.
  intros [_ Hall] Hi. rewrite Forall_forall in Hall.
  apply Hall. eapply nth_error_In; eauto.
Qed.

Lemma shape2_width2 {A : Type} h w (p : list (list A)) :
  shape2 h w p -> p <> [] -> width2 p = w.
Proof.
  intros [_ Hall] Hne. destruct p as [|r t]; [congruence|].
  simpl. now inversion Hall.
Qed.

Lemma get2_Some_lt {A : Type} h w (p : list (list A)) i j x :
  shape2 h w p -> get2 p i j = Some x -> (i < h /\ j < w)%nat.
Proof.
  intros Hs Hg. unfold get2 in Hg.
  destruct (nth_error p i) as [r|] eqn:Hr; [|discriminate].
  pose proof (shape2_row _ Hs Hr) as Hw. destruct Hs as [Hh _].
  split.
  - rewrite <- Hh. apply nth_error_Some. congruence.
  - rewrite <- Hw. apply nth_error_Some. congruence.
Qed.

(** ** Peak suppression *)

Section NMSFacts.
Context {A : Type} {S : Scalar A} {L : ScalarLaws A}.

Lemma sleb_refl (x : A) : sleb x x = true.
Proof. destruct (sleb_total x x); assumption. Qed.

Lemma sleb_false_flip (x y : A) : sleb x y = false -> sleb y x = true.
Proof. intros E. destruct (sleb_total x y); congruence. Qed.

Lemma fold_omax_None (l : list (option A)) :
  fold_right omax None l = None -> forall y, ~ In (Some y) l.
Proof.
  induction l as [|a t IH]; simpl; intros E y; [tauto|].
  destruct a as [x|]; simpl in E.
  - destruct (fold_right omax None t); discriminate.
  - intros [H|H]; [discriminate | now apply (IH E y)].
Qed.

Lemma fold_omax_Some (l : list (option A)) (m : A) :
  fold_right omax None l = Some m ->
  In (Some m) l /\ forall y, In (Some y) l -> sleb y m = true.
Proof.
  revert m. induction l as [|a t IH]; simpl; intros m E; [discriminate|].
  destruct a as [x|]; simpl in E.
  - destruct (fold_right omax None t) as [m'|] eqn:Ft.
    + destruct (IH m' eq_refl) as [Hin Hmax].
      inversion E as [Em]. unfold smax in *.
      destruct (sleb x m') eqn:Hx.
      * split; [now right|]. intros y [Hy|Hy]; [now inversion Hy; subst | auto].
      * split; [now left|]. intros y [Hy|Hy].
        -- inversion Hy; subst. apply sleb_refl.
        -- eapply sleb_trans; [apply Hmax, Hy | now apply sleb_false_flip].
    + inversion E; subst. split; [now left|].
      intros y [Hy|Hy]; [inversion Hy; subst; apply sleb_refl|].
      exfalso. eapply fold_omax_None; eauto.
  - destruct (IH m E) as [Hin Hmax]. split; [now right|].
    intros y [Hy|Hy]; [discriminate | auto].
Qed.

Lemma at2_of_nat (p : list (list A)) (i j : nat) :
  at2 p (Z.of_nat i) (Z.of_nat j) = get2 p i j.
Proof.
  unfold at2.
  destruct (Z.ltb_spec (Z.of_nat i) 0); [lia|].
  destruct (Z.ltb_spec (Z.of_nat j) 0); [lia|].
  simpl. now rewrite !Nat2Z.id.
Qed.

Lemma at2_Some (p : list (list A)) (a b : Z) (y : A) :
  at2 p a b = Some y ->
  exists i j, a = Z.of_nat i /\ b = Z.of_nat j /\ get2 p i j = Some y.
Proof.
  unfold at2. intros E.
  destruct (Z.ltb_spec a 0); [discriminate|].
  destruct (Z.ltb_spec b 0); [discriminate|].
  simpl in E. exists (Z.to_nat a), (Z.to_nat b).
  rewrite !Z2Nat.id by lia. auto.
Qed.

Lemma in_window (p : list (list A)) (i j : nat) (c : option A) :
  In c (window p 3 1 i j) <->
  exists di dj, (di < 3)%nat /\ (dj < 3)%nat /\
    c = at2 p (Z.of_nat i + Z.of_nat di - 1) (Z.of_nat j + Z.of_nat dj - 1).
Proof.
  unfold window. rewrite in_flat_map. split.
  - intros (di & Hdi & Hc). apply in_map_iff in Hc as (dj & Hc & Hdj).
    apply in_seq in Hdi, Hdj. exists di, dj. repeat split; try lia. now symmetry.
  - intros (di & dj & Hdi & Hdj & Hc). exists di. split; [apply in_seq; lia|].
    apply in_map_iff. exists dj. split; [now symmetry | apply in_seq; lia].
Qed.

(** The cells of the padded 3 x 3 window that are not padding are the
    cells of the plane at distance at most one on each axis. *)
Lemma window_neighbours (p : list (list A)) (i j : nat) (y : A) :
  In (Some y) (window p 3 1 i j) <->
  exists i' j', nbr i i' /\ nbr j j' /\ get2 p i' j' = Some y.
Proof.
  rewrite in_window. unfold nbr. split.
  - intros (di & dj & Hdi & Hdj & E). symmetry in E.
    apply at2_Some in E as (i' & j' & Ei & Ej & G).
    exists i', j'. repeat split; [lia | lia | exact G].
  - intros (i' & j' & Hi & Hj & G).
    exists (i' + 1 - i)%nat, (j' + 1 - j)%nat.
    repeat split; [lia | lia |].
    replace (Z.of_nat i + Z.of_nat (i' + 1 - i) - 1)%Z with (Z.of_nat i') by lia.
    replace (Z.of_nat j + Z.of_nat (j' + 1 - j) - 1)%Z with (Z.of_nat j') by lia.
    now rewrite at2_of_nat.
Qed.

Lemma nbr_refl (i : nat) : nbr i i.
Proof. now left. Qed.

Lemma nbr_sym (i i' : nat) : nbr i i' -> nbr i' i.
Proof. unfold nbr. lia. Qed.

Lemma window_max_Some (p : list (list A)) (i j : nat) (x : A) :
  get2 p i j = Some x -> exists m, window_max p 3 1 i j = Some m.
Proof.
  intros G. unfold window_max.
  destruct (fold_right omax None (window p 3 1 i j)) as [m|] eqn:E; [eauto|].
  exfalso. apply (fold_omax_None _ E x).
  apply window_neighbours. exists i, j. repeat split; auto using nbr_refl.
Qed.

Lemma wmax_ge (p : list (list A)) (i j i' j' : nat) (x z : A) :
  get2 p i j = Some x -> nbr i i' -> nbr j j' -> get2 p i' j' = Some z ->
  sleb z (wmax p i j) = true.
Proof.
  intros G Hi Hj G'. unfold wmax.
  destruct (window_max_Some p i j G) as [m E]. rewrite E.
  apply fold_omax_Some in E as [_ Hmax]. apply Hmax.
  apply window_neighbours. eauto.
Qed.

Lemma wmax_attained (p : list (list A)) (i j : nat) (x : A) :
  get2 p i j = Some x ->
  exists i' j', nbr i i' /\ nbr j j' /\ get2 p i' j' = Some (wmax p i j).
Proof.
  intros G. unfold wmax.
  destruct (window_max_Some p i j G) as [m E]. rewrite E.
  apply fold_omax_Some in E as [Hin _]. now apply window_neighbours.
Qed.

(** A cell that dominates its neighbourhood is the window maximum. *)
Lemma wmax_local_max (p : list (list A)) (i j : nat) (x : A) :
  get2 p i j = Some x ->
  (forall i' j' z, nbr i i' -> nbr j j' -> get2 p i' j' = Some z ->
                   sleb z x = true) ->
  wmax p i j = x.
Proof.
  intros G Hmax.
  destruct (wmax_attained p i j G) as (i' & j' & Hi & Hj & G').
  apply sleb_antisym.
  - eapply Hmax; eauto.
  - eapply wmax_ge with (i' := i) (j' := j); eauto using nbr_refl.
Qed.

Lemma nms_cell_cases (p : list (list A)) (i j : nat) (x : A) :
  nms_cell p i j x = x \/ nms_cell p i j x = szero.
Proof.
  unfold nms_cell, keep_of. destruct (seqb (wmax p i j) x).
  - left. apply smul_one.
  - right. apply smul_zero.
Qed.

Lemma nms_cell_keep (p : list (list A)) (i j : nat) (x : A) :
  wmax p i j = x -> nms_cell p i j x = x.
Proof.
  intros E. unfold nms_cell, keep_of.
  apply seqb_iff in E. rewrite E. apply smul_one.
Qed.

Lemma nms_cell_drop (p : list (list A)) (i j : nat) (x : A) :
  wmax p i j <> x -> nms_cell p i j x = szero.
Proof.
  intros E. unfold nms_cell, keep_of.
  destruct (seqb (wmax p i j) x) eqn:Q; [apply seqb_iff in Q; contradiction|].
  apply smul_zero.
Qed.

Lemma nms_cell_le (p : list (list A)) (i j : nat) (x : A) :
  sleb szero x = true -> sleb (nms_cell p i j x) x = true.
Proof.
  intros Hx. destruct (nms_cell_cases p i j x) as [E|E]; rewrite E;
    [apply sleb_refl | exact Hx].
Qed.

Lemma get2_nms_plane (p : list (list A)) (i j : nat) :
  get2 (nms_plane p) i j = option_map (nms_cell p i j) (get2 p i j).
Proof.
  unfold get2, nms_plane. rewrite nth_error_imap.
  destruct (nth_error p i) as [r|]; simpl; [|reflexivity].
  apply nth_error_imap.
Qed.

Lemma shape2_nms_plane h w (p : list (list A)) :
  shape2 h w p -> shape2 h w (nms_plane p).
Proof.
  intros [Hh Hw]. unfold nms_plane, imap. split.
  - now rewrite imap_from_length.
  - apply Forall_forall. intros r Hr.
    apply In_nth_error in Hr as [i Hi].
    rewrite nth_error_imap_from in Hi.
    destruct (nth_error p i) as [r0|] eqn:E; [|discriminate].
    inversion Hi; subst. rewrite imap_from_length.
    rewrite Forall_forall in Hw. apply Hw. eapply nth_error_In; eauto.
Qed.

(** [max_pool2d] with the default kernel, on a rectangular plane. *)
Lemma max_pool2d_3 h w (p : list (list A)) :
  shape2 h w p ->
  max_pool2d 3 1 p
  = Ok (map (fun i => map (fun j => wmax p i j) (seq 0 w)) (seq 0 h)).
Proof.
  intros Hs. unfold max_pool2d, pool_plane. simpl ((3 =? 0) || (3 / 2 <? 1)).
  cbv iota.
  replace (length p + 2 * 1 + 1 - 3) with h by (destruct Hs; lia).
  destruct p as [|r0 t] eqn:Ep.
  { destruct Hs as [Hh _]. simpl in Hh. subst h. reflexivity. }
  rewrite <- Ep in *.
  assert (Hw : width2 p = w) by (apply (shape2_width2 Hs); congruence).
  replace (width2 p + 2 * 1 + 1 - 3) with w by lia.
  apply mapM_map. intros i Hi. apply in_seq in Hi.
  apply mapM_map. intros j Hj. apply in_seq in Hj.
  assert (exists x, get2 p i j = Some x) as [x G].
  { unfold get2. destruct (nth_error p i) as [r|] eqn:Er.
    - pose proof (shape2_row _ Hs Er) as Hr.
      destruct (nth_error r j) eqn:Ej; [eauto|].
      apply nth_error_None in Ej. lia.
    - apply nth_error_None in Er. destruct Hs. lia. }
  unfold wmax. simpl Z.of_nat.
  destruct (window_max_Some p i j G) as [m E]. now rewrite E.
Qed.

Lemma keep_planewise h w (p : list (list A)) :
  shape2 h w p -> ew2 keep_of (pool_plane h w p) p = Ok (keep_plane p).
Proof.
  intros [Hh Hw]. unfold pool_plane, keep_plane, imap, ew2.
  rewrite bzip_same_length by (rewrite length_map, length_seq; congruence).
  rewrite <- Hh. apply zipM_seq_imap. intros i r Hr. simpl.
  assert (Hlen : length r = w)
    by (rewrite Forall_forall in Hw; apply Hw; eapply nth_error_In; eauto).
  unfold ew1. rewrite bzip_same_length
    by (rewrite length_map, length_seq; congruence).
  rewrite <- Hlen. apply zipM_seq_imap. reflexivity.
Qed.

Lemma mul_planewise (p : list (list A)) :
  ew2 smul p (keep_plane p) = Ok (nms_plane p).
Proof.
  unfold keep_plane, nms_plane, imap, ew2.
  rewrite bzip_same_length by (now rewrite imap_from_length).
  apply zipM_imap_r. intros i r Hr. simpl.
  unfold ew1. rewrite bzip_same_length by (now rewrite imap_from_length).
  apply zipM_imap_r. reflexivity.
Qed.

(** On a rectangular heatmap the default suppression is the plane-wise
    map of [nms_plane]. *)
Lemma nms_maps_planes b c h w (heat : list (list (list (list A)))) :
  shape4 b c h w heat ->
  _nms heat 3 = Ok (map (map nms_plane) heat).
Proof.
  intros [Hb Hall]. rewrite Forall_forall in Hall.
  unfold _nms. simpl ((3 - 1) / 2).
  assert (Hplane : forall s p, In s heat -> In p s -> shape2 h w p).
  { intros s p Hs Hp. destruct (Hall s Hs) as [_ Hc].
    rewrite Forall_forall in Hc. auto. }
  rewrite (mapM_map _ (map (pool_plane h w))).
  2:{ intros s Hs. apply mapM_map. intros p Hp.
      apply max_pool2d_3. eauto. }
  simpl. unfold ew4 at 1.
  rewrite (bzip_map_l _ _ (map keep_plane)).
  2:{ intros s Hs. unfold ew3. apply bzip_map_l. intros p Hp.
      apply keep_planewise. eauto. }
  simpl. unfold ew4. apply bzip_map_r. intros s Hs.
  unfold ew3. apply bzip_map_r. intros p Hp. apply mul_planewise.
Qed.

Lemma fold_omax_members (l1 l2 : list (option A)) :
  (forall y, In (Some y) l1 <-> In (Some y) l2) ->
  fold_right omax None l1 = fold_right omax None l2.
Proof.
  intros Hm.
  destruct (fold_right omax None l1) as [m1|] eqn:E1,
           (fold_right omax None l2) as [m2|] eqn:E2; [| | |reflexivity].
  - apply fold_omax_Some in E1 as [I1 M1], E2 as [I2 M2].
    f_equal. apply sleb_antisym; [apply M2, Hm, I1 | apply M1, Hm, I2].
  - apply fold_omax_Some in E1 as [I1 _].
    exfalso. apply (fold_omax_None _ E2 m1). now apply Hm.
  - apply fold_omax_Some in E2 as [I2 _].
    exfalso. apply (fold_omax_None _ E1 m2). now apply Hm.
Qed.

Lemma edge_window_neighbours h w (p : list (list A)) (i j : nat) (y : A) :
  shape2 h w p -> (i < h)%nat -> (j < w)%nat ->
  In (Some y) (edge_window p h w i j) <->
  exists i' j', nbr i i' /\ nbr j j' /\ get2 p i' j' = Some y.
Proof.
  intros Hs Hi Hj. unfold edge_window. rewrite in_flat_map. split.
  - intros (di & Hdi & Hc). apply in_map_iff in Hc as (dj & Hc & Hdj).
    exists (clamp h (Z.of_nat i + di)), (clamp w (Z.of_nat j + dj)).
    split; [|split; [|exact Hc]].
    + unfold nbr, clamp. simpl in Hdi. destruct Hdi as [<-|[<-|[<-|[]]]]; lia.
    + unfold nbr, clamp. simpl in Hdj. destruct Hdj as [<-|[<-|[<-|[]]]]; lia.
  - intros (i' & j' & Ni & Nj & G).
    destruct (get2_Some_lt _ _ Hs G) as [Hi' Hj'].
    exists (Z.of_nat i' - Z.of_nat i)%Z. split.
    { unfold nbr in Ni. simpl. destruct Ni as [->|[->|<-]]; [right; left|do 2 right; left|left]; lia. }
    apply in_map_iff. exists (Z.of_nat j' - Z.of_nat j)%Z. split.
    + replace (clamp h (Z.of_nat i + (Z.of_nat i' - Z.of_nat i))) with i'
        by (unfold clamp; lia).
      replace (clamp w (Z.of_nat j + (Z.of_nat j' - Z.of_nat j))) with j'
        by (unfold clamp; lia).
      exact G.
    + unfold nbr in Nj. simpl. destruct Nj as [->|[->|<-]]; [right; left|do 2 right; left|left]; lia.
Qed.

(** Padding with minus infinity and padding by edge replication give the
    same window maximum. *)
Lemma edge_max_wmax h w (p : list (list A)) (i j : nat) (x : A) :
  shape2 h w p -> get2 p i j = Some x ->
  edge_max p h w i j = Some (wmax p i j).
Proof.
  intros Hs G. destruct (get2_Some_lt _ _ Hs G) as [Hi Hj].
  unfold edge_max, wmax.
  destruct (window_max_Some p i j G) as [m E]. rewrite E. rewrite <- E.
  unfold window_max. apply fold_omax_members. intros y.
  rewrite (edge_window_neighbours _ Hs Hi Hj). now rewrite window_neighbours.
Qed.

Lemma shape4_nms b c h w (heat : list (list (list (list A)))) :
  shape4 b c h w heat -> shape4 b c h w (map (map nms_plane) heat).
Proof.
  intros [Hb Hall]. split; [now rewrite length_map|].
  apply Forall_map. eapply Forall_impl; [|exact Hall].
  intros s [Hc Hp]. split; [now rewrite length_map|].
  apply Forall_map. eapply Forall_impl; [|exact Hp].
  intros p. apply shape2_nms_plane.
Qed.

Lemma get4_planes (heat : list (list (list (list A)))) bi ci i j :
  get4 heat bi ci i j
  = match get2 heat bi ci with Some p => get2 p i j | None => None end.
Proof.
  unfold get4, get3, get2. destruct (nth_error heat bi); reflexivity.
Qed.

Lemma get2_map_map {X Y : Type} (f : X -> Y) (t : list (list X)) i j :
  get2 (map (map f) t) i j = option_map f (get2 t i j).
Proof.
  unfold get2. rewrite nth_error_map. destruct (nth_error t i); simpl;
    [now rewrite nth_error_map | reflexivity].
Qed.

Lemma shape4_plane b c h w (heat : list (list (list (list A)))) bi ci p :
  shape4 b c h w heat -> get2 heat bi ci = Some p -> shape2 h w p.
Proof.
  intros [_ Hall] G. unfold get2 in G.
  destruct (nth_error heat bi) as [s|] eqn:Es; [|discriminate].
  rewrite Forall_forall in Hall. destruct (Hall s (nth_error_In _ _ Es)) as [_ Hp].
  rewrite Forall_forall in Hp. apply Hp. eapply nth_error_In; eauto.
Qed.

(** A second pass leaves the survivors of the first in place when no value
    is negative. *)
Lemma nms_cell_idem (p : list (list A)) (i j : nat) (x : A) :
  (forall i' j' z, get2 p i' j' = Some z -> sleb szero z = true) ->
  get2 p i j = Some x ->
  nms_cell (nms_plane p) i j (nms_cell p i j x) = nms_cell p i j x.
Proof.
  intros Hpos G.
  destruct (seqb (wmax p i j) x) eqn:Q.
  - apply seqb_iff in Q. rewrite (nms_cell_keep _ _ _ Q).
    apply nms_cell_keep. apply wmax_local_max.
    + rewrite get2_nms_plane, G. simpl. now rewrite nms_cell_keep.
    + intros i' j' z' Ni Nj G'. rewrite get2_nms_plane in G'.
      destruct (get2 p i' j') as [z|] eqn:Gz; [|discriminate].
      inversion G'; subst z'.
      eapply sleb_trans; [apply nms_cell_le; eauto|].
      rewrite <- Q. eapply wmax_ge; eauto.
  - assert (Hd : nms_cell p i j x = szero).
    { apply nms_cell_drop. intros E. apply seqb_iff in E. congruence. }
    rewrite Hd. destruct (nms_cell_cases (nms_plane p) i j szero); assumption.
Qed.

Lemma imap2_fixed (F G : nat -> nat -> A -> A) (p : list (list A)) :
  (forall i j x, get2 p i j = Some x -> F i j (G i j x) = G i j x) ->
  imap (fun i r => imap (fun j y => F i j y) r)
       (imap (fun i r => imap (fun j x => G i j x) r) p)
  = imap (fun i r => imap (fun j x => G i j x) r) p.
Proof.
  intros Hfix. unfold imap.
  rewrite imap_from_compose. apply imap_from_ext. intros i r Hr. simpl.
  rewrite imap_from_compose. apply imap_from_ext. intros j x Hx. simpl.
  apply Hfix. unfold get2. now rewrite Hr.
Qed.

Lemma nms_plane_idem (p : list (list A)) :
  (forall i j z, get2 p i j = Some z -> sleb szero z = true) ->
  nms_plane (nms_plane p) = nms_plane p.
Proof.
  intros Hpos.
  change (nms_plane (nms_plane p))
    with (imap (fun i r => imap (fun j y => nms_cell (nms_plane p) i j y) r)
               (nms_plane p)).
  set (F := fun i j y => nms_cell (nms_plane p) i j y).
  unfold nms_plane.
  apply (imap2_fixed F (nms_cell p)). intros i j x G. unfold F.
  now apply nms_cell_idem.
Qed.

End NMSFacts.

(** ** Transposition and flattening *)

Section TransposeFacts.
Context {X : Type}.

Lemma zipWith_length {Y Z : Type} (f : X -> Y -> Z) l1 l2 :
  length (zipWith f l1 l2) = Nat.min (length l1) (length l2).
Proof.
  revert l2. induction l1 as [|a t IH]; intros [|b u]; simpl; auto.
Qed.

Lemma nth_error_zipWith {Y Z : Type} (f : X -> Y -> Z) l1 l2 n :
  nth_error (zipWith f l1 l2) n
  = match nth_error l1 n, nth_error l2 n with
    | Some a, Some b => Some (f a b)
    | _, _ => None
    end.
Proof.
  revert l2 n. induction l1 as [|a t IH]; intros [|b u] [|n]; simpl; auto.
  - destruct (nth_error t n); reflexivity.
Qed.

Lemma transpose_length n (rows : list (list X)) :
  Forall (fun r => length r = n) rows -> length (transpose n rows) = n.
Proof.
  induction 1 as [|r rs Hr _ IH]; simpl.
  - apply repeat_length.
  - rewrite zipWith_length, IH, Hr. apply Nat.min_id.
Qed.

Lemma get2_transpose n (rows : list (list X)) i j :
  Forall (fun r => length r = n) rows ->
  get2 (transpose n rows) j i = get2 rows i j.
Proof.
  intros Hall. revert i. induction Hall as [|r rs Hr Hrs IH]; intros i.
  - simpl. unfold get2. destruct (nth_error (repeat [] n) j) as [e|] eqn:E.
    + apply nth_error_In, repeat_spec in E. subst e.
      destruct i; reflexivity.
    + destruct i; reflexivity.
  - simpl. unfold get2 at 1. rewrite nth_error_zipWith.
    pose proof (transpose_length Hrs) as HT.
    assert (E0 : get2 (r :: rs) 0 j = nth_error r j) by reflexivity.
    assert (ES : forall i', get2 (r :: rs) (S i') j = get2 rs i' j) by reflexivity.
    destruct (nth_error r j) as [a|] eqn:Ea.
    + assert (Hj : j < n) by (rewrite <- Hr; apply nth_error_Some; congruence).
      destruct (nth_error (transpose n rs) j) as [col|] eqn:Ec.
      * destruct i as [|i]; [now rewrite E0|]. rewrite ES. simpl.
        specialize (IH i). unfold get2 at 1 in IH. rewrite Ec in IH. exact IH.
      * apply nth_error_None in Ec. lia.
    + assert (Hj : n <= j) by (rewrite <- Hr; now apply nth_error_None).
      destruct i as [|i]; [now rewrite E0|]. rewrite ES.
      specialize (IH i). unfold get2 at 1 in IH.
      assert (Ec : nth_error (transpose n rs) j = None)
        by (apply nth_error_None; lia).
      rewrite Ec in IH. exact IH.
Qed.

Lemma transpose_col_length n (rows : list (list X)) col :
  Forall (fun r => length r = n) rows ->
  In col (transpose n rows) -> length col = length rows.
Proof.
  intros Hall. revert col. induction Hall as [|r rs Hr Hrs IH]; intros col Hin.
  - simpl in Hin. apply repeat_spec in Hin. now subst.
  - simpl in Hin. apply In_nth_error in Hin as [j Hj].
    rewrite nth_error_zipWith in Hj.
    destruct (nth_error r j); [|discriminate].
    destruct (nth_error (transpose n rs) j) as [c0|] eqn:Ec; [|discriminate].
    inversion Hj; subst. simpl. f_equal. apply IH. eapply nth_error_In; eauto.
Qed.

Lemma nth_error_concat w (rows : list (list X)) p :
  Forall (fun r => length r = w) rows ->
  nth_error (concat rows) p = get2 rows (p / w) (p mod w).
Proof.
  intros Hall. destruct (Nat.eq_dec w 0) as [->|Hw].
  - assert (E : concat rows = []).
    { induction Hall as [|r rs Hr _ IH]; simpl; [reflexivity|].
      apply length_zero_iff_nil in Hr. now rewrite Hr, IH. }
    rewrite E. simpl. unfold get2.
    destruct rows as [|r rs]; simpl.
    + destruct p; reflexivity.
    + inversion Hall; subst. apply length_zero_iff_nil in H1. subst r.
      destruct p; reflexivity.
  - revert p. induction Hall as [|r rs Hr _ IH]; intros p; simpl.
    + unfold get2. destruct (p / w), p; reflexivity.
    + destruct (Nat.lt_ge_cases p w) as [Hlt|Hge].
      * rewrite nth_error_app1 by lia.
        rewrite Nat.div_small, Nat.mod_small by lia. reflexivity.
      * rewrite nth_error_app2 by lia. rewrite IH, Hr.
        replace p with ((p - w) + 1 * w) at 3 4 by lia.
        rewrite Nat.div_add, Nat.Div0.mod_add by lia.
        replace ((p - w) / w + 1) with (S ((p - w) / w)) by lia.
        reflexivity.
Qed.

Lemma length_concat_uniform w (rows : list (list X)) :
  Forall (fun r => length r = w) rows ->
  length (concat rows) = length rows * w.
Proof.
  induction 1 as [|r rs Hr _ IH]; simpl; [reflexivity|].
  rewrite length_app, IH, Hr. reflexivity.
Qed.

End TransposeFacts.

(** ** Gathering *)

Section GatherFacts.
Context {X : Type}.

Lemma shape3_plane c h w (fb : list (list (list X))) ch p :
  shape3 c h w fb -> nth_error fb ch = Some p -> shape2 h w p.
Proof.
  intros [_ Hall] E. rewrite Forall_forall in Hall.
  apply Hall. eapply nth_error_In; eauto.
Qed.

Lemma shape3_heights c h w (fb : list (list (list X))) :
  shape3 c h w fb -> Forall (fun p => length p = h) fb.
Proof.
  intros [_ Hall]. eapply Forall_impl; [|exact Hall]. now intros p [Hh _].
Qed.

Lemma permute_hwc_rows c h w (fb : list (list (list X))) col :
  shape3 c h w fb -> In col (transpose h fb) ->
  length col = c /\ Forall (fun r => length r = w) col.
Proof.
  intros Hs Hin. split.
  - rewrite (transpose_col_length col (shape3_heights Hs) Hin). now destruct Hs.
  - apply Forall_forall. intros r Hr.
    apply In_nth_error in Hin as [i Hi]. apply In_nth_error in Hr as [ch Hch].
    pose proof (get2_transpose ch i (shape3_heights Hs)) as G.
    unfold get2 at 1 in G. rewrite Hi, Hch in G. symmetry in G.
    unfold get2 in G. destruct (nth_error fb ch) as [p|] eqn:Ep; [|discriminate].
    eapply shape2_row; [eapply shape3_plane; eauto | exact G].
Qed.

(** The permuted tensor holds at [(i, j, ch)] what the field holds at
    [(ch, i, j)]. *)
Lemma get3_permute_hwc c h w (fb : list (list (list X))) i j ch :
  shape3 c h w fb ->
  get3 (permute_hwc h w fb) i j ch = get3 fb ch i j.
Proof.
  intros Hs. unfold permute_hwc, get3. rewrite nth_error_map.
  destruct (nth_error (transpose h fb) i) as [col|] eqn:Ec; simpl.
  - destruct (permute_hwc_rows col Hs (nth_error_In _ _ Ec)) as [_ Hw].
    rewrite (get2_transpose _ _ Hw).
    pose proof (get2_transpose ch i (shape3_heights Hs)) as G.
    unfold get2 at 1 in G. rewrite Ec in G.
    unfold get2 at 1. rewrite G. unfold get2.
    destruct (nth_error fb ch); reflexivity.
  - rewrite (transpose_length (shape3_heights Hs)) in Ec || idtac.
    apply nth_error_None in Ec.
    rewrite (transpose_length (shape3_heights Hs)) in Ec.
    destruct (nth_error fb ch) as [p|] eqn:Ep; [|reflexivity].
    destruct (shape3_plane _ Hs Ep) as [Hh _].
    unfold get2. assert (E : nth_error p i = None) by (apply nth_error_None; lia).
    now rewrite E.
Qed.

Lemma permute_hwc_shape c h w (fb : list (list (list X))) :
  shape3 c h w fb -> shape3 h w c (permute_hwc h w fb).
Proof.
  intros Hs. unfold permute_hwc. split.
  - rewrite length_map. apply transpose_length, (shape3_heights Hs).
  - apply Forall_map, Forall_forall. intros col Hin.
    destruct (permute_hwc_rows col Hs Hin) as [Hc Hw]. split.
    + now apply transpose_length.
    + apply Forall_forall. intros r Hr.
      rewrite (transpose_col_length r Hw Hr). exact Hc.
Qed.

(** The flattened spatial axis: position [p] is row [p / w], column
    [p mod w]. *)
Lemma flat_hwc_spec c h w (fb : list (list (list X))) :
  shape3 c h w fb ->
  let flat := concat (permute_hwc h w fb) in
  length flat = h * w /\
  Forall (fun r => length r = c) flat /\
  forall p ch, get2 flat p ch = get3 fb ch (p / w) (p mod w).
Proof.
  intros Hs flat. destruct (permute_hwc_shape Hs) as [Hh Hall].
  assert (Hrows : Forall (fun r => length r = w) (permute_hwc h w fb)).
  { eapply Forall_impl; [|exact Hall]. now intros r [Hw _]. }
  repeat split.
  - unfold flat. rewrite (length_concat_uniform Hrows). now rewrite Hh.
  - apply Forall_forall. intros r Hr. apply in_concat in Hr as (rows & Hin & Hr).
    rewrite Forall_forall in Hall. destruct (Hall rows Hin) as [_ Hc].
    rewrite Forall_forall in Hc. auto.
  - intros p ch. unfold flat, get2 at 1.
    rewrite (nth_error_concat p Hrows).
    rewrite <- (get3_permute_hwc _ _ _ Hs). unfold get3, get2.
    destruct (nth_error (permute_hwc h w fb) (p / w)); reflexivity.
Qed.

Lemma gather_feat_spec (feat : list (list (list X))) (ind : list (list nat)) :
  length ind <= length feat ->
  (forall bi k i fb, get2 ind bi k = Some i -> nth_error feat bi = Some fb ->
                     i < length fb) ->
  exists out,
    _gather_feat feat ind = Ok out /\
    length out = length ind /\
    (forall bi row orow, nth_error ind bi = Some row ->
                         nth_error out bi = Some orow ->
                         length orow = length row) /\
    forall bi k i, get2 ind bi k = Some i -> get2 out bi k = get2 feat bi i.
Proof.
  revert feat. induction ind as [|indb it IH]; intros feat Hlen Hin.
  - exists []. split; [destruct feat; reflexivity|]. split; [reflexivity|]. split.
    + intros bi row orow H. destruct bi; discriminate.
    + intros bi k i H. unfold get2 in H. destruct bi; discriminate.
  - destruct feat as [|fb ft]; [simpl in Hlen; lia|].
    destruct (IH ft) as (rs & Ers & Lrs & Hrows & Hrs).
    { simpl in Hlen. lia. }
    { intros bi k i fb' G E. apply (Hin (S bi) k i fb'); assumption. }
    assert (Hpick : forall i, In i indb -> exists row, nth_error fb i = Some row).
    { intros i Hi. apply In_nth_error in Hi as [k Hk].
      assert (Hlt : i < length fb).
      { apply (Hin 0 k i fb); [unfold get2; simpl; exact Hk | reflexivity]. }
      destruct (nth_error fb i) eqn:E; [eauto|].
      apply nth_error_None in E. lia. }
    assert (Er : exists r, mapM (pick fb) indb = Ok r /\ length r = length indb /\
                           forall k i, nth_error indb k = Some i ->
                                       nth_error r k = nth_error fb i).
    { clear - Hpick. induction indb as [|i t IHt].
      - exists []. simpl. split; [reflexivity|]. split; [reflexivity|].
        intros k i H. destruct k; discriminate.
      - destruct (Hpick i (or_introl eq_refl)) as [row Erow].
        destruct IHt as (r & Er & Lr & Hr); [intros; apply Hpick; now right|].
        exists (row :: r). simpl. unfold pick at 1. rewrite Erow. simpl.
        rewrite Er. simpl. split; [reflexivity|]. split; [now rewrite Lr|].
        intros k i' H. destruct k as [|k]; simpl in *.
        + inversion H; subst. now symmetry.
        + auto. }
    destruct Er as (r & Er & Lr & Hr).
    exists (r :: rs). simpl. rewrite Er. simpl. rewrite Ers. simpl.
    split; [reflexivity|]. split; [|split].
    + now rewrite Lrs.
    + intros bi row orow H1 H2. destruct bi as [|bi]; simpl in *.
      * inversion H1; inversion H2; subst. exact Lr.
      * eauto.
    + intros bi k i G. destruct bi as [|bi].
      * unfold get2 in *. simpl in *. now apply Hr.
      * unfold get2 in *. simpl in *. apply Hrs. exact G.
Qed.

Lemma get3_rows (t : list (list (list X))) a i j :
  get3 t a i j
  = match get2 t a i with Some r => nth_error r j | None => None end.
Proof.
  unfold get3, get2. destruct (nth_error t a); reflexivity.
Qed.

Lemma shape4_sizes b c h w (feat : list (list (list (list X)))) :
  0 < b -> 0 < c -> 0 < h -> shape4 b c h w feat ->
  size2 feat = h /\ size3 feat = w.
Proof.
  intros Hb Hc Hh [Lb Hall].
  destruct feat as [|s t]; [simpl in Lb; lia|].
  inversion Hall as [|? ? Hsh _]; subst. destruct Hsh as [Lc Hs].
  destruct s as [|p u]; [simpl in Lc; lia|].
  inversion Hs as [|? ? Hph _]; subst. destruct Hph as [Lh Hp].
  destruct p as [|r v]; [simpl in Lh; lia|].
  inversion Hp; subst. simpl. auto.
Qed.

Lemma get4_in_bounds b c h w (feat : list (list (list (list X)))) bi ch y x :
  shape4 b c h w feat -> bi < b -> ch < c -> y < h -> x < w ->
  exists v, get4 feat bi ch y x = Some v.
Proof.
  intros [Lb Hall] Hbi Hch Hy Hx. unfold get4, get3, get2.
  destruct (nth_error feat bi) as [s|] eqn:Es;
    [|apply nth_error_None in Es; lia].
  rewrite Forall_forall in Hall.
  destruct (Hall s (nth_error_In _ _ Es)) as [Lc Hs].
  destruct (nth_error s ch) as [p|] eqn:Ep;
    [|apply nth_error_None in Ep; lia].
  rewrite Forall_forall in Hs.
  destruct (Hs p (nth_error_In _ _ Ep)) as [Lh Hp].
  destruct (nth_error p y) as [r|] eqn:Er;
    [|apply nth_error_None in Er; lia].
  rewrite Forall_forall in Hp. pose proof (Hp r (nth_error_In _ _ Er)) as Lw.
  destruct (nth_error r x) as [v|] eqn:Ev; [eauto|].
  apply nth_error_None in Ev. lia.
Qed.

End GatherFacts.

(** ** Index arithmetic in float32 *)

Section F32Facts.
Local Open Scope Z_scope.

(** The mantissa that [f32_exponent] selects has its leading bit set. *)
Lemma f32_normal (n d : Z) :
  0 < n -> 0 < d ->
  2 ^ 23 * scale_den d (f32_exponent n d) <= scale_num n (f32_exponent n d).
Proof.
  intros Hn Hd. unfold f32_exponent.
  set (lp := Z.log2 n). set (lq := Z.log2 d).
  set (t := lp - lq - 23).
  destruct (Z.ltb_spec (scale_num n t) (2 ^ 23 * scale_den d t)) as [_|H];
    [|exact H].
  pose proof (Z.log2_nonneg n) as Lp. pose proof (Z.log2_nonneg d) as Lq.
  fold lp in Lp. fold lq in Lq.
  destruct (Z.log2_spec n Hn) as [Hn1 _]. fold lp in Hn1.
  destruct (Z.log2_spec d Hd) as [_ Hd2]. fold lq in Hd2.
  rewrite Z.pow_succ_r in Hd2 by exact Lq.
  assert (HQ : 0 < 2 ^ lq) by (apply Z.pow_pos_nonneg; lia).
  unfold scale_num, scale_den.
  destruct (Z_lt_le_dec (t - 1) 0) as [Hneg|Hpos].
  - rewrite (Z.max_r 0 (- (t - 1))) by lia. rewrite (Z.max_l 0 (t - 1)) by lia.
    assert (E : 2 ^ lp * 2 ^ (- (t - 1)) = 2 ^ lq * 2 ^ 24).
    { rewrite <- !Z.pow_add_r by lia. f_equal. unfold t. lia. }
    assert (HS : 0 < 2 ^ (- (t - 1))) by (apply Z.pow_pos_nonneg; lia).
    change (2 ^ 0) with 1. nia.
  - rewrite (Z.max_l 0 (- (t - 1))) by lia. rewrite (Z.max_r 0 (t - 1)) by lia.
    assert (E : 2 ^ lp = 2 ^ (t - 1) * 2 ^ lq * 2 ^ 24).
    { rewrite <- !Z.pow_add_r by lia. f_equal. unfold t. lia. }
    assert (HP : 0 < 2 ^ (t - 1)) by (apply Z.pow_pos_nonneg; lia).
    change (2 ^ 0) with 1. nia.
Qed.

(** ... and no more than 24 bits. *)
Lemma f32_mantissa_bound (n d : Z) :
  0 < n -> 0 < d ->
  scale_num n (f32_exponent n d) < 2 ^ 24 * scale_den d (f32_exponent n d).
Proof.
  intros Hn Hd. unfold f32_exponent.
  set (lp := Z.log2 n). set (lq := Z.log2 d).
  set (t := lp - lq - 23).
  pose proof (Z.log2_nonneg n) as Lp. pose proof (Z.log2_nonneg d) as Lq.
  fold lp in Lp. fold lq in Lq.
  destruct (Z.log2_spec n Hn) as [_ Hn2]. fold lp in Hn2.
  destruct (Z.log2_spec d Hd) as [Hd1 _]. fold lq in Hd1.
  rewrite Z.pow_succ_r in Hn2 by exact Lp.
  assert (HQ : 0 < 2 ^ lq) by (apply Z.pow_pos_nonneg; lia).
  assert (HP : 0 < 2 ^ lp) by (apply Z.pow_pos_nonneg; lia).
  destruct (Z.ltb_spec (scale_num n t) (2 ^ 23 * scale_den d t)) as [H|_].
  - unfold scale_num, scale_den in *.
    destruct (Z_lt_le_dec t 1) as [Hneg|Hpos].
    + rewrite (Z.max_r 0 (- (t - 1))) by lia. rewrite (Z.max_l 0 (t - 1)) by lia.
      rewrite (Z.max_r 0 (- t)) in H by lia. rewrite (Z.max_l 0 t) in H by lia.
      assert (Et : 2 ^ (- (t - 1)) = 2 * 2 ^ (- t))
        by (rewrite <- Z.pow_succ_r by lia; f_equal; lia).
      rewrite Et. change (2 ^ 24) with (2 * 2 ^ 23). change (2 ^ 0) with 1 in *.
      lia.
    + rewrite (Z.max_l 0 (- (t - 1))) by lia. rewrite (Z.max_r 0 (t - 1)) by lia.
      rewrite (Z.max_l 0 (- t)) in H by lia. rewrite (Z.max_r 0 t) in H by lia.
      assert (Et : 2 ^ t = 2 * 2 ^ (t - 1))
        by (rewrite <- Z.pow_succ_r by lia; f_equal; lia).
      rewrite Et in H. change (2 ^ 24) with (2 * 2 ^ 23).
      change (2 ^ 0) with 1 in *. lia.
  - unfold scale_num, scale_den.
    destruct (Z_lt_le_dec t 0) as [Hneg|Hpos].
    + rewrite (Z.max_r 0 (- t)) by lia. rewrite (Z.max_l 0 t) by lia.
      assert (E : 2 ^ lp * 2 ^ (- t) = 2 ^ lq * 2 ^ 23).
      { rewrite <- !Z.pow_add_r by lia. f_equal. unfold t. lia. }
      assert (HS : 0 < 2 ^ (- t)) by (apply Z.pow_pos_nonneg; lia).
      change (2 ^ 0) with 1. change (2 ^ 24) with (2 * 2 ^ 23). nia.
    + rewrite (Z.max_l 0 (- t)) by lia. rewrite (Z.max_r 0 t) by lia.
      assert (E : 2 ^ lp = 2 ^ t * 2 ^ lq * 2 ^ 23).
      { rewrite <- !Z.pow_add_r by lia. f_equal. unfold t. lia. }
      assert (HT : 0 < 2 ^ t) by (apply Z.pow_pos_nonneg; lia).
      change (2 ^ 0) with 1. change (2 ^ 24) with (2 * 2 ^ 23). nia.
Qed.

Lemma rne_div_1 (n : Z) : rne_div n 1 = n.
Proof.
  unfold rne_div. rewrite Z.mod_1_r, Z.div_1_r. reflexivity.
Qed.

(** An integer of at most 24 bits is a float32. *)
Lemma to_f32_exact (a : Z) : 0 <= a <= 2 ^ 24 -> to_f32 a = a.
Proof.
  intros [H0 H1]. unfold to_f32, f32_div.
  destruct (Z.leb_spec a 0) as [Ha|Ha].
  - cbn [orb f32_trunc]. simpl. lia.
  - cbn [orb]. change (1 <=? 0) with false. cbn [f32_trunc].
    pose proof (f32_normal Ha Z.lt_0_1) as N.
    set (e := f32_exponent a 1) in *. unfold scale_num, scale_den in *.
    destruct (Z.ltb_spec e 0) as [He|He].
    + rewrite (Z.max_r 0 (- e)) by lia. rewrite (Z.max_l 0 e) by lia.
      change (1 * 2 ^ 0) with 1. rewrite rne_div_1.
      apply Z.div_mul. apply Z.pow_nonzero; lia.
    + rewrite (Z.max_l 0 (- e)) in * by lia. rewrite (Z.max_r 0 e) in * by lia.
      change (2 ^ 0) with 1 in *. rewrite Z.mul_1_r in *. rewrite Z.mul_1_l in *.
      assert (He1 : e <= 1).
      { destruct (Z_le_gt_dec e 1) as [L|G]; [exact L|].
        assert (2 ^ 2 <= 2 ^ e) by (apply Z.pow_le_mono_r; lia).
        change (2 ^ 2) with 4 in *. change (2 ^ 24) with (2 * 2 ^ 23) in H1. nia. }
      assert (Ee : e = 0 \/ e = 1) by lia. destruct Ee as [-> | ->].
      * change (2 ^ 0) with 1. rewrite rne_div_1. lia.
      * change (2 ^ 1) with 2 in *.
        assert (a = 2 ^ 24) by (change (2 ^ 24) with (2 * 2 ^ 23) in *; lia).
        subst a. reflexivity.
Qed.

(** Below 2^24 the float32 quotient truncates to the integer quotient. *)
Lemma div_trunc_exact (a b : Z) :
  0 <= a < 2 ^ 24 -> 0 < b <= 2 ^ 24 -> div_trunc a b = a / b.
Proof.
  intros [Ha0 Ha1] [Hb0 Hb1]. unfold div_trunc.
  rewrite !to_f32_exact by lia. unfold f32_div.
  destruct (Z.leb_spec a 0) as [Ha|Ha].
  - cbn [orb f32_trunc]. assert (a = 0) by lia. subst a. reflexivity.
  - destruct (Z.leb_spec b 0) as [Hb|_]; [lia|]. cbn [orb f32_trunc].
    pose proof (f32_normal Ha Hb0) as N.
    set (e := f32_exponent a b) in *. unfold scale_num, scale_den in *.
    destruct (Z.ltb_spec e 0) as [He|He].
    + rewrite (Z.max_r 0 (- e)) in * by lia. rewrite (Z.max_l 0 e) in * by lia.
      change (2 ^ 0) with 1 in *. rewrite Z.mul_1_r in *.
      set (S := 2 ^ (- e)) in *.
      assert (HS : 0 < S) by (apply Z.pow_pos_nonneg; lia).
      assert (HbS : b < 2 * S) by (change (2 ^ 24) with (2 * 2 ^ 23) in Ha1; nia).
      pose proof (Z.div_mod a b ltac:(lia)) as Ea.
      pose proof (Z.mod_pos_bound a b Hb0) as Ra.
      pose proof (Z.div_mod (a * S) b ltac:(lia)) as Eq.
      pose proof (Z.mod_pos_bound (a * S) b Hb0) as Rq.
      set (k := a / b) in *. set (r := a mod b) in *.
      set (q := a * S / b) in *. set (r' := (a * S) mod b) in *.
      assert (Hq1 : k * S <= q) by nia.
      assert (Hq2 : q < k * S + S) by nia.
      assert (Hup : b <= 2 * r' -> q + 1 < k * S + S).
      { intros Hr. destruct (Z_lt_le_dec (q + 1) (k * S + S)) as [L|G]; [exact L|].
        assert (Eq' : q = k * S + S - 1) by lia.
        assert (E2 : (b - r) * S = b - r') by nia.
        nia. }
      symmetry. apply (Z.div_unique _ _ _ (rne_div (a * S) b - k * S)).
      * left. unfold rne_div. fold q r'.
        destruct (Z.ltb_spec (2 * r') b); [lia|].
        destruct (Z.ltb_spec b (2 * r')); [specialize (Hup ltac:(lia)); lia|].
        destruct (Z.even q); [lia | specialize (Hup ltac:(lia)); lia].
      * lia.
    + rewrite (Z.max_l 0 (- e)) in * by lia. rewrite (Z.max_r 0 e) in * by lia.
      change (2 ^ 0) with 1 in *. rewrite Z.mul_1_r in *.
      pose proof (Z.pow_pos_nonneg 2 e ltac:(lia) He) as HP.
      assert (b * 2 ^ e < 2) by (change (2 ^ 24) with (2 * 2 ^ 23) in Ha1; nia).
      assert (Eb : b = 1) by nia. subst b.
      assert (Ep : 2 ^ e = 1) by lia. rewrite Ep.
      change (1 * 1) with 1. rewrite rne_div_1, Z.div_1_r. lia.
Qed.

End F32Facts.

Lemma float_of_int_exact (n : nat) :
  (Z.of_nat n <= 2 ^ 24)%Z -> float_of_int n = n.
Proof.
  intros H. unfold float_of_int. rewrite to_f32_exact by lia. apply Nat2Z.id.
Qed.

Lemma true_div_int_exact (a b : nat) :
  (Z.of_nat a < 2 ^ 24)%Z -> (0 < b)%nat -> (Z.of_nat b <= 2 ^ 24)%Z ->
  true_div_int a b = (a / b)%nat.
Proof.
  intros Ha Hb Hb'. unfold true_div_int. rewrite div_trunc_exact by lia.
  rewrite <- Nat2Z.inj_div. apply Nat2Z.id.
Qed.

(** Indices below [n], with [n] of at most 24 bits: the row [i / w] and the
    column [i mod w] are computed exactly. *)
Lemma f32_index_exact (n i w : nat) :
  i < n -> 0 < w -> w <= n -> (Z.of_nat n <= 2 ^ 24)%Z ->
  true_div_int i w = i / w /\
  float_of_int (i / w) = i / w /\
  float_of_int (i mod w) = i mod w.
Proof.
  intros Hi Hw Hwn Hn.
  assert (Hd : i / w <= i) by (apply Nat.Div0.div_le_upper_bound; nia).
  assert (Hm : i mod w < w) by (apply Nat.mod_upper_bound; lia).
  split; [apply true_div_int_exact; lia|].
  split; apply float_of_int_exact; lia.
Qed.

(** Beyond 24 bits the float32 quotient departs from the integer quotient:
    index 33558527 at width 8193 is in row 4095 and is given row 4096, and
    rank 33554431 at K = 16777216 is of class 1 and is given class 2. *)
Lemma div_trunc_beyond_24_bits :
  div_trunc 33558527 8193 = 4096%Z /\ (33558527 / 8193 = 4095)%Z /\
  div_trunc 33554431 16777216 = 2%Z /\ (33554431 / 16777216 = 1)%Z.
Proof. repeat split; reflexivity. Qed.

(** A heatmap of at most 2^24 cells per batch item: every plane and every
    list of [classes * K] candidates is that small. *)
Lemma cells_bound (c h w K : nat) :
  0 < c -> K <= h * w -> (Z.of_nat (c * h * w) <= 2 ^ 24)%Z ->
  (Z.of_nat (h * w) <= 2 ^ 24)%Z /\ (Z.of_nat (c * K) <= 2 ^ 24)%Z.
Proof.
  intros Hc HK Hn.
  assert (h * w <= c * h * w) by nia.
  assert (c * K <= c * h * w) by nia.
  lia.
Qed.

(** ** Top-k selection *)

Section TopKFacts.
Context {A : Type} {S : Scalar A} {L : ScalarLaws A}.

Lemma in_insert_front (e x : A * nat) (l : list (A * nat)) :
  In x (insert_front e l) <-> x = e \/ In x l.
Proof.
  induction l as [|e' t IH]; simpl.
  - intuition congruence.
  - destruct (sleb (fst e') (fst e)); simpl; [intuition congruence|].
    rewrite IH. intuition congruence.
Qed.

Lemma length_insert_front (e : A * nat) (l : list (A * nat)) :
  length (insert_front e l) = Datatypes.S (length l).
Proof.
  induction l as [|e' t IH]; simpl; [reflexivity|].
  destruct (sleb (fst e') (fst e)); simpl; [reflexivity | now rewrite IH].
Qed.

Lemma insert_front_sorted (e : A * nat) (l : list (A * nat)) :
  StronglySorted by_score_desc l ->
  StronglySorted by_score_desc (insert_front e l).
Proof.
  induction 1 as [|e' t Ht IH Hall]; simpl.
  - repeat constructor.
  - destruct (sleb (fst e') (fst e)) eqn:E.
    + constructor; [now constructor|]. constructor; [exact E|].
      eapply Forall_impl; [|exact Hall]. unfold by_score_desc. intros x Hx.
      eapply sleb_trans; eauto.
    + constructor; [exact IH|]. apply Forall_forall. intros x Hx.
      apply in_insert_front in Hx as [->|Hx].
      * unfold by_score_desc. now apply sleb_false_flip.
      * rewrite Forall_forall in Hall. auto.
Qed.

Lemma sort_desc_sorted (l : list (A * nat)) :
  StronglySorted by_score_desc (sort_desc l).
Proof.
  induction l; simpl; [constructor | now apply insert_front_sorted].
Qed.

Lemma in_sort_desc (x : A * nat) (l : list (A * nat)) :
  In x (sort_desc l) <-> In x l.
Proof.
  induction l as [|e t IH]; simpl; [tauto|].
  rewrite in_insert_front, IH. intuition congruence.
Qed.

Lemma length_sort_desc (l : list (A * nat)) :
  length (sort_desc l) = length l.
Proof.
  induction l; simpl; [reflexivity|]. now rewrite length_insert_front, IHl.
Qed.

Lemma in_enumerate_from (l : list A) (n : nat) (v : A) (i : nat) :
  In (v, i) (combine l (seq n (length l))) ->
  n <= i /\ nth_error l (i - n) = Some v.
Proof.
  revert n. induction l as [|a t IH]; simpl; intros n Hin; [tauto|].
  destruct Hin as [E|Hin].
  - inversion E; subst. rewrite Nat.sub_diag. auto.
  - apply IH in Hin as [Hle Hn]. split; [lia|].
    replace (i - n) with (Datatypes.S (i - Datatypes.S n)) by lia. exact Hn.
Qed.

Lemma firstn_In {X : Type} (n : nat) (l : list X) (x : X) :
  In x (firstn n l) -> In x l.
Proof.
  revert l. induction n as [|n IH]; intros [|a t]; simpl; try tauto.
  intros [E|Hin]; [now left | right; now apply IH].
Qed.

Lemma StronglySorted_firstn {X : Type} (R : X -> X -> Prop) (n : nat) (l : list X) :
  StronglySorted R l -> StronglySorted R (firstn n l).
Proof.
  intros Hs. revert n. induction Hs as [|a t Ht IH Hall]; intros n.
  - destruct n; constructor.
  - destruct n; simpl; constructor; [apply IH|].
    apply Forall_forall. intros x Hx. apply firstn_In in Hx.
    rewrite Forall_forall in Hall. auto.
Qed.

Lemma StronglySorted_nth {X : Type} (R : X -> X -> Prop) (l : list X) :
  StronglySorted R l ->
  forall i j a b, i < j -> nth_error l i = Some a -> nth_error l j = Some b ->
                  R a b.
Proof.
  induction 1 as [|x t Ht IH Hall]; intros i j a b Hij Ha Hb.
  - destruct i; discriminate.
  - destruct j as [|j]; [lia|]. simpl in Hb. destruct i as [|i]; simpl in Ha.
    + inversion Ha; subst. rewrite Forall_forall in Hall.
      apply Hall. eapply nth_error_In; eauto.
    + apply (IH i j); auto. lia.
Qed.

(** The top-k primitive: [K] values in descending order, each read from the
    row at the position returned with it. *)
Lemma topk_sel_spec (row : list A) (K : nat) :
  K <= length row ->
  length (fst (topk_sel row K)) = K /\ length (snd (topk_sel row K)) = K /\
  desc_sorted (fst (topk_sel row K)) /\
  forall k v i, nth_error (fst (topk_sel row K)) k = Some v ->
                nth_error (snd (topk_sel row K)) k = Some i ->
                nth_error row i = Some v.
Proof.
  intros HK. unfold topk_sel.
  remember (firstn K (sort_desc (enumerate row))) as s eqn:Es.
  assert (Ls : length s = K).
  { rewrite Es, length_firstn, length_sort_desc.
    unfold enumerate. rewrite length_combine, length_seq. lia. }
  assert (Ss : StronglySorted by_score_desc s)
    by (rewrite Es; apply StronglySorted_firstn, sort_desc_sorted).
  assert (Hin : forall v i, In (v, i) s -> nth_error row i = Some v).
  { intros v i Hin. rewrite Es in Hin. apply firstn_In in Hin.
    apply (proj1 (in_sort_desc _ _)) in Hin. unfold enumerate in Hin.
    apply in_enumerate_from in Hin as [_ Hn]. now rewrite Nat.sub_0_r in Hn. }
  clear Es. simpl.
  split; [now rewrite length_map|]. split; [now rewrite length_map|]. split.
  - intros i j x y Hij Hx Hy. rewrite nth_error_map in Hx, Hy.
    destruct (nth_error s i) as [a|] eqn:Ea; [|discriminate].
    destruct (nth_error s j) as [b|] eqn:Eb; [|discriminate].
    inversion Hx; inversion Hy; subst.
    change (by_score_desc a b). eapply StronglySorted_nth; eauto.
  - intros k v i Hv Hi. rewrite nth_error_map in Hv, Hi.
    destruct (nth_error s k) as [[v' i']|] eqn:Ek; [|discriminate].
    simpl in Hv, Hi. inversion Hv; inversion Hi; subst.
    apply Hin. eapply nth_error_In; eauto.
Qed.

Lemma topk_ok (row : list A) (K : nat) :
  K <= length row -> topk row K = Ok (topk_sel row K).
Proof.
  intros HK. unfold topk. destruct (Nat.leb_spec K (length row)); [|lia].
  reflexivity.
Qed.

Lemma topk_raises (row : list A) (K : nat) :
  length row < K -> topk row K = Raise RuntimeError.
Proof.
  intros HK. unfold topk. destruct (Nat.leb_spec K (length row)); [lia|].
  reflexivity.
Qed.

End TopKFacts.

(** Gathering one per-class result tensor ([batch x classes x K]) at the
    flat ranks chosen by the second top-k stage. *)
Lemma gather_column {Y : Type} (t : list (list (list Y)))
      (topk_ind : list (list nat)) (b c K : nat) :
  shape3 b c K t -> shape2 b K topk_ind ->
  (forall bi k i, get2 topk_ind bi k = Some i -> i < c * K) ->
  exists out,
    _gather_feat (view_b_n_1 t) topk_ind = Ok out /\
    shape2 b K (view_b_K out) /\
    forall bi k i, get2 topk_ind bi k = Some i ->
                   get2 (view_b_K out) bi k = get3 t bi (i / K) (i mod K).
Proof.
  intros [Lt Ht] [Li Hi] Hrange. rewrite Forall_forall in Ht, Hi.
  assert (Hview : forall bi fb, nth_error (view_b_n_1 t) bi = Some fb ->
            exists rows, nth_error t bi = Some rows /\ shape2 c K rows /\
                         fb = map (fun x => [x]) (concat rows)).
  { intros bi fb E. unfold view_b_n_1 in E. rewrite nth_error_map in E.
    destruct (nth_error t bi) as [rows|] eqn:Er; [|discriminate].
    inversion E; subst. exists rows. repeat split; auto;
      destruct (Ht rows (nth_error_In _ _ Er)); assumption. }
  destruct (gather_feat_spec (view_b_n_1 t) topk_ind)
    as (out & Eout & Lout & Hrows & Hget).
  { unfold view_b_n_1. rewrite length_map. lia. }
  { intros bi k i fb G E. destruct (Hview bi fb E) as (rows & _ & [Lr Hr] & ->).
    rewrite length_map, (length_concat_uniform Hr), Lr. eauto. }
  assert (Hcell : forall bi k i, get2 topk_ind bi k = Some i ->
            exists x, get2 out bi k = Some [x] /\
                      get3 t bi (i / K) (i mod K) = Some x).
  { intros bi k i G. pose proof (Hrange bi k i G) as Hlt.
    rewrite (Hget bi k i G). unfold get2 at 1.
    destruct (nth_error (view_b_n_1 t) bi) as [fb|] eqn:Efb.
    - destruct (Hview bi fb Efb) as (rows & Er & [Lr Hr] & ->).
      rewrite nth_error_map, (nth_error_concat i Hr).
      unfold get3. rewrite Er.
      destruct (get2 rows (i / K) (i mod K)) as [x|] eqn:Ex; [simpl; eauto|].
      exfalso. pose proof (nth_error_concat i Hr) as Hc. rewrite Ex in Hc.
      apply nth_error_None in Hc. rewrite (length_concat_uniform Hr), Lr in Hc. lia.
    - exfalso. apply nth_error_None in Efb. unfold view_b_n_1 in Efb.
      rewrite length_map in Efb. unfold get2 in G.
      destruct (nth_error topk_ind bi) eqn:E; [|discriminate].
      assert (bi < length topk_ind) by (apply nth_error_Some; congruence). lia. }
  assert (Hsingle : forall bi orows, nth_error out bi = Some orows ->
            length orows = K /\ Forall (fun r => length r = 1) orows).
  { intros bi orows Eo.
    assert (Hbi : bi < length topk_ind)
      by (rewrite <- Lout; apply nth_error_Some; congruence).
    destruct (nth_error topk_ind bi) as [row|] eqn:Erow;
      [|apply nth_error_None in Erow; lia].
    pose proof (Hi row (nth_error_In _ _ Erow)) as Lrow.
    pose proof (Hrows bi row orows Erow Eo) as Lo. split; [lia|].
    apply Forall_forall. intros r Hr. apply In_nth_error in Hr as [k Ek].
    assert (Hk : k < length row) by (rewrite <- Lo; apply nth_error_Some; congruence).
    destruct (nth_error row k) as [i|] eqn:Ei; [|apply nth_error_None in Ei; lia].
    destruct (Hcell bi k i) as (x & Gx & _); [unfold get2; now rewrite Erow|].
    unfold get2 in Gx. rewrite Eo, Ek in Gx. now inversion Gx. }
  exists out. split; [exact Eout|]. split.
  - split; [unfold view_b_K; rewrite length_map; lia|].
    apply Forall_forall. intros r Hr. unfold view_b_K in Hr.
    apply in_map_iff in Hr as (orows & <- & Hin).
    apply In_nth_error in Hin as [bi Eo].
    destruct (Hsingle bi orows Eo) as [Lo Hs].
    rewrite (length_concat_uniform Hs). lia.
  - intros bi k i G. destruct (Hcell bi k i G) as (x & Gx & ->).
    unfold view_b_K, get2. rewrite nth_error_map.
    unfold get2 in Gx.
    destruct (nth_error out bi) as [orows|] eqn:Eo; [|discriminate]. simpl.
    destruct (Hsingle bi orows Eo) as [_ Hs].
    rewrite (nth_error_concat k Hs), Nat.div_1_r, Nat.mod_1_r.
    unfold get2. destruct (nth_error orows k); [|discriminate].
    now inversion Gx.
Qed.

(** ** Maps over nested lists *)

Lemma get3_map3 {X Y : Type} (f : X -> Y) (t : list (list (list X))) a i j :
  get3 (map (map (map f)) t) a i j = option_map f (get3 t a i j).
Proof.
  unfold get3. rewrite nth_error_map. destruct (nth_error t a); simpl;
    [apply get2_map_map | reflexivity].
Qed.

Lemma shape3_map3 {X Y : Type} (f : X -> Y) (t : list (list (list X))) b c K :
  shape3 b c K t -> shape3 b c K (map (map (map f)) t).
Proof.
  intros [Lb Hall]. split; [now rewrite length_map|].
  apply Forall_map. eapply Forall_impl; [|exact Hall].
  intros s [Lc Hr]. split; [now rewrite length_map|].
  apply Forall_map. eapply Forall_impl; [|exact Hr].
  intros r Lr. now rewrite length_map.
Qed.

Lemma get3_of_rows {P Y : Type} (f : P -> list Y) (t : list (list P)) a i j :
  get3 (map (map f) t) a i j
  = match get2 t a i with Some p => nth_error (f p) j | None => None end.
Proof.
  rewrite get3_rows, get2_map_map. destruct (get2 t a i); reflexivity.
Qed.

Lemma shape2_map2 {X Y : Type} (f : X -> Y) (t : list (list X)) b K :
  shape2 b K t -> shape2 b K (map (map f) t).
Proof.
  intros [Lb Hall]. split; [now rewrite length_map|].
  apply Forall_map. eapply Forall_impl; [|exact Hall].
  intros r Lr. now rewrite length_map.
Qed.

(** ** Zipping, broadcasting and singletons *)

Section ZipFacts.
Context {X Y Z : Type}.

Lemma zipM_pure (F : X -> Y -> result Z) (G : X -> Y -> Z) l1 l2 :
  length l1 = length l2 ->
  (forall i x y, nth_error l1 i = Some x -> nth_error l2 i = Some y ->
                 F x y = Ok (G x y)) ->
  zipM F l1 l2 = Ok (zipWith G l1 l2).
Proof.
  revert l2. induction l1 as [|x t IH]; intros [|y u] Hl HF; simpl in *;
    try discriminate; [reflexivity|].
  rewrite (HF 0 x y eq_refl eq_refl). simpl.
  rewrite IH; [reflexivity | lia |].
  intros i a b Ha Hb. apply (HF (Datatypes.S i)); assumption.
Qed.

Lemma zipM_nth_inv (F : X -> Y -> result Z) l1 l2 r :
  zipM F l1 l2 = Ok r ->
  forall i z, nth_error r i = Some z ->
    exists x y, nth_error l1 i = Some x /\ nth_error l2 i = Some y /\
                F x y = Ok z.
Proof.
  revert l2 r. induction l1 as [|x t IH]; intros [|y u] r E i z Hz; simpl in E;
    try discriminate.
  - inversion E; subst. destruct i; discriminate.
  - apply bind_ok in E as (z0 & Ez0 & E). apply bind_ok in E as (zs & Ezs & E).
    inversion E; subst. destruct i as [|i]; simpl in *.
    + inversion Hz; subst. eauto.
    + eapply IH; eauto.
Qed.

Lemma get2_zipWith2 (g : X -> Y -> Z) a c i j :
  get2 (zipWith (zipWith g) a c) i j
  = match get2 a i j, get2 c i j with
    | Some x, Some y => Some (g x y)
    | _, _ => None
    end.
Proof.
  unfold get2. rewrite nth_error_zipWith.
  destruct (nth_error a i) as [r1|], (nth_error c i) as [r2|]; try reflexivity.
  - apply nth_error_zipWith.
  - destruct (nth_error r1 j); reflexivity.
Qed.

End ZipFacts.

Lemma mapM_nth_inv {X Y : Type} (f : X -> result Y) l r :
  mapM f l = Ok r ->
  forall i y, nth_error r i = Some y ->
    exists x, nth_error l i = Some x /\ f x = Ok y.
Proof.
  revert r. induction l as [|a t IH]; simpl; intros r E i y Hy.
  - inversion E; subst. destruct i; discriminate.
  - apply bind_ok in E as (y0 & Ey0 & E). apply bind_ok in E as (ys & Eys & E).
    inversion E; subst. destruct i as [|i]; simpl in *.
    + inversion Hy; subst. eauto.
    + eapply IH; eauto.
Qed.

Lemma get3_zipWith3 {X Y Z : Type} (g : X -> Y -> Z) a c i j k :
  get3 (zipWith (zipWith (zipWith g)) a c) i j k
  = match get3 a i j k, get3 c i j k with
    | Some x, Some y => Some (g x y)
    | _, _ => None
    end.
Proof.
  unfold get3. rewrite nth_error_zipWith.
  destruct (nth_error a i) as [r1|], (nth_error c i) as [r2|]; try reflexivity.
  - apply get2_zipWith2.
  - destruct (get2 r1 j k); reflexivity.
Qed.

Lemma shape3_zipWith3 {X Y Z : Type} (g : X -> Y -> Z) a c b J K :
  shape3 b J K a -> shape3 b J K c ->
  shape3 b J K (zipWith (zipWith (zipWith g)) a c).
Proof.
  intros [La Ha] [Lc Hc]. split; [rewrite zipWith_length; lia|].
  apply Forall_forall. intros s Hs. apply In_nth_error in Hs as [i Ei].
  rewrite nth_error_zipWith in Ei.
  destruct (nth_error a i) as [sa|] eqn:Ea; [|discriminate].
  destruct (nth_error c i) as [sc|] eqn:Ec; [|discriminate].
  inversion Ei; subst s. rewrite Forall_forall in Ha, Hc.
  destruct (Ha sa (nth_error_In _ _ Ea)) as [Lsa Hsa].
  destruct (Hc sc (nth_error_In _ _ Ec)) as [Lsc Hsc].
  split; [rewrite zipWith_length; lia|].
  apply Forall_forall. intros r Hr. apply In_nth_error in Hr as [j Ej].
  rewrite nth_error_zipWith in Ej.
  destruct (nth_error sa j) as [ra|] eqn:Era; [|discriminate].
  destruct (nth_error sc j) as [rc|] eqn:Erc; [|discriminate].
  inversion Ej; subst r. rewrite Forall_forall in Hsa, Hsc.
  rewrite zipWith_length, (Hsa ra (nth_error_In _ _ Era)),
    (Hsc rc (nth_error_In _ _ Erc)). apply Nat.min_id.
Qed.

Lemma zipM3_pure {X Y Z : Type} (g : X -> Y -> Z) a c b J K :
  shape3 b J K a -> shape3 b J K c ->
  zipM (zipM (zipM (fun x y => Ok (g x y)))) a c
  = Ok (zipWith (zipWith (zipWith g)) a c).
Proof.
  intros [La Ha] [Lc Hc]. rewrite Forall_forall in Ha, Hc.
  apply zipM_pure; [lia|]. intros i sa sc Ea Ec.
  destruct (Ha sa (nth_error_In _ _ Ea)) as [Lsa Hsa].
  destruct (Hc sc (nth_error_In _ _ Ec)) as [Lsc Hsc].
  rewrite Forall_forall in Hsa, Hsc.
  apply zipM_pure; [lia|]. intros j ra rc Era Erc.
  apply zipM_pure; [|reflexivity].
  rewrite (Hsa ra (nth_error_In _ _ Era)), (Hsc rc (nth_error_In _ _ Erc)).
  reflexivity.
Qed.

Lemma ew3_pure {X Y Z : Type} (g : X -> Y -> Z) a c b J K :
  shape3 b J K a -> shape3 b J K c ->
  ew3 g a c = Ok (zipWith (zipWith (zipWith g)) a c).
Proof.
  intros Sa Sc. rewrite <- (@zipM3_pure _ _ _ g a c b J K Sa Sc).
  destruct Sa as [La Ha], Sc as [Lc Hc]. rewrite Forall_forall in Ha, Hc.
  unfold ew3. rewrite bzip_same_length by lia.
  assert (Hext : forall (F G : list (list X) -> list (list Y) -> result (list (list Z))) l1 l2,
             (forall x y, In x l1 -> In y l2 -> F x y = G x y) ->
             zipM F l1 l2 = zipM G l1 l2).
  { intros F G l1. induction l1 as [|x t IH]; intros [|y u] HFG; simpl; auto.
    rewrite (HFG x y) by (now left). 
    rewrite (IH u) by (intros; apply HFG; now right). reflexivity. }
  apply Hext. intros sa sc Hsa Hsc.
  destruct (Ha sa Hsa) as [Lsa Hra]. destruct (Hc sc Hsc) as [Lsc Hrc].
  rewrite Forall_forall in Hra, Hrc.
  unfold ew2. rewrite bzip_same_length by lia.
  assert (Hext1 : forall (F G : list X -> list Y -> result (list Z)) l1 l2,
             (forall x y, In x l1 -> In y l2 -> F x y = G x y) ->
             zipM F l1 l2 = zipM G l1 l2).
  { intros F G l1. induction l1 as [|x t IH]; intros [|y u] HFG; simpl; auto.
    rewrite (HFG x y) by (now left).
    rewrite (IH u) by (intros; apply HFG; now right). reflexivity. }
  apply Hext1. intros ra rc Hra' Hrc'.
  unfold ew1. rewrite bzip_same_length; [reflexivity|].
  rewrite (Hra ra Hra'), (Hrc rc Hrc'). reflexivity.
Qed.

Lemma expand0_same {X : Type} (n : nat) (l : list X) :
  length l = n -> expand0 n l = Ok l.
Proof.
  intros E. unfold expand0. destruct l as [|x [|y t]]; simpl in *.
  - subst. reflexivity.
  - subst. reflexivity.
  - destruct n as [|[|n]]; try discriminate.
    inversion E as [E']. rewrite E'. now rewrite Nat.eqb_refl.
Qed.

Lemma bzip_singleton {X Y Z : Type} (f : X -> Y -> result Z) l1 l2 z :
  bzip f l1 l2 = Ok [z] ->
  exists x y, l1 = [x] /\ l2 = [y] /\ f x y = Ok z.
Proof.
  unfold bzip. intros E.
  destruct l1 as [|x [|x' t1]].
  - destruct l2 as [|y [|y' t2]]; simpl in E; try discriminate.
  - destruct l2 as [|y [|y' t2]]; simpl in E; try discriminate.
    + destruct (f x y) eqn:F; simpl in E; [|discriminate]. inversion E; subst. eauto.
    + destruct (f x y); simpl in E; [|discriminate].
      destruct (f x y'); simpl in E; [|discriminate].
      destruct (mapM (fun y0 => f x y0) t2); simpl in E; discriminate.
  - destruct l2 as [|y [|y' t2]]; simpl in E; try discriminate.
    + destruct (f x y); simpl in E; [|discriminate].
      destruct (f x' y); simpl in E; [|discriminate].
      destruct (mapM (fun x0 => f x0 y) t1); simpl in E; discriminate.
    + destruct (f x y); simpl in E; [|discriminate].
      destruct (f x' y'); simpl in E; [|discriminate].
      destruct (zipM f t1 t2); simpl in E; discriminate.
Qed.

Lemma mapM_singleton {X Y : Type} (f : X -> result Y) l z :
  mapM f l = Ok [z] -> exists x, l = [x] /\ f x = Ok z.
Proof.
  intros E. destruct l as [|x [|x' t]]; simpl in E; try discriminate.
  - destruct (f x) eqn:F; simpl in E; [|discriminate]. inversion E; subst. eauto.
  - destruct (f x); simpl in E; [|discriminate].
    destruct (f x'); simpl in E; [|discriminate].
    destruct (mapM f t); simpl in E; discriminate.
Qed.

Lemma zipM_singleton {X Y Z : Type} (f : X -> Y -> result Z) l1 l2 z :
  zipM f l1 l2 = Ok [z] ->
  exists x y, l1 = [x] /\ l2 = [y] /\ f x y = Ok z.
Proof.
  intros E. destruct l1 as [|x [|x' t1]], l2 as [|y [|y' t2]];
    simpl in E; try discriminate.
  - destruct (f x y) eqn:F; simpl in E; [|discriminate]. inversion E; subst. eauto.
  - destruct (f x y); simpl in E; discriminate.
  - destruct (f x y); simpl in E; discriminate.
  - destruct (f x y); simpl in E; [|discriminate].
    destruct (f x' y'); simpl in E; [|discriminate].
    destruct (zipM f t1 t2); simpl in E; discriminate.
Qed.

Lemma map_singleton {X Y : Type} (f : X -> Y) l z :
  map f l = [z] -> exists x, l = [x] /\ f x = z.
Proof.
  destruct l as [|x [|x' t]]; simpl; intros E; try discriminate.
  inversion E. eauto.
Qed.

Lemma item_inv (t : T3) (x : R) : item t = Ok x -> t = [[[x]]].
Proof.
  unfold item. intros E.
  destruct t as [|[|[|a [|]] [|]] [|]]; try discriminate. now inversion E.
Qed.

Lemma lift5_singleton g l w h c s x :
  lift5 g l w h c s = Ok [[[x]]] -> exists c0, c = [[[c0]]].
Proof.
  unfold lift5. intros E.
  apply bind_ok in E as (lw & _ & E). apply bind_ok in E as (lwh & _ & E).
  apply bind_ok in E as (cs & Ecs & E).
  unfold ew3, ew2, ew1 in E.
  apply bzip_singleton in E as (a1 & b1 & _ & -> & E).
  apply bzip_singleton in E as (a2 & b2 & _ & -> & E).
  apply bzip_singleton in E as (a3 & b3 & _ & -> & E).
  unfold ew3, ew2, ew1 in Ecs.
  apply bzip_singleton in Ecs as (c1 & s1 & -> & _ & Ecs).
  apply bzip_singleton in Ecs as (c2 & s2 & -> & _ & Ecs).
  apply bzip_singleton in Ecs as (c3 & s3 & -> & _ & Ecs).
  eauto.
Qed.

(** ** Yaw *)

Section YawFacts.
Local Open Scope R_scope.

Lemma atan2_bound (y x : R) : - PI < atan2 y x <= PI.
Proof.
  unfold atan2. pose proof PI_RGT_0 as HPI.
  pose proof (atan_bound (y / x)) as [Hl Hu].
  destruct (Rlt_dec 0 x) as [Hx|Hx]; [lra|].
  destruct (Rlt_dec x 0) as [Hx'|Hx'].
  - assert (Hinv : / x < 0) by (apply Rinv_lt_0_compat; exact Hx').
    destruct (Rle_dec 0 y) as [Hy|Hy].
    + assert (y / x <= 0) by (unfold Rdiv; nra).
      assert (atan (y / x) <= 0).
      { rewrite <- atan_0. destruct H as [H|H]; [left; now apply atan_increasing | rewrite H; lra]. }
      lra.
    + assert (0 < y / x) by (unfold Rdiv; nra).
      assert (0 < atan (y / x)) by (rewrite <- atan_0; now apply atan_increasing).
      lra.
  - destruct (Rlt_dec 0 y); [lra|]. destruct (Rlt_dec y 0); lra.
Qed.

Lemma alpna_pre_cases (r1 r2 r3 r5 r6 r7 : R) :
  alpna_pre_of r1 r2 r3 r5 r6 r7
  = if Rlt_dec r5 r1 then atan (r2 / r3) - PI / 2 else atan (r6 / r7) + PI / 2.
Proof.
  unfold alpna_pre_of. destruct (Rlt_dec r5 r1); lra.
Qed.

Lemma alpna_pre_bound (r1 r2 r3 r5 r6 r7 : R) :
  - PI < alpna_pre_of r1 r2 r3 r5 r6 r7 < PI.
Proof.
  rewrite alpna_pre_cases. pose proof PI_RGT_0.
  pose proof (atan_bound (r2 / r3)). pose proof (atan_bound (r6 / r7)).
  destruct (Rlt_dec r5 r1); lra.
Qed.

Lemma wrap_once (raw : R) :
  wrap_neg (wrap_pos raw)
  = if Rlt_dec PI raw then raw - 2 * PI
    else if Rlt_dec raw (- PI) then raw + 2 * PI else raw.
Proof.
  unfold wrap_neg, wrap_pos. pose proof PI_RGT_0.
  destruct (Rlt_dec PI raw); [|reflexivity].
  destruct (Rlt_dec (raw - 2 * PI) (- PI)); [lra | reflexivity].
Qed.

Lemma wrap_once_bound (raw : R) :
  - 2 * PI < raw < 2 * PI -> - PI <= wrap_neg (wrap_pos raw) <= PI.
Proof.
  intros Hr. rewrite wrap_once. pose proof PI_RGT_0.
  destruct (Rlt_dec PI raw); [lra|]. destruct (Rlt_dec raw (- PI)); lra.
Qed.

End YawFacts.

(** ** Back-projection *)

(** What a returning call of the back-projection would need: the sixteen
    entries handed to [torch.FloatTensor] allow one object only, whose
    image keypoints the view of line 172 has produced and whose yaw reads
    entry 16 of them. *)
Lemma transform_img2cam_ok_inv kps dim rot meta const r :
  transform_img2cam kps dim rot meta const = Ok r ->
  exists (M : T2) (k k' : T1) (cal : T2) (rr : T1) (y : R),
    kps = [[k]] /\ img_kps M k = Ok k' /\ rot_y_obj (cal, k') rr = Ok [y].
Proof.
  unfold transform_img2cam. intros E.
  apply bind_ok in E as (m & _ & E).
  apply bind_ok in E as (out_inv & _ & E).
  apply bind_ok in E as (kps' & Ekps & E).
  apply bind_ok in E as (cal & _ & E).
  apply bind_ok in E as (ck & Eck & E).
  apply bind_ok in E as (rot_y & Erot & E).
  apply bind_ok in E as (kp_norm & _ & E).
  apply bind_ok in E as (c1 & _ & E).
  apply bind_ok in E as (c2 & _ & E).
  apply bind_ok in E as (ml & _ & E).
  apply bind_ok in E as (exprs_B & EB & E).
  apply bind_ok in E as (data_B & EdB & _).
  unfold tensor_exprs in EB. simpl seq in EB.
  cbn [mapM] in EB. apply bind_ok in EB as (t0 & Et0 & EB).
  apply bind_ok in EB as (ts & _ & EB). inversion EB; subst exprs_B.
  unfold FloatTensor in EdB. cbn [mapM] in EdB.
  apply bind_ok in EdB as (x0 & Ex0 & _). apply item_inv in Ex0. subst t0.
  apply lift5_singleton in Et0 as [c0 Ec0].
  apply map_singleton in Ec0 as (r1 & -> & Ec0).
  apply map_singleton in Ec0 as (r2 & -> & Ec0).
  apply map_singleton in Ec0 as (y & -> & _).
  apply bzip_singleton in Erot as (ckr & rr & -> & _ & Erot).
  apply bzip_singleton in Erot as (ck1 & rr1 & -> & _ & Ey).
  apply zipM_singleton in Eck as (cal1 & kb & _ & -> & Eck).
  inversion Eck as [Emap]. apply map_singleton in Emap as (k1 & -> & Eck1).
  apply zipM_singleton in Ekps as (m1 & kb0 & _ & -> & Ekps).
  apply mapM_singleton in Ekps as (k0 & -> & Ek0).
  subst ck1. exists m1, k0, k1, cal1, rr1, y. auto.
Qed.

Section OneObject.
Local Open Scope R_scope.

Lemma shape2_cons_inv {X : Type} (n m : nat) (r : list X) (t : list (list X)) :
  shape2 (S n) m (r :: t) -> length r = m /\ shape2 n m t.
Proof.
  intros [L H]. inversion H; subst. simpl in L. repeat split; auto.
Qed.

Lemma transpose3_cols (A : T2) (n : nat) :
  shape2 n 3 A -> transpose 3 A = [col 0 A; col 1 A; col 2 A].
Proof.
  revert n. induction A as [|r t IH]; intros n HS; [reflexivity|].
  destruct n as [|n]; [destruct HS; discriminate|].
  apply shape2_cons_inv in HS as [Lr Ht].
  destruct r as [|a [|b [|c [|]]]]; try discriminate.
  simpl. rewrite (IH n Ht). reflexivity.
Qed.

Lemma transpose_cols_back (A : T2) (n : nat) :
  shape2 n 3 A -> transpose n [col 0 A; col 1 A; col 2 A] = A.
Proof.
  revert n. induction A as [|r t IH]; intros n HS.
  - destruct HS as [L _]. simpl in L. subst n. reflexivity.
  - destruct n as [|n]; [destruct HS; discriminate|].
    apply shape2_cons_inv in HS as [Lr Ht].
    destruct r as [|a [|b [|c [|]]]]; try discriminate.
    specialize (IH n Ht). simpl in *. rewrite IH. reflexivity.
Qed.

Lemma transpose1_column (l : T1) :
  l <> [] -> transpose 1 (map (fun x => [x]) l) = [l].
Proof.
  induction l as [|x t IH]; intros Hne; [congruence|].
  destruct t as [|y t'].
  - reflexivity.
  - simpl in *. rewrite IH by discriminate. reflexivity.
Qed.

Lemma dot_rows (a b c : R) (A : T2) (n : nat) (rhs : T1) :
  shape2 n 3 A ->
  dot (map (fun row => dot [a; b; c] row) A) rhs
  = a * dot (col 0 A) rhs + b * dot (col 1 A) rhs + c * dot (col 2 A) rhs.
Proof.
  revert n rhs. induction A as [|r t IH]; intros n rhs HS.
  - unfold dot. simpl. lra.
  - destruct n as [|n]; [destruct HS; discriminate|].
    apply shape2_cons_inv in HS as [Lr Ht].
    destruct r as [|x [|y [|z [|]]]]; try discriminate.
    destruct rhs as [|q rhs].
    + unfold dot. simpl. lra.
    + specialize (IH n rhs Ht). unfold dot, Rsum in *. simpl in *.
      rewrite IH. lra.
Qed.

Lemma forallb_length_eq {X : Type} (l : list (list X)) (n : nat) :
  Forall (fun r => length r = n) l ->
  forallb (fun r => (length r =? n)%nat) l = true.
Proof.
  intros H. apply forallb_forall. intros r Hr. rewrite Forall_forall in H.
  apply Nat.eqb_eq. auto.
Qed.

(** [solve_position] in closed form. *)
Lemma solve_position_closed_form (A : T2) (rhs : T1) (n : nat) :
  shape2 n 3 A -> length rhs = n -> (0 < n)%nat ->
  solve_position A rhs
  = if Req_dec_T (gram_det (col 0 A) (col 1 A) (col 2 A)) 0
    then Raise RuntimeError
    else Ok (cramer (col 0 A) (col 1 A) (col 2 A) rhs).
Proof.
  intros HS Lrhs Hn.
  set (u := col 0 A). set (v := col 1 A). set (w := col 2 A).
  assert (Hs1 : size1 A = 3%nat).
  { destruct A as [|r0 t]; [destruct HS as [L _]; simpl in L; lia|].
    simpl. destruct HS as [_ H]. now inversion H. }
  assert (Lcol : forall i, length (col i A) = n)
    by (intros i; unfold col; rewrite length_map; now destruct HS).
  assert (LA : length A = n) by (now destruct HS).
  assert (F1 : Forall (fun r : list R => length r = length A) [u; v; w]).
  { unfold u, v, w. repeat constructor; rewrite Lcol; now symmetry. }
  unfold solve_position. rewrite (transpose3_cols HS).
  fold u v w.
  unfold mmul at 1.
  rewrite (forallb_length_eq F1).
  rewrite Hs1, (transpose3_cols HS). fold u v w.
  cbn [bind map].
  unfold inverse3. fold (gram_det u v w).
  destruct (Req_dec_T (gram_det u v w) 0) as [Hd|Hd]; [reflexivity|].
  cbn [bind].
  unfold mmul at 1. cbn [forallb length Nat.eqb andb].
  assert (Hsz : size1 [u; v; w] = n) by (simpl; apply Lcol).
  rewrite Hsz. unfold u, v, w.
  rewrite (transpose_cols_back HS). fold u v w. cbn [bind map].
  unfold mmul.
  match goal with
  | |- context [forallb ?f ?l] =>
      assert (F2 : forallb f l = true)
        by (cbn [forallb]; rewrite !length_map, LA, Lrhs, Nat.eqb_refl; reflexivity)
  end.
  rewrite F2.
  assert (Hc1 : size1 (map (fun x => [x]) rhs) = 1%nat).
  { destruct rhs; [simpl in Lrhs; lia | reflexivity]. }
  rewrite Hc1, transpose1_column by (destruct rhs; [simpl in Lrhs; lia | discriminate]).
  cbn [bind map length Nat.eqb concat app].
  rewrite !(dot_rows _ _ _ _ HS). fold u v w.
  reflexivity.
Qed.

(** What [solve_position] returns satisfies the normal equations: with
    [u], [v], [w] the columns of the design matrix, the Gram matrix applied
    to the position is the vector of the products of the columns with the
    right-hand side. *)
Lemma solve_position_normal_equations (A : T2) (rhs pos : T1) (n : nat) :
  shape2 n 3 A -> length rhs = n ->
  solve_position A rhs = Ok pos ->
  let u := col 0 A in let v := col 1 A in let w := col 2 A in
  exists x y z,
    pos = [x; y; z] /\
    dot u u * x + dot u v * y + dot u w * z = dot u rhs /\
    dot v u * x + dot v v * y + dot v w * z = dot v rhs /\
    dot w u * x + dot w v * y + dot w w * z = dot w rhs.
Proof.
  intros HS Lrhs E u v w.
  assert (Hn : (0 < n)%nat).
  { destruct n; [|lia]. destruct HS as [L _].
    apply length_zero_iff_nil in L. subst A. discriminate E. }
  rewrite (@solve_position_closed_form A rhs n HS Lrhs Hn) in E. fold u v w in E.
  destruct (Req_dec_T (gram_det u v w) 0) as [Hd|Hd]; [discriminate|].
  inversion E as [Epos]. unfold cramer. do 3 eexists. split; [reflexivity|].
  unfold gram_det, det3 in *.
  repeat split; field; exact Hd.
Qed.

Lemma reject_accepts (m : Match) (hx hy left top right bottom : R) :
  hm_kps_of m = [hx; hy] ->
  reject [left; top; right; bottom] m = Ok false <->
  left <= hx <= right /\ top <= hy <= bottom /\ thresh <= hm_score_of m /\
  min_dist m <= Rmax (bottom - top) (right - left) * 0.3.
Proof.
  intros Hk. unfold reject. simpl. rewrite Hk. unfold Rltb.
  destruct (Rlt_dec hx left), (Rlt_dec right hx), (Rlt_dec hy top),
    (Rlt_dec bottom hy), (Rlt_dec (hm_score_of m) thresh),
    (Rlt_dec (Rmax (bottom - top) (right - left) * 0.3) (min_dist m));
    simpl; split; intros H; try discriminate; try reflexivity; try lra.
Qed.

(** The acceptance test lets a candidate through when it lies strictly
    inside the box, has score 1 and distance 0. *)
Lemma reject_strictly_inside (m : Match) (hx hy left top right bottom : R) :
  hm_kps_of m = [hx; hy] -> left < hx < right -> top < hy < bottom ->
  hm_score_of m = 1 -> min_dist m = 0 ->
  reject [left; top; right; bottom] m = Ok false.
Proof.
  intros Hk Hx Hy Hs Hd.
  apply (@reject_accepts m hx hy left top right bottom Hk).
  rewrite Hs, Hd. unfold thresh.
  assert (0 < Rmax (bottom - top) (right - left)).
  { eapply Rlt_le_trans; [|apply Rmax_l]. lra. }
  repeat split; lra.
Qed.

(** The select of line 404 is a choice, not a blend. *)
Lemma select_choice (hm_kps kps : R) :
  select 0 hm_kps kps = hm_kps /\ select 1 hm_kps kps = kps.
Proof. unfold select. split; lra. Qed.

End OneObject.

(** ** Keypoint refinement *)

Section RefineFacts.
Local Open Scope R_scope.

Lemma keep_mask_invalid (s : R) : s <= thresh -> keep_mask s = 0.
Proof. intros H. unfold keep_mask. destruct (Rlt_dec thresh s); [lra | reflexivity]. Qed.

Lemma keep_mask_valid (s : R) : thresh < s -> keep_mask s = 1.
Proof. intros H. unfold keep_mask. destruct (Rlt_dec thresh s); [reflexivity | lra]. Qed.

Lemma thresh_score_invalid (s : R) : s <= thresh -> thresh_score s = -1.
Proof. intros H. unfold thresh_score. rewrite (keep_mask_invalid H). lra. Qed.

Lemma thresh_coord_invalid (s v : R) : s <= thresh -> thresh_coord s v = -10000.
Proof. intros H. unfold thresh_coord. rewrite (keep_mask_invalid H). lra. Qed.

Lemma thresh_score_valid (s : R) : thresh < s -> thresh_score s = s.
Proof. intros H. unfold thresh_score. rewrite (keep_mask_valid H). lra. Qed.

Lemma thresh_coord_valid (s v : R) : thresh < s -> thresh_coord s v = v.
Proof. intros H. unfold thresh_coord. rewrite (keep_mask_valid H). lra. Qed.

Lemma reject_invalid (m : Match) (hx hy left top right bottom : R) :
  hm_score_of m = -1 -> hm_kps_of m = [hx; hy] ->
  reject [left; top; right; bottom] m = Ok true.
Proof.
  intros Hs Hk. unfold reject. simpl. rewrite Hk, Hs. f_equal.
  assert (E : Rltb (-1) thresh = true).
  { unfold Rltb, thresh. destruct (Rlt_dec (-1) 0.1); [reflexivity | lra]. }
  rewrite E. now rewrite !orb_true_r.
Qed.

Lemma match_one_inv (cands : T2) (scores : T1) (p : T1) (m : Match) :
  match_one cands scores p = Ok m ->
  nth_error scores (min_ind m) = Some (hm_score_of m) /\
  nth_error cands (min_ind m) = Some (hm_kps_of m) /\
  exists d0 ds, map (dist p) cands = d0 :: ds /\
                (min_dist m, min_ind m) = min_from d0 0 1 ds.
Proof.
  unfold match_one. intros E. apply bind_ok in E as ([d i] & Emin & E).
  apply bind_ok in E as (s & Es & E). apply bind_ok in E as (c & Ec & E).
  inversion E; subst m. simpl.
  unfold pick in Es, Ec.
  destruct (nth_error scores i) eqn:Hs; [|discriminate].
  destruct (nth_error cands i) eqn:Hc; [|discriminate].
  inversion Es; inversion Ec; subst. repeat split; auto.
  unfold min_dim in Emin. destruct (map (dist p) cands) as [|d0 ds]; [discriminate|].
  inversion Emin. eauto.
Qed.

End RefineFacts.

(** ** Assembly and the decoder as a whole *)

Lemma cat2_rows (a c : T3) (b K n m : nat) :
  shape3 b K n a -> shape3 b K m c ->
  cat2 a c = Ok (zipWith (zipWith (@app R)) a c) /\
  shape3 b K (n + m) (zipWith (zipWith (@app R)) a c).
Proof.
  unfold T3, T2, T1 in *.
  intros [La Ha] [Lc Hc]. rewrite Forall_forall in Ha, Hc. split.
  - unfold cat2. apply zipM_pure; [lia|]. intros i ra rc Ea Ec.
    destruct (Ha ra (nth_error_In _ _ Ea)) as [Lra _].
    destruct (Hc rc (nth_error_In _ _ Ec)) as [Lrc _].
    apply zipM_pure; [lia | intros; reflexivity].
  - split; [rewrite zipWith_length; lia|].
    apply Forall_forall. intros s Hs. apply In_nth_error in Hs as [i Ei].
    rewrite nth_error_zipWith in Ei.
    destruct (nth_error a i) as [sa|] eqn:Ea; [|discriminate Ei].
    destruct (nth_error c i) as [sc|] eqn:Ec; [|discriminate Ei].
    inversion Ei; subst s.
    destruct (Ha sa (nth_error_In _ _ Ea)) as [Lsa Hsa].
    destruct (Hc sc (nth_error_In _ _ Ec)) as [Lsc Hsc].
    rewrite Forall_forall in Hsa, Hsc.
    split; [rewrite zipWith_length; lia|].
    apply Forall_forall. intros r Hr. apply In_nth_error in Hr as [j Ej].
    rewrite nth_error_zipWith in Ej.
    destruct (nth_error sa j) as [ra|] eqn:Era; [|discriminate Ej].
    destruct (nth_error sc j) as [rc|] eqn:Erc; [|discriminate Ej].
    inversion Ej; subst r.
    rewrite length_app, (Hsa ra (nth_error_In _ _ Era)),
      (Hsc rc (nth_error_In _ _ Erc)). reflexivity.
Qed.

Lemma get2_in_shape {X : Type} (t : list (list (list X))) b K n bi k :
  shape3 b K n t -> bi < b -> k < K ->
  exists r, get2 t bi k = Some r /\ length r = n.
Proof.
  intros [Lb Hall] Hbi Hk. rewrite Forall_forall in Hall. unfold get2.
  destruct (nth_error t bi) as [s|] eqn:Es; [|apply nth_error_None in Es; lia].
  destruct (Hall s (nth_error_In _ _ Es)) as [Ls Hs].
  rewrite Forall_forall in Hs.
  destruct (nth_error s k) as [r|] eqn:Er; [|apply nth_error_None in Er; lia].
  exists r. split; [reflexivity|]. apply Hs. eapply nth_error_In; eauto.
Qed.

Ltac chase :=
  repeat first
    [ reflexivity
    | match goal with
      | |- is_ok (bind ?m _) = false =>
          let E := fresh "E" in destruct m eqn:E; cbn [bind]; [|reflexivity]
      | |- is_ok (match ?p with (_, _) => _ end) = false => destruct p
      end ].

Lemma refine_keypoints_raises (K num_joints : nat) (kps bboxes : T3)
      (kps_heatmap : T4) (kps_offsets : option T4) :
  is_ok (refine_keypoints K num_joints kps bboxes kps_heatmap kps_offsets) = false.
Proof.
  unfold refine_keypoints. chase.
Qed.

(** * The claims *)

Section NMSClaims.
Context {A : Type} {S : Scalar A} {L : ScalarLaws A}.

(** C6, amended: on a rectangular heatmap the default suppression returns an
    array of the same shape.  At every position the output is the input
    value when that value equals the maximum of its 3 x 3 edge-padded
    neighbourhood, and 0 otherwise; so a cell that dominates all its
    neighbours (a strict local maximum, or a cell of a plateau) keeps its
    value, a cell with a larger neighbour becomes 0, and the output is at
    most the input wherever the input is not negative. *)
Theorem nms_keeps_window_maxima
        (heat : list (list (list (list A)))) (b c h w : nat) :
  shape4 b c h w heat ->
  exists out,
    _nms heat 3 = Ok out /\ shape4 b c h w out /\
    forall bi ci p i j x,
      get2 heat bi ci = Some p -> get2 p i j = Some x ->
      exists y m,
        get4 out bi ci i j = Some y /\
        edge_max p h w i j = Some m /\
        y = (if seqb m x then x else szero) /\
        ((forall i' j' z, nbr i i' -> nbr j j' -> get2 p i' j' = Some z ->
                          sleb z x = true) -> y = x) /\
        ((exists i' j' z, nbr i i' /\ nbr j j' /\ get2 p i' j' = Some z /\
                          sleb z x = false) -> y = szero) /\
        (sleb szero x = true -> sleb y x = true).
Proof.
  intros Hs. exists (map (map nms_plane) heat).
  split; [now apply (nms_maps_planes Hs)|].
  split; [now apply shape4_nms|].
  intros bi ci p i j x Gp Gx.
  pose proof (shape4_plane _ _ Hs Gp) as Hp.
  exists (nms_cell p i j x), (wmax p i j).
  split; [|split; [|split; [|split; [|split]]]].
  - rewrite get4_planes, get2_map_map, Gp. simpl.
    now rewrite get2_nms_plane, Gx.
  - eapply edge_max_wmax; eauto.
  - unfold nms_cell, keep_of. destruct (seqb (wmax p i j) x);
      [apply smul_one | apply smul_zero].
  - intros Hmax. apply nms_cell_keep. now apply wmax_local_max.
  - intros (i' & j' & z & Ni & Nj & Gz & Hz). apply nms_cell_drop.
    intros E. pose proof (@wmax_ge A S L p i j i' j' x z Gx Ni Nj Gz) as Hge.
    rewrite E in Hge. congruence.
  - apply nms_cell_le.
Qed.

(** C10: on a heatmap without negative values a second suppression returns
    what the first one returned. *)
Theorem nms_idempotent_nonneg
        (heat : list (list (list (list A)))) (b c h w : nat) :
  shape4 b c h w heat ->
  (forall bi ci i j x, get4 heat bi ci i j = Some x -> sleb szero x = true) ->
  exists out, _nms heat 3 = Ok out /\ _nms out 3 = Ok out.
Proof.
  intros Hs Hpos. exists (map (map nms_plane) heat).
  split; [now apply (nms_maps_planes Hs)|].
  rewrite (nms_maps_planes (shape4_nms Hs)). f_equal.
  rewrite map_map. apply map_ext_in. intros s Hin.
  rewrite map_map. apply map_ext_in. intros p Hp.
  apply In_nth_error in Hin as [bi Hbi]. apply In_nth_error in Hp as [ci Hci].
  apply nms_plane_idem. intros i j z G.
  apply (Hpos bi ci i j). rewrite get4_planes. unfold get2 at 1.
  now rewrite Hbi, Hci.
Qed.

End NMSClaims.

Lemma shape4_heat_Z : shape4 1 1 3 3 heat_Z.
Proof. repeat (split || constructor). Qed.

Lemma nms_keeps_window_maxima_witness :
  exists out,
    _nms heat_Z 3 = Ok out /\ shape4 1 1 3 3 out /\
    forall bi ci p i j x,
      get2 heat_Z bi ci = Some p -> get2 p i j = Some x ->
      exists y m,
        get4 out bi ci i j = Some y /\
        edge_max p 3 3 i j = Some m /\
        y = (if seqb m x then x else szero) /\
        ((forall i' j' z, nbr i i' -> nbr j j' -> get2 p i' j' = Some z ->
                          sleb z x = true) -> y = x) /\
        ((exists i' j' z, nbr i i' /\ nbr j j' /\ get2 p i' j' = Some z /\
                          sleb z x = false) -> y = szero) /\
        (sleb szero x = true -> sleb y x = true).
Proof.
  apply (nms_keeps_window_maxima (A := Z)). repeat (split || constructor).
Defined.

(** C6 as stated fails: with a negative entry next to a larger one the
    suppressed value 0 exceeds the input. *)
Lemma nms_output_exceeds_negative_input :
  ~ (forall (heat out : list (list (list (list Z)))),
        _nms heat 3 = Ok out ->
        forall bi ci i j x y,
          get4 heat bi ci i j = Some x -> get4 out bi ci i j = Some y ->
          (y <= x)%Z).
Proof.
  intros H.
  specialize (H [[[[-1; 5]]]]%Z [[[[0; 5]]]]%Z eq_refl 0 0 0 0 (-1)%Z 0%Z
                eq_refl eq_refl).
  lia.
Qed.

Lemma nms_idempotent_nonneg_witness :
  exists out, _nms heat_Z 3 = Ok out /\ _nms out 3 = Ok out.
Proof.
  apply (nms_idempotent_nonneg (A := Z) (b := 1) (c := 1) (h := 3) (w := 3)).
  - repeat (split || constructor).
  - intros bi ci i j x G.
    destruct bi as [|[|bi]], ci as [|[|ci]]; try discriminate;
      destruct i as [|[|[|[|i]]]]; try discriminate;
      destruct j as [|[|[|[|j]]]]; try discriminate;
      inversion G; reflexivity.
Defined.

(** C9: for a field of shape [batch, channels, height, width] and an index
    array of shape [batch, K] with every index below height * width, the
    gatherer returns an array of shape [batch, K, channels] whose entry
    (b, k, c) is the field value at batch b, channel c and flattened
    position index[b, k], that is row index / width and column
    index mod width; a field that holds (an encoding of) its own flattened
    position everywhere gives back the index itself. *)
Theorem permute_and_gather_reads_flat_index
        {X : Type} (feat : list (list (list (list X))))
        (ind : list (list nat)) (b c h w K : nat) :
  0 < b -> 0 < c -> 0 < h -> 0 < w ->
  shape4 b c h w feat -> shape2 b K ind ->
  (forall bi k i, get2 ind bi k = Some i -> i < h * w) ->
  exists out,
    _permute_and_gather_feat feat ind = Ok out /\
    shape3 b K c out /\
    (forall bi k i ch, get2 ind bi k = Some i ->
       get3 out bi k ch = get4 feat bi ch (i / w) (i mod w)) /\
    (forall val : nat -> X,
       (forall bi ch y x v, get4 feat bi ch y x = Some v -> v = val (y * w + x)) ->
       forall bi k i ch, ch < c -> get2 ind bi k = Some i ->
                         get3 out bi k ch = Some (val i)).
Proof.
  intros Hb Hc Hh Hw Hs Hind Hrange.
  destruct (shape4_sizes Hb Hc Hh Hs) as [E2 E3].
  unfold _permute_and_gather_feat. rewrite E2, E3. rewrite map_map.
  set (flat := map (fun fb => concat (permute_hwc h w fb)) feat).
  assert (Hflat : forall bi f, nth_error flat bi = Some f ->
            exists fb, nth_error feat bi = Some fb /\ shape3 c h w fb /\
                       f = concat (permute_hwc h w fb)).
  { intros bi f E. unfold flat in E. rewrite nth_error_map in E.
    destruct (nth_error feat bi) as [fb|] eqn:Efb; [|discriminate].
    inversion E; subst. exists fb. repeat split; auto.
    - destruct Hs as [_ Hall]. rewrite Forall_forall in Hall.
      destruct (Hall fb (nth_error_In _ _ Efb)). assumption.
    - destruct Hs as [_ Hall]. rewrite Forall_forall in Hall.
      destruct (Hall fb (nth_error_In _ _ Efb)). assumption. }
  destruct (gather_feat_spec flat ind) as (out & Eout & Lout & Hrows & Hget).
  { unfold flat. rewrite length_map. destruct Hs, Hind. lia. }
  { intros bi k i f G E. destruct (Hflat bi f E) as (fb & _ & Hfb & ->).
    destruct (flat_hwc_spec Hfb) as [Lf _]. rewrite Lf. eauto. }
  assert (Hentry : forall bi k i ch, get2 ind bi k = Some i ->
            get3 out bi k ch = get4 feat bi ch (i / w) (i mod w)).
  { intros bi k i ch G. rewrite get3_rows, (Hget bi k i G).
    unfold get2 at 1. unfold get4.
    destruct (nth_error flat bi) as [f|] eqn:Ef.
    - destruct (Hflat bi f Ef) as (fb & Efb & Hfb & ->). rewrite Efb.
      destruct (flat_hwc_spec Hfb) as (_ & _ & Hf).
      specialize (Hf i ch). unfold get2 in Hf. exact Hf.
    - unfold flat in Ef. rewrite nth_error_map in Ef.
      destruct (nth_error feat bi); [discriminate | reflexivity]. }
  exists out. split; [exact Eout|]. split; [|split; [exact Hentry|]].
  - split; [destruct Hind; congruence|].
    apply Forall_forall. intros orows Hin.
    apply In_nth_error in Hin as [bi Ebi].
    assert (Hbi : bi < length ind)
      by (rewrite <- Lout; apply nth_error_Some; congruence).
    destruct (nth_error ind bi) as [row|] eqn:Erow;
      [|apply nth_error_None in Erow; lia].
    split.
    + rewrite (Hrows bi row orows Erow Ebi).
      destruct Hind as [_ Hall]. rewrite Forall_forall in Hall.
      apply Hall. eapply nth_error_In; eauto.
    + apply Forall_forall. intros r Hr. apply In_nth_error in Hr as [k Ek].
      assert (Hk : k < length row).
      { rewrite <- (Hrows bi row orows Erow Ebi).
        apply nth_error_Some. congruence. }
      destruct (nth_error row k) as [i|] eqn:Ei;
        [|apply nth_error_None in Ei; lia].
      assert (G : get2 ind bi k = Some i) by (unfold get2; now rewrite Erow).
      pose proof (Hget bi k i G) as Hg. unfold get2 at 1 in Hg.
      rewrite Ebi, Ek in Hg. symmetry in Hg. unfold get2 in Hg.
      destruct (nth_error flat bi) as [f|] eqn:Ef; [|discriminate].
      destruct (Hflat bi f Ef) as (fb & _ & Hfb & ->).
      destruct (flat_hwc_spec Hfb) as (_ & Hc' & _).
      rewrite Forall_forall in Hc'. apply Hc'. eapply nth_error_In; eauto.
  - intros val Hprobe bi k i ch Hch G.
    rewrite (Hentry bi k i ch G).
    assert (Hbi : bi < b).
    { destruct Hind as [Lb _]. rewrite <- Lb. unfold get2 in G.
      apply nth_error_Some. destruct (nth_error ind bi); congruence. }
    pose proof (Hrange bi k i G) as Hi.
    destruct (@get4_in_bounds X b c h w feat bi ch (i / w) (i mod w) Hs Hbi Hch)
      as [v Ev].
    + apply Nat.Div0.div_lt_upper_bound. lia.
    + apply Nat.mod_upper_bound. lia.
    + rewrite Ev. f_equal. rewrite (Hprobe _ _ _ _ _ Ev). f_equal.
      rewrite (Nat.div_mod_eq i w) at 3. lia.
Qed.

Lemma permute_and_gather_reads_flat_index_witness :
  exists out,
    _permute_and_gather_feat probe_field [[4; 0; 5]] = Ok out /\
    shape3 1 3 2 out /\
    (forall bi k i ch, get2 [[4; 0; 5]] bi k = Some i ->
       get3 out bi k ch = get4 probe_field bi ch (i / 3) (i mod 3)) /\
    (forall val : nat -> nat,
       (forall bi ch y x v, get4 probe_field bi ch y x = Some v ->
                            v = val (y * 3 + x)) ->
       forall bi k i ch, ch < 2 -> get2 [[4; 0; 5]] bi k = Some i ->
                         get3 out bi k ch = Some (val i)).
Proof.
  apply (@permute_and_gather_reads_flat_index nat probe_field [[4; 0; 5]]
           1 2 2 3 3); try lia.
  - repeat (split || constructor).
  - repeat (split || constructor).
  - intros bi k i G.
    destruct bi as [|[|bi]]; try discriminate;
      destruct k as [|[|[|[|k]]]]; try discriminate;
      inversion G; simpl; lia.
Defined.

(** ** The two-stage selector *)

Section TopKHeatFacts.
Context {A : Type} {S : Scalar A} {L : ScalarLaws A}.

Lemma topk_sel_entry (row : list A) (K k : nat) :
  K <= length row -> k < K ->
  exists v i,
    nth_error (fst (topk_sel row K)) k = Some v /\
    nth_error (snd (topk_sel row K)) k = Some i /\
    nth_error row i = Some v /\ i < length row.
Proof.
  intros HK Hk. destruct (topk_sel_spec row HK) as (Lv & Li & _ & Hrow).
  destruct (nth_error (fst (topk_sel row K)) k) as [v|] eqn:Ev;
    [|apply nth_error_None in Ev; lia].
  destruct (nth_error (snd (topk_sel row K)) k) as [i|] eqn:Ei;
    [|apply nth_error_None in Ei; lia].
  exists v, i. repeat split; auto.
  - eapply Hrow; eauto.
  - apply nth_error_Some. erewrite Hrow; eauto. discriminate.
Qed.

Lemma shape4_concat_plane b c h w (scores : list (list (list (list A)))) s plane :
  shape4 b c h w scores -> In s scores -> In plane s ->
  length (concat plane) = h * w /\ Forall (fun r => length r = w) plane.
Proof.
  intros [_ Hall] Hs Hp. rewrite Forall_forall in Hall.
  destruct (Hall s Hs) as [_ Hc]. rewrite Forall_forall in Hc.
  destruct (Hc plane Hp) as [Lh Hw]. split; [|exact Hw].
  now rewrite (length_concat_uniform Hw), Lh.
Qed.

(** The two stages of [_topk] on a heatmap with no empty axis and
    K <= height * width, with the class ids and the coordinates as the code
    computes them, in float32. *)
Lemma topk_two_stage_run
        (scores : list (list (list (list A)))) (b c h w K : nat) :
  0 < b -> 0 < c -> 0 < h -> 0 < w ->
  shape4 b c h w scores -> K <= h * w ->
  exists score inds clses ys xs,
    _topk scores K = Ok (score, inds, clses, ys, xs) /\
    shape2 b K score /\ shape2 b K inds /\ shape2 b K clses /\
    shape2 b K ys /\ shape2 b K xs /\
    (forall bi i j si sj, i < j -> get2 score bi i = Some si ->
                          get2 score bi j = Some sj -> sleb sj si = true) /\
    (forall bi k ind, get2 inds bi k = Some ind -> ind < h * w) /\
    (forall bi k, bi < b -> k < K ->
       exists rank s ind plane vals idxs,
         rank < c * K /\
         get2 clses bi k = Some (true_div_int rank K) /\
         get2 score bi k = Some s /\
         get2 inds bi k = Some ind /\
         get2 scores bi (rank / K) = Some plane /\
         topk (concat plane) K = Ok (vals, idxs) /\
         nth_error vals (rank mod K) = Some s /\
         nth_error idxs (rank mod K) = Some ind /\
         get4 scores bi (rank / K) (ind / w) (ind mod w) = Some s /\
         get2 ys bi k = Some (of_nat (float_of_int (true_div_int ind w))) /\
         get2 xs bi k = Some (of_nat (float_of_int (ind mod w)))).
Proof.
  intros Hb Hc Hh Hw Hs HK.
  destruct (shape4_sizes Hb Hc Hh Hs) as [E2 E3].
  unfold _topk. rewrite E2, E3.
  set (sel := fun plane : list (list A) => topk_sel (concat plane) K).
  assert (E1 : topk_planes scores K = Ok (map (map sel) scores)).
  { unfold topk_planes. apply mapM_map. intros s Hin. apply mapM_map.
    intros plane Hp. apply topk_ok.
    edestruct shape4_concat_plane as [-> _]; eauto. }
  rewrite E1. cbn [bind].
  set (topk_scores := map (map fst) (map (map sel) scores)).
  set (topk_inds := map (map (map (fun i => i mod (h * w))))
                        (map (map snd) (map (map sel) scores))).
  set (sel2 := fun rows : list (list A) => topk_sel (concat rows) K).
  assert (Hplane : forall bi ci plane, get2 scores bi ci = Some plane ->
            length (concat plane) = h * w /\ Forall (fun r => length r = w) plane).
  { intros bi ci plane G. unfold get2 in G.
    destruct (nth_error scores bi) as [s|] eqn:Es; [|discriminate].
    eapply shape4_concat_plane; eauto using nth_error_In. }
  assert (Hmap3 : forall (Y : Type) (f : list A * list nat -> list Y),
            (forall plane, length (concat plane) = h * w ->
                           length (f (sel plane)) = K) ->
            shape3 b c K (map (map f) (map (map sel) scores))).
  { intros Y f Hf. destruct Hs as [Lb Hall]. split; [now rewrite !length_map|].
    apply Forall_map, Forall_map. rewrite Forall_forall in *. intros s Hin.
    destruct (Hall s Hin) as [Lc Hp]. split; [now rewrite !length_map|].
    apply Forall_map, Forall_map. rewrite Forall_forall in *. intros p Hpin.
    apply Hf. destruct (Hp p Hpin) as [Lh Hr].
    now rewrite (length_concat_uniform Hr), Lh. }
  assert (Sscores : shape3 b c K topk_scores).
  { apply Hmap3. intros plane Lp. apply topk_sel_spec. lia. }
  assert (Sinds : shape3 b c K topk_inds).
  { apply shape3_map3. apply (Hmap3 nat snd).
    intros plane Lp. apply topk_sel_spec. lia. }
  assert (E2' : mapM (fun rows => topk (concat rows) K) topk_scores
                = Ok (map sel2 topk_scores)).
  { apply mapM_map. intros rows Hin. apply topk_ok.
    destruct Sscores as [_ Hall]. rewrite Forall_forall in Hall.
    destruct (Hall rows Hin) as [Lc Hr].
    rewrite (length_concat_uniform Hr), Lc. nia. }
  rewrite E2'. cbn [bind].
  set (topk_ind := map snd (map sel2 topk_scores)).
  assert (Hrows2 : forall bi rows, nth_error topk_scores bi = Some rows ->
            length (concat rows) = c * K /\ Forall (fun r => length r = K) rows).
  { intros bi rows E. destruct Sscores as [_ Hall]. rewrite Forall_forall in Hall.
    destruct (Hall rows (nth_error_In _ _ E)) as [Lc Hr].
    split; [now rewrite (length_concat_uniform Hr), Lc | exact Hr]. }
  assert (Sind : shape2 b K topk_ind).
  { unfold topk_ind. split.
    - rewrite !length_map. now destruct Sscores.
    - apply Forall_map, Forall_map, Forall_forall. intros rows Hin.
      apply In_nth_error in Hin as [bi E].
      destruct (Hrows2 bi rows E) as [Lc _].
      apply topk_sel_spec. rewrite Lc. nia. }
  assert (Hrank : forall bi k, bi < b -> k < K ->
            exists rows s rank,
              nth_error topk_scores bi = Some rows /\
              get2 (map fst (map sel2 topk_scores)) bi k = Some s /\
              get2 topk_ind bi k = Some rank /\
              nth_error (concat rows) rank = Some s /\ rank < c * K).
  { intros bi k Hbi Hk.
    destruct (nth_error topk_scores bi) as [rows|] eqn:E;
      [|apply nth_error_None in E; destruct Sscores; lia].
    destruct (Hrows2 bi rows E) as [Lc _].
    destruct (@topk_sel_entry (concat rows) K k) as (s & rank & Es & Er & Ec & Hlt);
      [rewrite Lc; nia | exact Hk |].
    exists rows, s, rank. unfold topk_ind, get2.
    rewrite !nth_error_map, E. simpl. repeat split; auto. lia. }
  assert (Hrange : forall bi k i, get2 topk_ind bi k = Some i -> i < c * K).
  { intros bi k i G.
    assert (Hbi : bi < b).
    { destruct Sind as [Lb _]. rewrite <- Lb. unfold get2 in G.
      apply nth_error_Some. destruct (nth_error topk_ind bi); congruence. }
    assert (Hk : k < K).
    { destruct Sind as [_ Hall]. rewrite Forall_forall in Hall. unfold get2 in G.
      destruct (nth_error topk_ind bi) as [row|] eqn:E; [|discriminate].
      rewrite <- (Hall row (nth_error_In _ _ E)).
      apply nth_error_Some. congruence. }
    destruct (Hrank bi k Hbi Hk) as (rows & s & rank & _ & _ & G' & _ & Hlt).
    congruence. }
  destruct (@gather_column _ topk_inds topk_ind b c K Sinds Sind Hrange)
    as (g_inds & Eg1 & Sg1 & Hg1).
  destruct (@gather_column _ _ topk_ind b c K (@shape3_map3 _ _ (fun i => of_nat (float_of_int (true_div_int i w))) _ _ _ _ Sinds) Sind Hrange)
    as (g_ys & Eg2 & Sg2 & Hg2).
  destruct (@gather_column _ _ topk_ind b c K (@shape3_map3 _ _ (fun i => of_nat (float_of_int (i mod w))) _ _ _ _ Sinds) Sind Hrange)
    as (g_xs & Eg3 & Sg3 & Hg3).
  fold topk_ind. rewrite Eg1. cbn [bind]. rewrite Eg2. cbn [bind].
  rewrite Eg3. cbn [bind].
  assert (Hidx : forall bi k, bi < b -> k < K ->
            exists rank s ind plane,
              rank < c * K /\
              get2 topk_ind bi k = Some rank /\
              get2 (map fst (map sel2 topk_scores)) bi k = Some s /\
              get2 scores bi (rank / K) = Some plane /\
              nth_error (fst (sel plane)) (rank mod K) = Some s /\
              nth_error (snd (sel plane)) (rank mod K) = Some ind /\
              nth_error (concat plane) ind = Some s /\ ind < h * w /\
              get3 topk_inds bi (rank / K) (rank mod K) = Some ind).
  { intros bi k Hbi Hk.
    destruct (Hrank bi k Hbi Hk) as (rows & s & rank & Erows & Gs & Gr & Ec & Hlt).
    destruct (Hrows2 bi rows Erows) as [_ HrK].
    rewrite (nth_error_concat rank HrK) in Ec.
    assert (G3 : get3 topk_scores bi (rank / K) (rank mod K) = Some s).
    { rewrite get3_rows. unfold get2 at 1. rewrite Erows.
      unfold get2 in Ec. destruct (nth_error rows (rank / K)); [exact Ec | discriminate]. }
    unfold topk_scores in G3. rewrite get3_of_rows, get2_map_map in G3.
    destruct (get2 scores bi (rank / K)) as [plane|] eqn:Ep; [|discriminate].
    cbn [option_map] in G3. destruct (Hplane _ _ _ Ep) as [Lp Hpw].
    assert (Hm : rank mod K < K) by (apply Nat.mod_upper_bound; lia).
    destruct (@topk_sel_entry (concat plane) K (rank mod K))
      as (v & ind & Ev & Ei & En & Hi); [lia | exact Hm |].
    change (topk_sel (concat plane) K) with (sel plane) in Ev, Ei.
    assert (v = s) by congruence. subst v.
    exists rank, s, ind, plane. repeat split; auto; [lia|].
    unfold topk_inds. rewrite get3_map3, get3_of_rows, get2_map_map, Ep.
    cbn [option_map]. rewrite Ei. cbn [option_map]. f_equal.
    apply Nat.mod_small. lia. }
  do 5 eexists. split; [reflexivity|].
  split.
  { destruct Sscores as [Lb Hall]. split; [now rewrite !length_map|].
    apply Forall_map, Forall_map, Forall_forall. intros rows Hin.
    apply In_nth_error in Hin as [bi E]. destruct (Hrows2 bi rows E) as [Lc _].
    apply topk_sel_spec. rewrite Lc. nia. }
  split; [exact Sg1|]. split; [now apply shape2_map2|].
  split; [exact Sg2|]. split; [exact Sg3|].
  split.
  { intros bi i j si sj Hij Gi Gj. unfold get2 in Gi, Gj.
    rewrite !nth_error_map in Gi, Gj.
    destruct (nth_error topk_scores bi) as [rows|] eqn:E; [|discriminate].
    simpl in Gi, Gj. destruct (Hrows2 bi rows E) as [Lc _].
    assert (HKc : K <= length (concat rows)) by (rewrite Lc; nia).
    destruct (topk_sel_spec (concat rows) HKc) as (_ & _ & Hd & _).
    exact (Hd i j si sj Hij Gi Gj). }
  split.
  { intros bi k ind G. destruct (get2_Some_lt _ _ Sg1 G) as [Hbi Hk].
    destruct (Hidx bi k Hbi Hk)
      as (rank & s & ind' & plane & _ & Gr & _ & _ & _ & _ & _ & Hi & G3).
    rewrite (Hg1 bi k rank Gr), G3 in G. inversion G; subst. exact Hi. }
  intros bi k Hbi Hk.
  destruct (Hidx bi k Hbi Hk)
    as (rank & s & ind & plane & Hlt & Gr & Gs & Gp & Ev & Ei & En & Hi & G3).
  destruct (Hplane _ _ _ Gp) as [Lp Hpw].
  exists rank, s, ind, plane, (fst (sel plane)), (snd (sel plane)).
  split; [exact Hlt|]. split.
  { rewrite get2_map_map, Gr. reflexivity. }
  split; [exact Gs|]. split.
  { now rewrite (Hg1 bi k rank Gr). }
  split; [exact Gp|]. split.
  { rewrite topk_ok by lia. unfold sel. now destruct (topk_sel (concat plane) K). }
  split; [exact Ev|]. split; [exact Ei|]. split.
  { rewrite get4_planes, Gp. rewrite <- (nth_error_concat ind Hpw). exact En. }
  split.
  { rewrite (Hg2 bi k rank Gr), get3_map3, G3. reflexivity. }
  { rewrite (Hg3 bi k rank Gr), get3_map3, G3. reflexivity. }
Qed.



End TopKHeatFacts.



Section RealClaims.
Local Open Scope R_scope.

(** Lines 176-189 on their own, for one object with rotation encoding
    r0..r7, ninth-keypoint x-coordinate kx, principal point cx and focal
    length f: alpha + atan2(kx - cx, f) with alpha taken from the bin that
    channels 1 and 5 select, wrapped once by 2 pi, in the closed interval
    from -pi to pi.  The back-projection raises before these lines
    ([img_kps_raises]). *)
Lemma rot_y_of_wrapped (r0 r1 r2 r3 r4 r5 r6 r7 kx cx f : R) :
  let alpha := if Rlt_dec r5 r1 then atan (r2 / r3) - PI / 2
               else atan (r6 / r7) + PI / 2 in
  let raw := alpha + atan2 (kx - cx) f in
  exists y,
    rot_y_of [r0; r1; r2; r3; r4; r5; r6; r7] kx cx f = Ok y /\
    y = (if Rlt_dec PI raw then raw - 2 * PI
         else if Rlt_dec raw (- PI) then raw + 2 * PI else raw) /\
    - PI <= y <= PI.
Proof.
  intros alpha raw. unfold rot_y_of. simpl.
  eexists. split; [reflexivity|].
  assert (E : alpna_pre_of r1 r2 r3 r5 r6 r7 + atan2 (kx - cx) f = raw).
  { unfold raw, alpha. now rewrite alpna_pre_cases. }
  rewrite E. split; [apply wrap_once|].
  apply wrap_once_bound. rewrite <- E.
  pose proof (alpna_pre_bound r1 r2 r3 r5 r6 r7).
  pose proof (atan2_bound (kx - cx) f). lra.
Qed.

(** C8, amended: a candidate whose score is at most 0.1 has its score
    forced to -1 and both coordinates forced to -10000.  The nearest
    candidate matched to a regression keypoint is one of the K candidates
    of its keypoint channel, thresholded; when that candidate was
    invalidated, the matched score is -1 and the acceptance test rejects the
    pair for every box, so the mask keeps the regression estimate. *)
Theorem invalidated_candidate_is_rejected
        (num_joints b K : nat) (kps : T4) (hm_score hm_xs hm_ys : T3)
        (matched : list (list (list Match))) :
  shape3 b num_joints K hm_score ->
  shape3 b num_joints K hm_xs ->
  shape3 b num_joints K hm_ys ->
  match_candidates num_joints kps hm_score hm_xs hm_ys = Ok matched ->
  (forall s v, s <= 0.1 ->
               thresh_score s = -1 /\ thresh_coord s v = -10000) /\
  forall bi j k m, get3 matched bi j k = Some m ->
    exists s x y,
      get3 hm_score bi j (min_ind m) = Some s /\
      get3 hm_xs bi j (min_ind m) = Some x /\
      get3 hm_ys bi j (min_ind m) = Some y /\
      hm_score_of m = thresh_score s /\
      hm_kps_of m = [thresh_coord s x; thresh_coord s y] /\
      (s <= 0.1 ->
       hm_score_of m = -1 /\ hm_kps_of m = [-10000; -10000] /\
       forall left top right bottom,
         reject [left; top; right; bottom] m = Ok true).
Proof.
  intros Ss Sx Sy E.
  split; [intros s v Hs; split;
          [now apply thresh_score_invalid | now apply thresh_coord_invalid]|].
  unfold match_candidates in E.
  rewrite (@ew3_pure _ _ _ thresh_coord _ _ b num_joints K Ss Sy) in E.
  cbn [bind] in E.
  rewrite (@ew3_pure _ _ _ thresh_coord _ _ b num_joints K Ss Sx) in E.
  cbn [bind] in E.
  set (ys' := zipWith (zipWith (zipWith thresh_coord)) hm_score hm_ys) in *.
  set (xs' := zipWith (zipWith (zipWith thresh_coord)) hm_score hm_xs) in *.
  assert (Sxs' : shape3 b num_joints K xs') by (now apply shape3_zipWith3).
  assert (Sys' : shape3 b num_joints K ys') by (now apply shape3_zipWith3).
  rewrite (@zipM3_pure _ _ _ (fun x y => [x; y]) _ _ b num_joints K Sxs' Sys') in E.
  cbn [bind] in E.
  set (hm_kps := zipWith (zipWith (zipWith (fun x y => [x; y]))) xs' ys') in *.
  assert (Skps : shape3 b num_joints K hm_kps) by (now apply shape3_zipWith3).
  assert (Eexp : mapM (expand0 num_joints) hm_kps = Ok hm_kps).
  { rewrite <- (map_id hm_kps) at 2. apply mapM_map. intros s Hs.
    apply expand0_same. destruct Skps as [_ Hall].
    rewrite Forall_forall in Hall. now destruct (Hall s Hs). }
  rewrite Eexp in E. cbn [bind] in E.
  apply bind_ok in E as (cands & Ecands & E).
  intros bi j k m G. unfold get3, get2 in G.
  destruct (nth_error matched bi) as [mb|] eqn:Emb; [|discriminate].
  destruct (nth_error mb j) as [mj|] eqn:Emj; [|discriminate].
  destruct (zipM_nth_inv _ _ _ E bi Emb) as (kb & cb & Ekb & Ecb & E1).
  destruct (zipM_nth_inv _ _ _ E1 j Emj) as (regs & [c s] & Eregs & Ecs & E2).
  destruct (mapM_nth_inv _ _ E2 k G) as (p & Ep & Em).
  destruct (zipM_nth_inv _ _ _ Ecands bi Ecb) as (hb & sb & Ehb & Esb & E3).
  destruct (zipM_nth_inv _ _ _ E3 j Ecs) as (c' & s' & Ec' & Es' & E4).
  inversion E4; subst c' s'.
  destruct (match_one_inv _ _ _ Em) as (Hscore & Hkp & _).
  assert (G1 : get3 (map (map (map thresh_score)) hm_score) bi j (min_ind m)
               = Some (hm_score_of m)).
  { unfold get3, get2. now rewrite Esb, Es'. }
  assert (G2 : get3 hm_kps bi j (min_ind m) = Some (hm_kps_of m)).
  { unfold get3, get2. now rewrite Ehb, Ec'. }
  rewrite get3_map3 in G1.
  destruct (get3 hm_score bi j (min_ind m)) as [s0|] eqn:Gs; [|discriminate].
  simpl in G1. inversion G1 as [Hs0].
  unfold hm_kps in G2. rewrite get3_zipWith3 in G2.
  unfold xs', ys' in G2. rewrite !get3_zipWith3, Gs in G2.
  destruct (get3 hm_xs bi j (min_ind m)) as [x0|] eqn:Gx; [|discriminate].
  destruct (get3 hm_ys bi j (min_ind m)) as [y0|] eqn:Gy; [|discriminate].
  inversion G2 as [Hk0].
  exists s0, x0, y0.
  split; [reflexivity|]. split; [reflexivity|]. split; [reflexivity|].
  split; [now symmetry|]. split; [now symmetry|].
  intros Hinv. split; [|split].
  - try rewrite <- Hs0. now apply thresh_score_invalid.
  - try rewrite <- Hk0.
    rewrite (@thresh_coord_invalid s0 x0 Hinv), (@thresh_coord_invalid s0 y0 Hinv).
    reflexivity.
  - intros left top right bottom.
    apply (@reject_invalid m (thresh_coord s0 x0) (thresh_coord s0 y0)).
    + rewrite <- Hs0. now apply thresh_score_invalid.
    + now symmetry.
Qed.

Lemma invalidated_candidate_is_rejected_witness :
  (forall s v, s <= 0.1 -> thresh_score s = -1 /\ thresh_coord s v = -10000) /\
  forall bi j k m, get3 [[[low_match]]] bi j k = Some m ->
    exists s x y,
      get3 [[[0.05]]] bi j (min_ind m) = Some s /\
      get3 [[[3]]] bi j (min_ind m) = Some x /\
      get3 [[[4]]] bi j (min_ind m) = Some y /\
      hm_score_of m = thresh_score s /\
      hm_kps_of m = [thresh_coord s x; thresh_coord s y] /\
      (s <= 0.1 ->
       hm_score_of m = -1 /\ hm_kps_of m = [-10000; -10000] /\
       forall left top right bottom,
         reject [left; top; right; bottom] m = Ok true).
Proof.
  apply (@invalidated_candidate_is_rejected 1 1 1 [[[[3; 4]]]]
           [[[0.05]]] [[[3]]] [[[4]]] [[[low_match]]]).
  - repeat (split || constructor).
  - repeat (split || constructor).
  - repeat (split || constructor).
  - reflexivity.
Defined.

(** C8 as stated fails: when the only candidate of a channel has score
    0.05, that invalidated candidate is the nearest match of the regression
    keypoint. *)
Lemma invalidated_candidate_wins_nearest_match :
  0.05 <= 0.1 /\
  match_candidates 1 [[[[3; 4]]]] [[[0.05]]] [[[3]]] [[[4]]]
  = Ok [[[low_match]]] /\
  min_ind low_match = 0%nat /\
  hm_score_of low_match = -1 /\
  hm_kps_of low_match = [-10000; -10000].
Proof.
  assert (H : 0.05 <= thresh) by (unfold thresh; lra).
  split; [lra|]. split; [reflexivity|]. split; [reflexivity|]. split.
  - apply (thresh_score_invalid H).
  - simpl. now rewrite !(thresh_coord_invalid _ H).
Qed.

End RealClaims.

(** C3: on the keypoint-heatmap path the decoder never returns: the mask of
    the acceptance test is expanded with the tensor [bottom] where the
    batch size belongs, which raises before any estimate is replaced. *)
Theorem keypoint_path_never_returns
      (heat wh kps dim rot : T4) (prob reg : option T4) (kps_heatmap : T4)
      (kps_offsets : option T4) (K : nat) (meta : option Meta)
      (const : option ConstT) :
  is_ok (object_pose_decode heat wh kps dim rot prob reg (Some kps_heatmap)
                            kps_offsets K meta const) = false.
Proof.
  unfold object_pose_decode.
  chase.
  all: match goal with
       | H : context [refine_keypoints ?a ?b ?c ?d ?e ?f] |- _ =>
           pose proof (refine_keypoints_raises a b c d e f) as Hr;
           destruct (refine_keypoints a b c d e f);
           [discriminate Hr | discriminate H]
       end.
Qed.

(** Lines 409-411 on their own: the concatenation puts, in this order,
    bboxes (4), scores (1), kps_inv (2 J), dim (3), hm_score (J), rot_y (1),
    position (3), prob (1) and clses (1), 14 + 3 J fields for J keypoints.
    The decoder raises before these lines. *)
Lemma assemble_widths
        (bboxes scores kps_inv dim hm_score rot_y position prob clses : T3)
        (b K J : nat) :
  shape3 b K 4 bboxes -> shape3 b K 1 scores -> shape3 b K (2 * J) kps_inv ->
  shape3 b K 3 dim -> shape3 b K J hm_score -> shape3 b K 1 rot_y ->
  shape3 b K 3 position -> shape3 b K 1 prob -> shape3 b K 1 clses ->
  exists detections,
    assemble bboxes scores kps_inv dim hm_score rot_y position prob clses
    = Ok detections /\
    shape3 b K (14 + 3 * J) detections /\
    forall bi k, bi < b -> k < K ->
      exists r1 r2 r3 r4 r5 r6 r7 r8 r9,
        get2 bboxes bi k = Some r1 /\ get2 scores bi k = Some r2 /\
        get2 kps_inv bi k = Some r3 /\ get2 dim bi k = Some r4 /\
        get2 hm_score bi k = Some r5 /\ get2 rot_y bi k = Some r6 /\
        get2 position bi k = Some r7 /\ get2 prob bi k = Some r8 /\
        get2 clses bi k = Some r9 /\
        get2 detections bi k
        = Some (r1 ++ r2 ++ r3 ++ r4 ++ r5 ++ r6 ++ r7 ++ r8 ++ r9).
Proof.
  intros S1 S2 S3 S4 S5 S6 S7 S8 S9.
  unfold assemble. cbn [cat_dim2 bind].
  destruct (cat2_rows S8 S9) as [E8 T8]. rewrite E8. cbn [bind].
  destruct (cat2_rows S7 T8) as [E7 T7]. rewrite E7. cbn [bind].
  destruct (cat2_rows S6 T7) as [E6 T6]. rewrite E6. cbn [bind].
  destruct (cat2_rows S5 T6) as [E5 T5]. rewrite E5. cbn [bind].
  destruct (cat2_rows S4 T5) as [E4 T4']. rewrite E4. cbn [bind].
  destruct (cat2_rows S3 T4') as [E3 T3']. rewrite E3. cbn [bind].
  destruct (cat2_rows S2 T3') as [E2 T2']. rewrite E2. cbn [bind].
  destruct (cat2_rows S1 T2') as [E1 T1']. rewrite E1.
  eexists. split; [reflexivity|]. split.
  - replace (14 + 3 * J) with (4 + (1 + (2 * J + (3 + (J + (1 + (3 + (1 + 1))))))))
      by lia. exact T1'.
  - intros bi k Hbi Hk.
    destruct (get2_in_shape S1 Hbi Hk) as (r1 & G1 & _).
    destruct (get2_in_shape S2 Hbi Hk) as (r2 & G2 & _).
    destruct (get2_in_shape S3 Hbi Hk) as (r3 & G3 & _).
    destruct (get2_in_shape S4 Hbi Hk) as (r4 & G4 & _).
    destruct (get2_in_shape S5 Hbi Hk) as (r5 & G5 & _).
    destruct (get2_in_shape S6 Hbi Hk) as (r6 & G6 & _).
    destruct (get2_in_shape S7 Hbi Hk) as (r7 & G7 & _).
    destruct (get2_in_shape S8 Hbi Hk) as (r8 & G8 & _).
    destruct (get2_in_shape S9 Hbi Hk) as (r9 & G9 & _).
    exists r1, r2, r3, r4, r5, r6, r7, r8, r9.
    repeat (split; [assumption|]).
    rewrite !get2_zipWith2, G1, G2, G3, G4, G5, G6, G7, G8, G9. reflexivity.
Qed.

(** C1: on a well-formed call of the keypoint-heatmap path with the nine
    keypoints of the docstring (18 regression channels, 9 heatmap channels,
    one cell, K = 1) the decoder raises [TypeError] at line 403 and returns
    no detection array. *)
Theorem decode_nine_keypoints_raises :
  object_pose_decode (pixel 1 1%R) (pixel 2 1%R) (pixel 18 0%R) (pixel 3 1%R)
                     (pixel 8 1%R) (Some (pixel 1 1%R)) None
                     (Some (pixel 9 1%R)) None 1
                     (Some meta_id) (Some (Const2 const_matrix))
  = Raise TypeError.
Proof. reflexivity. Qed.

(** C4: with the keypoint heatmap absent the decoder never returns: the
    back-projection raises at the view of line 172, and the record is
    assembled from [hm_score], which only the keypoint-heatmap branch
    binds. *)
Theorem without_keypoint_heatmap_never_returns
      (heat wh kps dim rot : T4) (prob reg kps_offsets : option T4)
      (K : nat) (meta : option Meta) (const : option ConstT) :
  is_ok (object_pose_decode heat wh kps dim rot prob reg None
                            kps_offsets K meta const) = false.
Proof.
  unfold object_pose_decode. chase.
Qed.

(** * The stages on their own

    What the helper functions and the stages of the decoder do on every
    input: their results, their bounds and the inputs they refuse. *)

(** ** The selectors *)

Section TopKMore.
Context {A : Type} {S : Scalar A} {L : ScalarLaws A}.

Lemma in_enumerate_from_nth (l : list A) (n i : nat) (v : A) :
  nth_error l i = Some v -> In (v, n + i) (combine l (seq n (length l))).
Proof.
  revert n i. induction l as [|a t IH]; intros n i E; [destruct i; discriminate|].
  destruct i as [|i]; simpl in *.
  - inversion E; subst. left. f_equal. lia.
  - right. replace (n + Datatypes.S i) with (Datatypes.S n + i) by lia. now apply IH.
Qed.

Lemma snd_enumerate_from (l : list A) (n : nat) :
  map snd (combine l (seq n (length l))) = seq n (length l).
Proof.
  revert n. induction l as [|a t IH]; intros n; simpl; [reflexivity|].
  now rewrite IH.
Qed.

Lemma in_snd_insert_front (e : A * nat) (l : list (A * nat)) (i : nat) :
  In i (map snd (insert_front e l)) <-> i = snd e \/ In i (map snd l).
Proof.
  rewrite !in_map_iff. split.
  - intros (x & E & Hin). apply in_insert_front in Hin as [->|Hin]; [now left|].
    right. eauto.
  - intros [->|(x & E & Hin)].
    + exists e. split; [reflexivity|]. apply in_insert_front. now left.
    + exists x. split; [exact E|]. apply in_insert_front. now right.
Qed.

Lemma nodup_insert_front (e : A * nat) (l : list (A * nat)) :
  ~ In (snd e) (map snd l) -> NoDup (map snd l) ->
  NoDup (map snd (insert_front e l)).
Proof.
  induction l as [|e' t IH]; simpl; intros Hn Hd.
  - constructor; [tauto | constructor].
  - destruct (sleb (fst e') (fst e)); simpl.
    + constructor; [exact Hn | exact Hd].
    + inversion Hd as [|x xs Hx Hxs]; subst. constructor.
      * rewrite in_snd_insert_front. intros [E|Hin]; [|contradiction].
        apply Hn. left. congruence.
      * apply IH; [|exact Hxs]. intros Hin. apply Hn. now right.
Qed.

Lemma nodup_sort_desc (l : list (A * nat)) :
  NoDup (map snd l) -> NoDup (map snd (sort_desc l)).
Proof.
  induction l as [|e t IH]; simpl; intros Hd; [constructor|].
  inversion Hd as [|x xs Hx Hxs]; subst.
  apply nodup_insert_front; [|now apply IH].
  intros Hin. apply Hx. apply in_map_iff in Hin as (y & E & Hy).
  apply in_map_iff. exists y. split; [exact E|]. now apply in_sort_desc.
Qed.

(** The positions that [torch.topk] returns are pairwise distinct. *)
Lemma topk_sel_nodup (row : list A) (K : nat) :
  NoDup (snd (topk_sel row K)).
Proof.
  unfold topk_sel. simpl. rewrite <- firstn_map.
  set (s := map snd (sort_desc (enumerate row))).
  assert (Hd : NoDup s).
  { apply nodup_sort_desc. unfold enumerate. rewrite snd_enumerate_from.
    apply seq_NoDup. }
  rewrite <- (firstn_skipn K s) in Hd. eapply NoDup_app_remove_r; eauto.
Qed.

(** An entry of the row is returned, or every returned value is at least as
    large. *)
Lemma topk_sel_complete (row : list A) (K i : nat) (v : A) :
  nth_error row i = Some v ->
  In i (snd (topk_sel row K)) \/
  forall s, In s (fst (topk_sel row K)) -> sleb v s = true.
Proof.
  intros E. unfold topk_sel. simpl.
  assert (Hin : In (v, i) (sort_desc (enumerate row))).
  { apply in_sort_desc. unfold enumerate.
    exact (in_enumerate_from_nth row 0 i E). }
  apply In_nth_error in Hin as [j Ej].
  destruct (Nat.lt_ge_cases j K) as [Hj|Hj].
  - left. apply in_map_iff. exists (v, i). split; [reflexivity|].
    apply nth_error_In with (n := j). now rewrite nth_error_firstn, (proj2 (Nat.ltb_lt j K) Hj).
  - right. intros s Hs. apply in_map_iff in Hs as (e & <- & He).
    apply In_nth_error in He as [j' Ej'].
    rewrite nth_error_firstn in Ej'.
    destruct (Nat.ltb_spec j' K) as [Hlt|]; [|discriminate].
    change (by_score_desc e (v, i)).
    apply (@StronglySorted_nth _ _ _ (sort_desc_sorted (enumerate row)) j' j);
      [lia | exact Ej' | exact Ej].
Qed.


Lemma length_concat_plane (h w : nat) (plane : list (list A)) :
  shape2 h w plane -> length (concat plane) = h * w.
Proof. intros [Lh Hw]. now rewrite (length_concat_uniform Hw), Lh. Qed.

Lemma topk_planes_ok (scores : list (list (list (list A)))) (b c h w K : nat) :
  shape4 b c h w scores -> K <= h * w ->
  topk_planes scores K
  = Ok (map (map (fun plane => topk_sel (concat plane) K)) scores).
Proof.
  intros Hs HK. unfold topk_planes. apply mapM_map. intros s Hin.
  apply mapM_map. intros plane Hp. apply topk_ok.
  destruct Hs as [_ Hall]. rewrite Forall_forall in Hall.
  destruct (Hall s Hin) as [_ Hc]. rewrite Forall_forall in Hc.
  rewrite (length_concat_plane (Hc plane Hp)). exact HK.
Qed.

Lemma shape3_of_planes {Y : Type} (f : list (list A) -> list Y)
      (scores : list (list (list (list A)))) (b c h w K : nat) :
  shape4 b c h w scores ->
  (forall plane, shape2 h w plane -> length (f plane) = K) ->
  shape3 b c K (map (map f) scores).
Proof.
  intros [Lb Hall] Hf. split; [now rewrite length_map|].
  apply Forall_map. rewrite Forall_forall in *. intros s Hin.
  destruct (Hall s Hin) as [Lc Hp]. split; [now rewrite length_map|].
  apply Forall_map. rewrite Forall_forall in *. intros p Hpin. auto.
Qed.

Lemma get3_of_planes {Y : Type} (f : list (list A) -> list Y)
      (scores : list (list (list (list A)))) (bi ci k : nat) :
  get3 (map (map f) scores) bi ci k
  = match get2 scores bi ci with
    | Some plane => nth_error (f plane) k
    | None => None
    end.
Proof. apply get3_of_rows. Qed.

(** What [_topk_channel] returns, written with [topk_sel] per plane. *)
Lemma topk_channel_planes (scores : list (list (list (list A)))) (b c h w K : nat) :
  0 < b -> 0 < c -> 0 < h ->
  shape4 b c h w scores -> K <= h * w ->
  _topk_channel scores K
  = Ok (map (map (fun plane => fst (topk_sel (concat plane) K))) scores,
        map (map (fun plane => map (fun i => i mod (h * w))
                                   (snd (topk_sel (concat plane) K)))) scores,
        map (map (fun plane => map (fun i => of_nat (float_of_int (true_div_int (i mod (h * w)) w)))
                                   (snd (topk_sel (concat plane) K)))) scores,
        map (map (fun plane => map (fun i => of_nat (float_of_int ((i mod (h * w)) mod w)))
                                   (snd (topk_sel (concat plane) K)))) scores).
Proof.
  intros Hb Hc Hh Hs HK.
  destruct (shape4_sizes Hb Hc Hh Hs) as [E2 E3].
  unfold _topk_channel. rewrite E2, E3, (topk_planes_ok Hs HK). cbn [bind].
  repeat f_equal; rewrite !map_map; apply map_ext; intros s;
    rewrite !map_map; apply map_ext; intros plane; rewrite ?map_map; reflexivity.
Qed.

(** X1: for a heatmap of shape [batch, channels, height, width] with no empty
    axis, at most 2^24 cells per channel and K <= height * width,
    [_topk_channel] returns four tensors of
    shape [batch, channels, K]: for each channel the K scores in descending
    order, each index below height * width, each score the heatmap value of
    that channel at row index / width and column index mod width, and ys
    and xs those row and column numbers. *)
Theorem topk_channel_spec
        (scores : list (list (list (list A)))) (b c h w K : nat) :
  0 < b -> 0 < c -> 0 < h -> 0 < w ->
  shape4 b c h w scores -> K <= h * w ->
  (Z.of_nat (h * w) <= 2 ^ 24)%Z ->
  exists topk_scores topk_inds topk_ys topk_xs,
    _topk_channel scores K = Ok (topk_scores, topk_inds, topk_ys, topk_xs) /\
    shape3 b c K topk_scores /\ shape3 b c K topk_inds /\
    shape3 b c K topk_ys /\ shape3 b c K topk_xs /\
    (forall bi ci i j si sj, i < j ->
       get3 topk_scores bi ci i = Some si ->
       get3 topk_scores bi ci j = Some sj -> sleb sj si = true) /\
    (forall bi ci k ind, get3 topk_inds bi ci k = Some ind ->
       ind < h * w /\
       get3 topk_scores bi ci k = get4 scores bi ci (ind / w) (ind mod w) /\
       get3 topk_ys bi ci k = Some (of_nat (ind / w)) /\
       get3 topk_xs bi ci k = Some (of_nat (ind mod w))).
Proof.
  intros Hb Hc Hh Hw Hs HK Hcells.
  do 4 eexists. split; [exact (topk_channel_planes Hb Hc Hh Hs HK)|].
  assert (Hlen : forall plane : list (list A), shape2 h w plane -> K <= length (concat plane)).
  { intros plane Hp. now rewrite (length_concat_plane Hp). }
  split; [|split; [|split; [|split]]];
    try (eapply shape3_of_planes; [exact Hs|]; intros plane Hp;
         rewrite ?length_map; now apply topk_sel_spec, Hlen).
  split.
  - intros bi ci i j si sj Hij Gi Gj. rewrite get3_of_planes in Gi, Gj.
    destruct (get2 scores bi ci) as [plane|] eqn:Gp; [|discriminate].
    pose proof (shape4_plane _ _ Hs Gp) as Hp.
    destruct (topk_sel_spec (concat plane) (Hlen _ Hp)) as (_ & _ & Hd & _).
    exact (Hd i j si sj Hij Gi Gj).
  - intros bi ci k ind G. rewrite !get3_of_planes in *.
    rewrite get4_planes.
    destruct (get2 scores bi ci) as [plane|] eqn:Gp; [|discriminate].
    pose proof (shape4_plane _ _ Hs Gp) as Hp.
    rewrite nth_error_map in G.
    destruct (nth_error (snd (topk_sel (concat plane) K)) k) as [i0|] eqn:Ei;
      [|discriminate].
    destruct (topk_sel_spec (concat plane) (Hlen _ Hp)) as (Lv & Li & _ & Hrow).
    destruct (nth_error (fst (topk_sel (concat plane) K)) k) as [v|] eqn:Ev.
    2:{ apply nth_error_None in Ev.
        assert (k < length (snd (topk_sel (concat plane) K)))
          by (apply nth_error_Some; congruence). lia. }
    pose proof (Hrow k v i0 Ev Ei) as Hv.
    assert (Hi0 : i0 < h * w).
    { rewrite <- (length_concat_plane Hp). apply nth_error_Some. congruence. }
    simpl in G. rewrite Nat.mod_small in G by exact Hi0. inversion G; subst ind.
    split; [exact Hi0|]. split.
    + destruct Hp as [_ Hpw]. now rewrite <- (nth_error_concat i0 Hpw).
    + rewrite !nth_error_map, Ei. cbn [option_map].
      rewrite Nat.mod_small by exact Hi0.
      destruct (@f32_index_exact (h * w) i0 w Hi0 Hw ltac:(nia) Hcells)
        as (E1 & E2' & E3').
      rewrite E1, E2', E3'. auto.
Qed.

(** X2: under the same conditions the indices that [_topk_channel] returns
    for one channel are pairwise distinct, and every cell of the channel is
    either among them or holds a value that is at most every score returned
    for that channel. *)
Theorem topk_channel_keeps_largest
        (scores : list (list (list (list A)))) (b c h w K : nat) :
  0 < b -> 0 < c -> 0 < h -> 0 < w ->
  shape4 b c h w scores -> K <= h * w ->
  exists topk_scores topk_inds topk_ys topk_xs,
    _topk_channel scores K = Ok (topk_scores, topk_inds, topk_ys, topk_xs) /\
    (forall bi ci k k' ind, get3 topk_inds bi ci k = Some ind ->
       get3 topk_inds bi ci k' = Some ind -> k = k') /\
    (forall bi ci y x v, x < w -> get4 scores bi ci y x = Some v ->
       (exists k, get3 topk_inds bi ci k = Some (y * w + x)) \/
       (forall k s, get3 topk_scores bi ci k = Some s -> sleb v s = true)).
Proof.
  intros Hb Hc Hh Hw Hs HK.
  do 4 eexists. split; [exact (topk_channel_planes Hb Hc Hh Hs HK)|].
  assert (Hsmall : forall (plane : list (list A)) k i, shape2 h w plane ->
            nth_error (snd (topk_sel (concat plane) K)) k = Some i -> i < h * w).
  { intros plane k i Hp Ei.
    assert (HKp : K <= length (concat plane)) by now rewrite (length_concat_plane Hp).
    destruct (topk_sel_spec (concat plane) HKp) as (Lv & Li & _ & Hrow).
    destruct (nth_error (fst (topk_sel (concat plane) K)) k) as [v|] eqn:Ev.
    - rewrite <- (length_concat_plane Hp). apply nth_error_Some.
      rewrite (Hrow k v i Ev Ei). discriminate.
    - apply nth_error_None in Ev.
      assert (k < length (snd (topk_sel (concat plane) K)))
        by (apply nth_error_Some; congruence). lia. }
  split.
  - intros bi ci k k' ind G G'. rewrite get3_of_planes in G, G'.
    destruct (get2 scores bi ci) as [plane|] eqn:Gp; [|discriminate].
    pose proof (shape4_plane _ _ Hs Gp) as Hp.
    rewrite nth_error_map in G, G'.
    destruct (nth_error (snd (topk_sel (concat plane) K)) k) as [i0|] eqn:Ei;
      [|discriminate].
    destruct (nth_error (snd (topk_sel (concat plane) K)) k') as [i1|] eqn:Ei';
      [|discriminate].
    simpl in G, G'.
    rewrite Nat.mod_small in G by (eapply Hsmall; eauto).
    rewrite Nat.mod_small in G' by (eapply Hsmall; eauto).
    pose proof (topk_sel_nodup (concat plane) K) as Hd.
    rewrite NoDup_nth_error in Hd. apply Hd.
    + apply nth_error_Some. congruence.
    + congruence.
  - intros bi ci y x v Hx G. rewrite get4_planes in G.
    destruct (get2 scores bi ci) as [plane|] eqn:Gp; [|discriminate].
    pose proof (shape4_plane _ _ Hs Gp) as Hp.
    assert (Ec : nth_error (concat plane) (y * w + x) = Some v).
    { destruct Hp as [_ Hpw]. rewrite (nth_error_concat (y * w + x) Hpw).
      rewrite Nat.div_add_l, Nat.div_small, Nat.add_0_r by lia.
      rewrite Nat.add_comm, Nat.Div0.mod_add, Nat.mod_small by lia. exact G. }
    destruct (topk_sel_complete (concat plane) K (y * w + x) Ec) as [Hin|Hle].
    + left. apply In_nth_error in Hin as [k Ek]. exists k.
      rewrite get3_of_planes, Gp, nth_error_map, Ek. simpl.
      rewrite Nat.mod_small; [reflexivity|]. eapply Hsmall; eauto.
    + right. intros k s Gs. rewrite get3_of_planes, Gp in Gs.
      apply Hle. eapply nth_error_In; eauto.
Qed.

(** X3: on a heatmap with at least one batch item and one channel, a K
    greater than height * width makes both [_topk_channel] and [_topk]
    raise [RuntimeError]. *)
Theorem topk_raises_beyond_plane
        (scores : list (list (list (list A)))) (b c h w K : nat) :
  0 < b -> 0 < c -> shape4 b c h w scores -> h * w < K ->
  _topk_channel scores K = Raise RuntimeError /\
  _topk scores K = Raise RuntimeError.
Proof.
  intros Hb Hc Hs HK.
  assert (E : topk_planes scores K = Raise RuntimeError).
  { unfold topk_planes. destruct Hs as [Lb Hall].
    destruct scores as [|s ss]; [simpl in Lb; lia|].
    apply Forall_inv in Hall. destruct Hall as [Lc Hp].
    destruct s as [|plane ps]; [simpl in Lc; lia|].
    apply Forall_inv in Hp.
    cbn [mapM]. rewrite topk_raises; [reflexivity|].
    now rewrite (length_concat_plane Hp). }
  unfold _topk_channel, _topk. now rewrite E.
Qed.

End TopKMore.

Lemma topk_channel_spec_witness :
  exists topk_scores topk_inds topk_ys topk_xs,
    _topk_channel scores_Z 4 = Ok (topk_scores, topk_inds, topk_ys, topk_xs) /\
    shape3 1 2 4 topk_scores /\ shape3 1 2 4 topk_inds.
Proof.
  destruct (topk_channel_spec (A := Z) (scores := scores_Z) (b := 1) (c := 2) (h := 3) (w := 3) (K := 4))
    as (s & i & y & x & E & Ss & Si & _); try lia;
    [repeat (split || constructor)|].
  exists s, i, y, x. auto.
Defined.

Lemma topk_channel_keeps_largest_witness :
  exists topk_scores topk_inds topk_ys topk_xs,
    _topk_channel scores_Z 4 = Ok (topk_scores, topk_inds, topk_ys, topk_xs) /\
    forall bi ci k k' ind, get3 topk_inds bi ci k = Some ind ->
                           get3 topk_inds bi ci k' = Some ind -> k = k'.
Proof.
  destruct (topk_channel_keeps_largest (A := Z) (scores := scores_Z) (b := 1) (c := 2) (h := 3) (w := 3) (K := 4))
    as (s & i & y & x & E & Hd & _); try lia;
    [repeat (split || constructor)|].
  exists s, i, y, x. auto.
Defined.

Lemma topk_raises_beyond_plane_witness :
  _topk_channel scores_Z 10 = Raise RuntimeError /\
  _topk scores_Z 10 = Raise RuntimeError.
Proof.
  apply (topk_raises_beyond_plane (A := Z) (scores := scores_Z) (b := 1) (c := 2) (h := 3) (w := 3) (K := 10)); try lia.
  repeat (split || constructor).
Defined.

Section TopKTwoStage.
Context {A : Type} {S : Scalar A} {L : ScalarLaws A}.

Lemma topk_sel_index_bound (row : list A) (K k i : nat) :
  K <= length row ->
  nth_error (snd (topk_sel row K)) k = Some i ->
  i < length row /\ nth_error (fst (topk_sel row K)) k = nth_error row i.
Proof.
  intros HK Ei. destruct (topk_sel_spec row HK) as (Lv & Li & _ & Hrow).
  destruct (nth_error (fst (topk_sel row K)) k) as [v|] eqn:Ev.
  - rewrite (Hrow k v i Ev Ei). split; [|reflexivity].
    apply nth_error_Some. rewrite (Hrow k v i Ev Ei). discriminate.
  - apply nth_error_None in Ev.
    assert (k < length (snd (topk_sel row K)))
      by (apply nth_error_Some; congruence). lia.
Qed.

(** The two stages of [_topk] on one batch item: the per-class selection
    [rows], the ranks chosen among its [classes * K] entries, and what the
    returned tensors hold at each chosen rank, the class ids and the
    coordinates as the code computes them, in float32. *)
Lemma topk_stages_run (scores : list (list (list (list A)))) (b c h w K : nat) :
  0 < b -> 0 < c -> 0 < h -> 0 < w ->
  shape4 b c h w scores -> K <= h * w ->
  exists score inds clses ys xs,
    _topk scores K = Ok (score, inds, clses, ys, xs) /\
    shape2 b K score /\ shape2 b K inds /\ shape2 b K clses /\
    shape2 b K ys /\ shape2 b K xs /\
    forall bi s, nth_error scores bi = Some s ->
      let rows := map (fun plane => fst (topk_sel (concat plane) K)) s in
      let ranks := snd (topk_sel (concat rows) K) in
      shape2 c K rows /\
      nth_error score bi = Some (fst (topk_sel (concat rows) K)) /\
      forall k rank, nth_error ranks k = Some rank ->
        rank < c * K /\
        get2 clses bi k = Some (true_div_int rank K) /\
        exists plane ind,
          nth_error s (rank / K) = Some plane /\
          nth_error (snd (topk_sel (concat plane) K)) (rank mod K) = Some ind /\
          get2 inds bi k = Some ind /\ ind < h * w /\
          get2 ys bi k = Some (of_nat (float_of_int (true_div_int ind w))) /\
          get2 xs bi k = Some (of_nat (float_of_int (ind mod w))).
Proof.
  intros Hb Hc Hh Hw Hs HK.
  destruct (shape4_sizes Hb Hc Hh Hs) as [E2 E3].
  unfold _topk. rewrite E2, E3, (topk_planes_ok Hs HK). cbn [bind].
  set (sel := fun plane : list (list A) => topk_sel (concat plane) K).
  set (topk_scores := map (map fst) (map (map sel) scores)).
  set (topk_inds := map (map (map (fun i => i mod (h * w))))
                        (map (map snd) (map (map sel) scores))).
  set (sel2 := fun rows : list (list A) => topk_sel (concat rows) K).
  assert (Ets : topk_scores = map (map (fun plane => fst (sel plane))) scores).
  { unfold topk_scores. rewrite map_map. apply map_ext. intros s.
    now rewrite map_map. }
  assert (Eti : topk_inds
                = map (map (fun plane => map (fun i => i mod (h * w))
                                             (snd (sel plane)))) scores).
  { unfold topk_inds. rewrite !map_map. apply map_ext. intros s.
    now rewrite !map_map. }
  assert (Hlen : forall plane : list (list A),
            shape2 h w plane -> K <= length (concat plane)).
  { intros plane Hp. now rewrite (length_concat_plane Hp). }
  assert (Sscores : shape3 b c K topk_scores).
  { rewrite Ets. eapply shape3_of_planes; [exact Hs|]. intros plane Hp.
    now apply topk_sel_spec, Hlen. }
  assert (Sinds : shape3 b c K topk_inds).
  { rewrite Eti. eapply shape3_of_planes; [exact Hs|]. intros plane Hp.
    rewrite length_map. now apply topk_sel_spec, Hlen. }
  assert (Hrows2 : forall bi rows, nth_error topk_scores bi = Some rows ->
            shape2 c K rows /\ length (concat rows) = c * K).
  { intros bi rows E. destruct Sscores as [_ Hall]. rewrite Forall_forall in Hall.
    pose proof (Hall rows (nth_error_In _ _ E)) as Hr.
    split; [exact Hr | now apply length_concat_plane]. }
  assert (E2' : mapM (fun rows => topk (concat rows) K) topk_scores
                = Ok (map sel2 topk_scores)).
  { apply mapM_map. intros rows Hin. apply topk_ok.
    apply In_nth_error in Hin as [bi E].
    destruct (Hrows2 bi rows E) as [_ ->]. nia. }
  rewrite E2'. cbn [bind].
  set (topk_ind := map snd (map sel2 topk_scores)).
  assert (Sind : shape2 b K topk_ind).
  { unfold topk_ind. split.
    - rewrite !length_map. now destruct Sscores.
    - apply Forall_map, Forall_map, Forall_forall. intros rows Hin.
      apply In_nth_error in Hin as [bi E].
      destruct (Hrows2 bi rows E) as [_ Lc].
      apply topk_sel_spec. rewrite Lc. nia. }
  assert (Hrange : forall bi k i, get2 topk_ind bi k = Some i -> i < c * K).
  { intros bi k i G. unfold get2, topk_ind in G. rewrite !nth_error_map in G.
    destruct (nth_error topk_scores bi) as [rows|] eqn:E; [|discriminate].
    simpl in G. destruct (Hrows2 bi rows E) as [_ Lc].
    rewrite <- Lc. eapply topk_sel_index_bound; [|exact G]. rewrite Lc. nia. }
  destruct (@gather_column _ topk_inds topk_ind b c K Sinds Sind Hrange)
    as (g_inds & Eg1 & Sg1 & Hg1).
  destruct (@gather_column _ _ topk_ind b c K
              (@shape3_map3 _ _ (fun i => of_nat (float_of_int (true_div_int i w))) _ _ _ _ Sinds)
              Sind Hrange) as (g_ys & Eg2 & Sg2 & Hg2).
  destruct (@gather_column _ _ topk_ind b c K
              (@shape3_map3 _ _ (fun i => of_nat (float_of_int (i mod w))) _ _ _ _ Sinds)
              Sind Hrange) as (g_xs & Eg3 & Sg3 & Hg3).
  fold topk_ind. rewrite Eg1. cbn [bind]. rewrite Eg2. cbn [bind].
  rewrite Eg3. cbn [bind].
  do 5 eexists. split; [reflexivity|].
  split.
  { destruct Sscores as [Lb _]. split; [now rewrite !length_map|].
    apply Forall_map, Forall_map, Forall_forall. intros rows Hin.
    apply In_nth_error in Hin as [bi E]. destruct (Hrows2 bi rows E) as [_ Lc].
    apply topk_sel_spec. rewrite Lc. nia. }
  split; [exact Sg1|]. split; [now apply shape2_map2|].
  split; [exact Sg2|]. split; [exact Sg3|].
  intros bi s Es.
  set (rows := map (fun plane => fst (topk_sel (concat plane) K)) s).
  assert (Erows : nth_error topk_scores bi = Some rows).
  { rewrite Ets, nth_error_map, Es. reflexivity. }
  destruct (Hrows2 bi rows Erows) as [Sr Lc].
  split; [exact Sr|]. split.
  { rewrite !nth_error_map, Erows. reflexivity. }
  intros k rank Ek.
  assert (Gr : get2 topk_ind bi k = Some rank).
  { unfold get2, topk_ind. rewrite !nth_error_map, Erows. exact Ek. }
  pose proof (Hrange bi k rank Gr) as Hlt.
  split; [exact Hlt|]. split.
  { rewrite get2_map_map, Gr. reflexivity. }
  assert (HKpos : 0 < K) by (destruct K; [lia | lia]).
  assert (Hq : rank / K < c) by (apply Nat.Div0.div_lt_upper_bound; nia).
  assert (Hm : rank mod K < K) by (apply Nat.mod_upper_bound; lia).
  assert (Ls : length s = c).
  { destruct Hs as [_ Hall]. rewrite Forall_forall in Hall.
    now destruct (Hall s (nth_error_In _ _ Es)). }
  destruct (nth_error s (rank / K)) as [plane|] eqn:Ep;
    [|apply nth_error_None in Ep; lia].
  assert (Gp : get2 scores bi (rank / K) = Some plane).
  { unfold get2. now rewrite Es. }
  pose proof (shape4_plane _ _ Hs Gp) as Hp.
  destruct (topk_sel_spec (concat plane) (Hlen _ Hp)) as (_ & Li & _ & _).
  destruct (nth_error (snd (topk_sel (concat plane) K)) (rank mod K))
    as [ind|] eqn:Ei; [|apply nth_error_None in Ei; lia].
  exists plane, ind. split; [reflexivity|]. split; [exact Ei|].
  assert (Hind : ind < h * w).
  { rewrite <- (length_concat_plane Hp).
    eapply topk_sel_index_bound; [|exact Ei]. now apply Hlen. }
  assert (G3 : get3 topk_inds bi (rank / K) (rank mod K) = Some ind).
  { rewrite Eti, get3_of_planes, Gp, nth_error_map.
    unfold sel. rewrite Ei. simpl. f_equal. now apply Nat.mod_small. }
  split; [now rewrite (Hg1 bi k rank Gr)|]. split; [exact Hind|]. split.
  - rewrite (Hg2 bi k rank Gr), get3_map3, G3. reflexivity.
  - rewrite (Hg3 bi k rank Gr), get3_map3, G3. reflexivity.
Qed.

(** The same on a heatmap of at most 2^24 cells per batch item, where the
    float32 quotients are the integer quotients. *)
Lemma topk_stages (scores : list (list (list (list A)))) (b c h w K : nat) :
  0 < b -> 0 < c -> 0 < h -> 0 < w ->
  shape4 b c h w scores -> K <= h * w ->
  (Z.of_nat (c * h * w) <= 2 ^ 24)%Z ->
  exists score inds clses ys xs,
    _topk scores K = Ok (score, inds, clses, ys, xs) /\
    shape2 b K score /\ shape2 b K inds /\ shape2 b K clses /\
    shape2 b K ys /\ shape2 b K xs /\
    forall bi s, nth_error scores bi = Some s ->
      let rows := map (fun plane => fst (topk_sel (concat plane) K)) s in
      let ranks := snd (topk_sel (concat rows) K) in
      shape2 c K rows /\
      nth_error score bi = Some (fst (topk_sel (concat rows) K)) /\
      forall k rank, nth_error ranks k = Some rank ->
        rank < c * K /\
        get2 clses bi k = Some (rank / K) /\
        exists plane ind,
          nth_error s (rank / K) = Some plane /\
          nth_error (snd (topk_sel (concat plane) K)) (rank mod K) = Some ind /\
          get2 inds bi k = Some ind /\ ind < h * w /\
          get2 ys bi k = Some (of_nat (ind / w)) /\
          get2 xs bi k = Some (of_nat (ind mod w)).
Proof.
  intros Hb Hc Hh Hw Hs HK Hcells.
  destruct (cells_bound h w Hc HK Hcells) as [Hplane Hranks].
  destruct (topk_stages_run Hb Hc Hh Hw Hs HK)
    as (score & inds & clses & ys & xs & E & S1 & S2 & S3 & S4 & S5 & Hst).
  exists score, inds, clses, ys, xs.
  repeat (split; [assumption|]).
  intros bi s Es. cbv zeta.
  destruct (Hst bi s Es) as (Sr & Esc & Hk).
  split; [exact Sr|]. split; [exact Esc|].
  intros k rank Er.
  destruct (Hk k rank Er)
    as (Hlt & Gc & plane & ind & Ep & Ei & Gi & Hi & Gy & Gx).
  assert (HK0 : 0 < K) by (destruct K; [simpl in Hlt; lia | lia]).
  destruct (@f32_index_exact (c * K) rank K Hlt HK0 ltac:(nia) Hranks)
    as (Ec & _ & _).
  destruct (@f32_index_exact (h * w) ind w Hi Hw ltac:(nia) Hplane)
    as (Ey & Ey' & Ex).
  rewrite Ec in Gc. rewrite Ey, Ey' in Gy. rewrite Ex in Gx.
  split; [exact Hlt|]. split; [exact Gc|].
  exists plane, ind. repeat (split; [assumption|]). exact Gx.
Qed.

Lemma div_mod_block (K ci r : nat) :
  r < K -> (ci * K + r) / K = ci /\ (ci * K + r) mod K = r.
Proof.
  intros Hr. split.
  - rewrite Nat.div_add_l, Nat.div_small, Nat.add_0_r by lia. reflexivity.
  - rewrite Nat.add_comm, Nat.Div0.mod_add, Nat.mod_small by lia. reflexivity.
Qed.

(** X4: on a heatmap with no empty axis, at most 2^24 cells per batch item
    and K <= height * width, [_topk] returns no cell twice: within a batch
    item two positions that carry the same class and the same flat index
    are the same position. *)
Theorem topk_returns_distinct_cells
        (scores : list (list (list (list A)))) (b c h w K : nat) :
  0 < b -> 0 < c -> 0 < h -> 0 < w ->
  shape4 b c h w scores -> K <= h * w ->
  (Z.of_nat (c * h * w) <= 2 ^ 24)%Z ->
  exists score inds clses ys xs,
    _topk scores K = Ok (score, inds, clses, ys, xs) /\
    forall bi k k' cl ind,
      get2 clses bi k = Some cl -> get2 inds bi k = Some ind ->
      get2 clses bi k' = Some cl -> get2 inds bi k' = Some ind ->
      k = k'.
Proof.
  intros Hb Hc Hh Hw Hs HK Hcells.
  destruct (topk_stages Hb Hc Hh Hw Hs HK Hcells)
    as (score & inds & clses & ys & xs & E & Ss & Si & Sc & _ & _ & Hst).
  exists score, inds, clses, ys, xs. split; [exact E|].
  intros bi k k' cl ind Gc Gi Gc' Gi'.
  destruct (get2_Some_lt _ _ Sc Gc) as [Hbi Hk].
  destruct (get2_Some_lt _ _ Sc Gc') as [_ Hk'].
  destruct (nth_error scores bi) as [s|] eqn:Es;
    [|apply nth_error_None in Es; destruct Hs; lia].
  destruct (Hst bi s Es) as (Sr & _ & Hrank).
  set (rows := map (fun plane => fst (topk_sel (concat plane) K)) s) in *.
  assert (HKr : K <= length (concat rows)).
  { rewrite (length_concat_plane Sr). nia. }
  destruct (topk_sel_spec (concat rows) HKr) as (_ & Lr & _ & _).
  destruct (nth_error (snd (topk_sel (concat rows) K)) k) as [rank|] eqn:Ek;
    [|apply nth_error_None in Ek; lia].
  destruct (nth_error (snd (topk_sel (concat rows) K)) k') as [rank'|] eqn:Ek';
    [|apply nth_error_None in Ek'; lia].
  destruct (Hrank k rank Ek) as (Hlt & Gck & plane & i & Ep & Ei & Gik & _).
  destruct (Hrank k' rank' Ek') as (Hlt' & Gck' & plane' & i' & Ep' & Ei' & Gik' & _).
  assert (Eq : rank / K = rank' / K) by congruence.
  assert (plane' = plane) by congruence. subst plane'.
  assert (i = i') by congruence. subst i'.
  pose proof (topk_sel_nodup (concat plane) K) as Hd.
  rewrite NoDup_nth_error in Hd.
  assert (Em : rank mod K = rank' mod K).
  { apply Hd; [apply nth_error_Some|]; congruence. }
  assert (rank = rank').
  { rewrite (Nat.div_mod_eq rank K), (Nat.div_mod_eq rank' K). congruence. }
  subst rank'.
  pose proof (topk_sel_nodup (concat rows) K) as Hd2.
  rewrite NoDup_nth_error in Hd2. apply Hd2; [apply nth_error_Some|]; congruence.
Qed.

(** X5: on a heatmap with no empty axis, at most 2^24 cells per batch item
    and K <= height * width, [_topk] returns the K best cells over all
    classes: every cell of a batch item is either returned (its class and
    its flat index row * width + column appear together at some position)
    or holds a value that is at most every returned score of that batch
    item. *)
Theorem topk_keeps_largest
        (scores : list (list (list (list A)))) (b c h w K : nat) :
  0 < b -> 0 < c -> 0 < h -> 0 < w ->
  shape4 b c h w scores -> K <= h * w ->
  (Z.of_nat (c * h * w) <= 2 ^ 24)%Z ->
  exists score inds clses ys xs,
    _topk scores K = Ok (score, inds, clses, ys, xs) /\
    forall bi ci y x v, x < w -> get4 scores bi ci y x = Some v ->
      (exists k, get2 clses bi k = Some ci /\
                 get2 inds bi k = Some (y * w + x)) \/
      (forall k s, get2 score bi k = Some s -> sleb v s = true).
Proof.
  intros Hb Hc Hh Hw Hs HK Hcells.
  destruct (topk_stages Hb Hc Hh Hw Hs HK Hcells)
    as (score & inds & clses & ys & xs & E & Ss & Si & Sc & _ & _ & Hst).
  exists score, inds, clses, ys, xs. split; [exact E|].
  intros bi ci y x v Hx G.
  destruct K as [|K'].
  { right. intros k s Gs. destruct (get2_Some_lt _ _ Ss Gs). lia. }
  set (K := Datatypes.S K') in *.
  assert (HKpos : 0 < K) by (unfold K; lia).
  unfold get4 in G. destruct (nth_error scores bi) as [s|] eqn:Es; [|discriminate].
  unfold get3 in G. destruct (nth_error s ci) as [plane|] eqn:Ep; [|discriminate].
  assert (Gp : get2 scores bi ci = Some plane) by (unfold get2; now rewrite Es).
  pose proof (shape4_plane _ _ Hs Gp) as Hp.
  assert (HKp : K <= length (concat plane)) by now rewrite (length_concat_plane Hp).
  assert (Ec : nth_error (concat plane) (y * w + x) = Some v).
  { destruct Hp as [_ Hpw]. rewrite (nth_error_concat (y * w + x) Hpw).
    destruct (div_mod_block y Hx) as [-> ->]. exact G. }
  destruct (Hst bi s Es) as (Sr & Escore & Hrank).
  set (rows := map (fun plane => fst (topk_sel (concat plane) K)) s) in *.
  assert (HKr : K <= length (concat rows)).
  { rewrite (length_concat_plane Sr). nia. }
  assert (Hflat : forall r, r < K ->
            nth_error (concat rows) (ci * K + r)
            = nth_error (fst (topk_sel (concat plane) K)) r).
  { intros r Hr. destruct Sr as [_ HrK].
    rewrite (nth_error_concat (ci * K + r) HrK).
    destruct (div_mod_block ci Hr) as [-> ->].
    unfold get2, rows. now rewrite nth_error_map, Ep. }
  assert (Hscore : forall k s0, get2 score bi k = Some s0 ->
            In s0 (fst (topk_sel (concat rows) K))).
  { intros k s0 Gs. unfold get2 in Gs. rewrite Escore in Gs.
    eapply nth_error_In; eauto. }
  assert (Hstage2 : forall r e, r < K ->
            nth_error (fst (topk_sel (concat plane) K)) r = Some e ->
            In (ci * K + r) (snd (topk_sel (concat rows) K)) \/
            forall s0, In s0 (fst (topk_sel (concat rows) K)) -> sleb e s0 = true).
  { intros r e Hr Ee. apply topk_sel_complete. now rewrite Hflat. }
  destruct (topk_sel_spec (concat plane) HKp) as (Lv & Li & _ & _).
  destruct (topk_sel_spec (concat rows) HKr) as (Lv2 & Li2 & _ & _).
  destruct (topk_sel_complete (concat plane) K (y * w + x) Ec) as [Hin|Hle].
  - apply In_nth_error in Hin as [r Er].
    assert (Hr : r < K) by (rewrite <- Li; apply nth_error_Some; congruence).
    destruct (@topk_sel_index_bound (concat plane) K r _ HKp Er) as [_ Ev].
    rewrite Ec in Ev.
    destruct (Hstage2 r v Hr Ev) as [Hin2|Hle2].
    + left. apply In_nth_error in Hin2 as [k Ek]. exists k.
      destruct (Hrank k _ Ek) as (_ & Gc & plane' & i & Ep' & Ei & Gi & _).
      destruct (div_mod_block ci Hr) as [Eq Em]. rewrite Eq in *. rewrite Em in *.
      split; [exact Gc|]. congruence.
    + right. intros k s0 Gs. eapply Hle2, Hscore; eauto.
  - destruct (Forall_Exists_dec
                (fun p => In p (snd (topk_sel (concat rows) K)))
                (fun p => in_dec Nat.eq_dec p (snd (topk_sel (concat rows) K)))
                (seq (ci * K) K)) as [Hall|Hex].
    + right. intros k s0 Gs.
      assert (Hincl : incl (snd (topk_sel (concat rows) K)) (seq (ci * K) K)).
      { apply NoDup_length_incl; [apply seq_NoDup | rewrite length_seq; lia |].
        intros p Hp'. rewrite Forall_forall in Hall. auto. }
      destruct (get2_Some_lt _ _ Ss Gs) as [_ Hk].
      unfold get2 in Gs. rewrite Escore in Gs.
      destruct (nth_error (snd (topk_sel (concat rows) K)) k) as [rank|] eqn:Ek;
        [|apply nth_error_None in Ek; lia].
      destruct (@topk_sel_index_bound (concat rows) K k _ HKr Ek) as [_ Ev].
      pose proof (Hincl rank (nth_error_In _ _ Ek)) as Hin. apply in_seq in Hin.
      replace rank with (ci * K + (rank - ci * K)) in Ev by lia.
      rewrite Hflat in Ev by lia. apply Hle.
      eapply nth_error_In. rewrite <- Ev. exact Gs.
    + right. intros k s0 Gs. apply Exists_exists in Hex as (p & Hp' & Hnot).
      apply in_seq in Hp'.
      destruct (nth_error (fst (topk_sel (concat plane) K)) (p - ci * K))
        as [e|] eqn:Ee; [|apply nth_error_None in Ee; lia].
      destruct (Hstage2 (p - ci * K) e) as [Hin2|Hle2]; [lia | exact Ee | |].
      * exfalso. apply Hnot. now replace p with (ci * K + (p - ci * K)) by lia.
      * eapply sleb_trans; [apply Hle; eapply nth_error_In; eauto|].
        eapply Hle2, Hscore; eauto.
Qed.

End TopKTwoStage.

Section TopKCoordinates.
Context {A : Type} {S : Scalar A} {L : ScalarLaws A}.

(** What [_topk] returns besides the scores: every index is a flat position
    of the plane, and ys and xs are its row and its column as the code
    computes them, in float32. *)
Lemma topk_coordinates (scores : list (list (list (list A)))) (b c h w K : nat) :
  0 < b -> 0 < c -> 0 < h -> 0 < w ->
  shape4 b c h w scores -> K <= h * w ->
  exists score inds clses ys xs,
    _topk scores K = Ok (score, inds, clses, ys, xs) /\
    shape2 b K score /\ shape2 b K inds /\ shape2 b K clses /\
    shape2 b K ys /\ shape2 b K xs /\
    forall bi k ind, get2 inds bi k = Some ind ->
      ind < h * w /\
      get2 ys bi k = Some (of_nat (float_of_int (true_div_int ind w))) /\
      get2 xs bi k = Some (of_nat (float_of_int (ind mod w))).
Proof.
  intros Hb Hc Hh Hw Hs HK.
  destruct (topk_stages_run Hb Hc Hh Hw Hs HK)
    as (score & inds & clses & ys & xs & E & Ss & Si & Sc & Sy & Sx & Hst).
  exists score, inds, clses, ys, xs.
  split; [exact E|]. repeat (split; [assumption|]).
  intros bi k ind G.
  destruct (get2_Some_lt _ _ Si G) as [Hbi Hk].
  destruct (nth_error scores bi) as [s|] eqn:Es;
    [|apply nth_error_None in Es; destruct Hs; lia].
  destruct (Hst bi s Es) as (Sr & _ & Hrank).
  set (rows := map (fun plane => fst (topk_sel (concat plane) K)) s) in *.
  assert (HKr : K <= length (concat rows)).
  { rewrite (length_concat_plane Sr). nia. }
  destruct (topk_sel_spec (concat rows) HKr) as (_ & Lr & _ & _).
  destruct (nth_error (snd (topk_sel (concat rows) K)) k) as [rank|] eqn:Ek;
    [|apply nth_error_None in Ek; lia].
  destruct (Hrank k rank Ek) as (_ & _ & plane & i & _ & _ & Gi & Hi & Gy & Gx).
  assert (i = ind) by congruence. subst i. auto.
Qed.

End TopKCoordinates.

Lemma topk_returns_distinct_cells_witness :
  exists score inds clses ys xs,
    _topk scores_Z 4 = Ok (score, inds, clses, ys, xs) /\
    forall bi k k' cl ind,
      get2 clses bi k = Some cl -> get2 inds bi k = Some ind ->
      get2 clses bi k' = Some cl -> get2 inds bi k' = Some ind ->
      k = k'.
Proof.
  apply (topk_returns_distinct_cells (A := Z) (scores := scores_Z) (b := 1) (c := 2) (h := 3) (w := 3) (K := 4)); try lia.
  repeat (split || constructor).
Defined.

Lemma topk_keeps_largest_witness :
  exists score inds clses ys xs,
    _topk scores_Z 4 = Ok (score, inds, clses, ys, xs) /\
    forall bi ci y x v, x < 3 -> get4 scores_Z bi ci y x = Some v ->
      (exists k, get2 clses bi k = Some ci /\
                 get2 inds bi k = Some (y * 3 + x)) \/
      (forall k s, get2 score bi k = Some s -> sleb v s = true).
Proof.
  apply (topk_keeps_largest (A := Z) (scores := scores_Z) (b := 1) (c := 2) (h := 3) (w := 3) (K := 4)); try lia.
  repeat (split || constructor).
Defined.

(** ** Peak suppression with other kernels *)

Section NMSKernels.
Context {A : Type} {S : Scalar A} {L : ScalarLaws A}.

Lemma in_window_any (p : list (list A)) (k : nat) (pad : Z) (i j : nat)
      (c : option A) :
  In c (window p k pad i j) <->
  exists di dj, di < k /\ dj < k /\
    c = at2 p (Z.of_nat i + Z.of_nat di - pad) (Z.of_nat j + Z.of_nat dj - pad).
Proof.
  unfold window. rewrite in_flat_map. split.
  - intros (di & Hdi & Hc). apply in_map_iff in Hc as (dj & Hc & Hdj).
    apply in_seq in Hdi, Hdj. exists di, dj. repeat split; try lia. now symmetry.
  - intros (di & dj & Hdi & Hdj & Hc). exists di. split; [apply in_seq; lia|].
    apply in_map_iff. exists dj. split; [now symmetry | apply in_seq; lia].
Qed.

(** The cells of an odd window that are not padding are the cells of the
    plane at distance at most [m] on each axis. *)
Lemma window_within (p : list (list A)) (m i j : nat) (y : A) :
  In (Some y) (window p (2 * m + 1) (Z.of_nat m) i j) <->
  exists i' j', i' <= i + m /\ i <= i' + m /\ j' <= j + m /\ j <= j' + m /\
                get2 p i' j' = Some y.
Proof.
  rewrite in_window_any. split.
  - intros (di & dj & Hdi & Hdj & E). symmetry in E.
    apply at2_Some in E as (i' & j' & Ei & Ej & G).
    exists i', j'. repeat split; [lia | lia | lia | lia | exact G].
  - intros (i' & j' & Hi1 & Hi2 & Hj1 & Hj2 & G).
    exists (i' + m - i), (j' + m - j).
    split; [lia|]. split; [lia|].
    replace (Z.of_nat i + Z.of_nat (i' + m - i) - Z.of_nat m)%Z
      with (Z.of_nat i') by lia.
    replace (Z.of_nat j + Z.of_nat (j' + m - j) - Z.of_nat m)%Z
      with (Z.of_nat j') by lia.
    now rewrite at2_of_nat.
Qed.

Lemma window_max_within (p : list (list A)) (m i j : nat) (x : A) :
  get2 p i j = Some x ->
  exists mx,
    window_max p (2 * m + 1) (Z.of_nat m) i j = Some mx /\
    (forall i' j' z, i' <= i + m -> i <= i' + m -> j' <= j + m -> j <= j' + m ->
                     get2 p i' j' = Some z -> sleb z mx = true) /\
    (exists i' j', i' <= i + m /\ i <= i' + m /\ j' <= j + m /\ j <= j' + m /\
                   get2 p i' j' = Some mx).
Proof.
  intros G. unfold window_max.
  destruct (fold_right omax None (window p (2 * m + 1) (Z.of_nat m) i j))
    as [mx|] eqn:E.
  - exists mx. split; [reflexivity|].
    apply fold_omax_Some in E as [Hin Hmax]. split.
    + intros i' j' z H1 H2 H3 H4 Gz. apply Hmax, window_within.
      exists i', j'. auto.
    + now apply window_within.
  - exfalso. apply (fold_omax_None _ E x), window_within.
    exists i, j. repeat split; try lia. exact G.
Qed.

Lemma half_odd (m : nat) : (2 * m + 1) / 2 = m /\ (2 * m + 1 - 1) / 2 = m.
Proof.
  split; symmetry.
  - apply Nat.div_unique with (r := 1); lia.
  - apply Nat.div_unique with (r := 0); lia.
Qed.

Lemma half_even (m : nat) : (2 * m + 2) / 2 = m + 1 /\ (2 * m + 2 - 1) / 2 = m.
Proof.
  split; symmetry.
  - apply Nat.div_unique with (r := 0); lia.
  - apply Nat.div_unique with (r := 1); lia.
Qed.

Lemma get2_in_shape2 h w (p : list (list A)) (i j : nat) :
  shape2 h w p -> i < h -> j < w -> exists x, get2 p i j = Some x.
Proof.
  intros Hs Hi Hj. unfold get2.
  destruct (nth_error p i) as [r|] eqn:Er.
  - pose proof (shape2_row _ Hs Er) as Hr.
    destruct (nth_error r j) eqn:Ej; [eauto|].
    apply nth_error_None in Ej. lia.
  - apply nth_error_None in Er. destruct Hs. lia.
Qed.

(** [max_pool2d] with an odd kernel and the padding that [_nms] gives it. *)
Lemma max_pool2d_odd h w (p : list (list A)) (m : nat) :
  shape2 h w p ->
  max_pool2d (2 * m + 1) m p
  = Ok (map (fun i =>
               map (fun j =>
                      match window_max p (2 * m + 1) (Z.of_nat m) i j with
                      | Some v => v
                      | None => szero
                      end) (seq 0 w)) (seq 0 h)).
Proof.
  intros Hs. unfold max_pool2d.
  destruct (half_odd m) as [Ehalf _]. rewrite Ehalf.
  destruct (Nat.eqb_spec (2 * m + 1) 0) as [|_]; [lia|].
  rewrite Nat.ltb_irrefl. cbn [orb].
  replace (length p + 2 * m + 1 - (2 * m + 1)) with h by (destruct Hs; lia).
  destruct p as [|r0 t] eqn:Ep.
  { destruct Hs as [Hh _]. simpl in Hh. subst h. reflexivity. }
  rewrite <- Ep in *.
  assert (Hw : width2 p = w) by (apply (shape2_width2 Hs); congruence).
  replace (width2 p + 2 * m + 1 - (2 * m + 1)) with w by lia.
  apply mapM_map. intros i Hi. apply in_seq in Hi.
  apply mapM_map. intros j Hj. apply in_seq in Hj.
  destruct (@get2_in_shape2 h w p i j Hs) as [x G]; [lia | lia |].
  destruct (window_max_within p m i j G) as (mx & E & _). now rewrite E.
Qed.

Lemma keep_of_pool (F : nat -> nat -> A) h w (p : list (list A)) :
  shape2 h w p ->
  ew2 keep_of (map (fun i => map (fun j => F i j) (seq 0 w)) (seq 0 h)) p
  = Ok (imap (fun i r => imap (fun j x => keep_of (F i j) x) r) p).
Proof.
  intros [Hh Hw]. unfold imap, ew2.
  rewrite bzip_same_length by (rewrite length_map, length_seq; congruence).
  rewrite <- Hh. apply zipM_seq_imap. intros i r Hr. simpl.
  assert (Hlen : length r = w)
    by (rewrite Forall_forall in Hw; apply Hw; eapply nth_error_In; eauto).
  unfold ew1. rewrite bzip_same_length
    by (rewrite length_map, length_seq; congruence).
  rewrite <- Hlen. apply zipM_seq_imap. reflexivity.
Qed.

Lemma mul_by_keep (F : nat -> nat -> A) (p : list (list A)) :
  ew2 smul p (imap (fun i r => imap (fun j x => keep_of (F i j) x) r) p)
  = Ok (imap (fun i r => imap (fun j x => smul x (keep_of (F i j) x)) r) p).
Proof.
  unfold imap, ew2.
  rewrite bzip_same_length by (now rewrite imap_from_length).
  apply zipM_imap_r. intros i r Hr. simpl.
  unfold ew1. rewrite bzip_same_length by (now rewrite imap_from_length).
  apply zipM_imap_r. reflexivity.
Qed.

(** Whatever the kernel, once the pooled planes are known the suppression
    is a plane-wise, cell-wise map. *)
Lemma nms_with_pool (F : list (list A) -> nat -> nat -> A) (k b c h w : nat)
      (heat : list (list (list (list A)))) :
  shape4 b c h w heat ->
  (forall p, shape2 h w p ->
             max_pool2d k ((k - 1) / 2) p
             = Ok (map (fun i => map (fun j => F p i j) (seq 0 w)) (seq 0 h))) ->
  _nms heat k
  = Ok (map (map (fun p => imap (fun i r =>
                                   imap (fun j x => smul x (keep_of (F p i j) x)) r)
                                p)) heat).
Proof.
  intros [Hb Hall] Hpool. rewrite Forall_forall in Hall.
  unfold _nms.
  assert (Hplane : forall s p, In s heat -> In p s -> shape2 h w p).
  { intros s p Hs Hp. destruct (Hall s Hs) as [_ Hc].
    rewrite Forall_forall in Hc. auto. }
  rewrite (mapM_map _ (map (fun p => map (fun i => map (fun j => F p i j) (seq 0 w))
                                         (seq 0 h)))).
  2:{ intros s Hs. apply mapM_map. intros p Hp. apply Hpool. eauto. }
  cbn [bind]. unfold ew4 at 1.
  rewrite (bzip_map_l _ _
             (map (fun p => imap (fun i r => imap (fun j x => keep_of (F p i j) x) r)
                                 p))).
  2:{ intros s Hs. unfold ew3. apply bzip_map_l. intros p Hp.
      apply keep_of_pool. eauto. }
  cbn [bind]. unfold ew4. apply bzip_map_r. intros s Hs.
  unfold ew3. apply bzip_map_r. intros p Hp. apply mul_by_keep.
Qed.

Lemma get2_imap2 {X Y : Type} (g : nat -> nat -> X -> Y) (p : list (list X))
      (i j : nat) :
  get2 (imap (fun i r => imap (fun j x => g i j x) r) p) i j
  = option_map (g i j) (get2 p i j).
Proof.
  unfold get2. rewrite nth_error_imap.
  destruct (nth_error p i) as [r|]; simpl; [|reflexivity].
  apply nth_error_imap.
Qed.

Lemma shape2_imap2 {X Y : Type} (g : nat -> nat -> X -> Y) h w
      (p : list (list X)) :
  shape2 h w p -> shape2 h w (imap (fun i r => imap (fun j x => g i j x) r) p).
Proof.
  intros [Hh Hw]. unfold imap. split.
  - now rewrite imap_from_length.
  - apply Forall_forall. intros r Hr.
    apply In_nth_error in Hr as [i Hi].
    rewrite nth_error_imap_from in Hi.
    destruct (nth_error p i) as [r0|] eqn:E; [|discriminate].
    inversion Hi; subst. rewrite imap_from_length.
    rewrite Forall_forall in Hw. apply Hw. eapply nth_error_In; eauto.
Qed.

Lemma shape4_map_planes {X Y : Type} (G : list (list X) -> list (list Y))
      b c h w (heat : list (list (list (list X)))) :
  (forall p, shape2 h w p -> shape2 h w (G p)) ->
  shape4 b c h w heat -> shape4 b c h w (map (map G) heat).
Proof.
  intros HG [Hb Hall]. split; [now rewrite length_map|].
  apply Forall_map. eapply Forall_impl; [|exact Hall].
  intros s [Hc Hp]. split; [now rewrite length_map|].
  apply Forall_map. eapply Forall_impl; [|exact Hp].
  intros p. apply HG.
Qed.

(** X6: for every odd kernel 2 m + 1, [_nms] returns a heatmap of the shape
    of its input in which every cell keeps its value or becomes 0: it keeps
    its value when no cell of its channel within distance m on both axes is
    larger, and becomes 0 when one is. *)
Theorem nms_odd_kernel
        (heat : list (list (list (list A)))) (b c h w m : nat) :
  shape4 b c h w heat ->
  exists out,
    _nms heat (2 * m + 1) = Ok out /\ shape4 b c h w out /\
    forall bi ci i j x,
      get4 heat bi ci i j = Some x ->
      exists y,
        get4 out bi ci i j = Some y /\
        (y = x \/ y = szero) /\
        ((forall i' j' z,
             i' <= i + m -> i <= i' + m -> j' <= j + m -> j <= j' + m ->
             get4 heat bi ci i' j' = Some z -> sleb z x = true) -> y = x) /\
        ((exists i' j' z,
             i' <= i + m /\ i <= i' + m /\ j' <= j + m /\ j <= j' + m /\
             get4 heat bi ci i' j' = Some z /\ sleb z x = false) -> y = szero).
Proof.
  intros Hs.
  set (F := fun (p : list (list A)) i j =>
              match window_max p (2 * m + 1) (Z.of_nat m) i j with
              | Some v => v
              | None => szero
              end).
  eexists. split.
  { apply (@nms_with_pool F (2 * m + 1) b c h w heat Hs).
    intros p Hp. destruct (half_odd m) as [_ ->]. now apply max_pool2d_odd. }
  split.
  { apply shape4_map_planes; [|exact Hs]. intros p. apply shape2_imap2. }
  intros bi ci i j x G. rewrite get4_planes in G.
  destruct (get2 heat bi ci) as [p|] eqn:Gp; [|discriminate].
  destruct (window_max_within p m i j G) as (mx & E & Hmax & (i0 & j0 & W1 & W2 & W3 & W4 & G0)).
  assert (EF : F p i j = mx) by (unfold F; now rewrite E).
  exists (smul x (keep_of mx x)). split.
  { rewrite get4_planes, get2_map_map, Gp. cbn [option_map].
    rewrite get2_imap2, G. cbn [option_map]. now rewrite EF. }
  split.
  { unfold keep_of. destruct (seqb mx x); [left; apply smul_one | right; apply smul_zero]. }
  split.
  - intros Hdom.
    assert (Emx : mx = x).
    { apply sleb_antisym.
      - apply (Hdom i0 j0); auto. now rewrite get4_planes, Gp.
      - apply (Hmax i j); auto; lia. }
    rewrite Emx. unfold keep_of. rewrite (proj2 (seqb_iff x x) eq_refl).
    apply smul_one.
  - intros (i' & j' & z & H1 & H2 & H3 & H4 & Gz & Hz).
    rewrite get4_planes, Gp in Gz.
    unfold keep_of. destruct (seqb mx x) eqn:Q; [|apply smul_zero].
    apply seqb_iff in Q. rewrite Q in Hmax.
    rewrite (Hmax i' j' z H1 H2 H3 H4 Gz) in Hz. discriminate.
Qed.

(** X7: with kernel 1 every cell is its own window, and [_nms] returns the
    heatmap unchanged. *)
Theorem nms_kernel_one_is_identity
        (heat : list (list (list (list A)))) (b c h w : nat) :
  shape4 b c h w heat -> _nms heat 1 = Ok heat.
Proof.
  intros Hs.
  set (F := fun (p : list (list A)) i j =>
              match window_max p (2 * 0 + 1) (Z.of_nat 0) i j with
              | Some v => v
              | None => szero
              end).
  rewrite (@nms_with_pool F 1 b c h w heat Hs).
  2:{ intros p Hp. exact (max_pool2d_odd 0 Hp). }
  f_equal. rewrite <- (map_id heat) at 2. apply map_ext. intros s.
  rewrite <- (map_id s) at 2. apply map_ext. intros p.
  unfold imap. apply imap_from_id. intros i r Er.
  apply imap_from_id. intros j x Ex. simpl.
  assert (G : get2 p i j = Some x) by (unfold get2; now rewrite Er).
  destruct (window_max_within p 0 i j G) as (mx & E & _ & (i0 & j0 & W1 & W2 & W3 & W4 & G0)).
  assert (i0 = i) by lia. assert (j0 = j) by lia. subst i0 j0.
  assert (Emx : mx = x) by congruence.
  unfold F. rewrite E, Emx. unfold keep_of. rewrite (proj2 (seqb_iff x x) eq_refl).
  apply smul_one.
Qed.


(** *** What can go wrong *)

Lemma mapM_raises {X Y : Type} (f : X -> result Y) (l : list X) (E e : exn) :
  (forall x e', In x l -> f x = Raise e' -> e' = E) ->
  mapM f l = Raise e -> e = E.
Proof.
  induction l as [|x t IH]; simpl; intros Hf Hr; [discriminate|].
  destruct (f x) as [y|e'] eqn:Fx; simpl in Hr.
  - destruct (mapM f t) as [ys|e''] eqn:Ft; simpl in Hr; [discriminate|].
    inversion Hr; subst. apply IH; [|reflexivity].
    intros x0 e0 Hx0 Fx0. apply (Hf x0 e0); [now right | exact Fx0].
  - inversion Hr; subst. apply (Hf x e); [now left | exact Fx].
Qed.

Lemma zipM_raises {X Y Z : Type} (f : X -> Y -> result Z) l1 l2 (e : exn) :
  (forall x y e', In x l1 -> In y l2 -> f x y = Raise e' -> e' = RuntimeError) ->
  zipM f l1 l2 = Raise e -> e = RuntimeError.
Proof.
  revert l2. induction l1 as [|x t IH]; intros [|y t2] Hf Hr; simpl in Hr;
    try discriminate; try (now inversion Hr).
  destruct (f x y) as [z|e'] eqn:Fx; simpl in Hr.
  - destruct (zipM f t t2) as [zs|e''] eqn:Ft; simpl in Hr; [discriminate|].
    inversion Hr; subst. apply (IH t2); [|exact Ft].
    intros x0 y0 e0 Hx0 Hy0 F0. apply (Hf x0 y0 e0); [now right | now right | exact F0].
  - inversion Hr; subst. apply (Hf x y e); [now left | now left | exact Fx].
Qed.

Lemma bzip_raises {X Y Z : Type} (f : X -> Y -> result Z) l1 l2 (e : exn) :
  (forall x y e', In x l1 -> In y l2 -> f x y = Raise e' -> e' = RuntimeError) ->
  bzip f l1 l2 = Raise e -> e = RuntimeError.
Proof.
  intros Hf Hr. unfold bzip in Hr.
  destruct l1 as [|x [|x' t1]].
  - destruct l2 as [|y [|y' t2]]; simpl in Hr; try discriminate;
      now inversion Hr.
  - eapply mapM_raises; [|exact Hr]. intros y e' Hy Fy.
    apply (Hf x y e'); [now left | exact Hy | exact Fy].
  - destruct l2 as [|y [|y' t2]].
    + simpl in Hr. now inversion Hr.
    + eapply mapM_raises; [|exact Hr]. intros x0 e' Hx Fx.
      apply (Hf x0 y e'); [exact Hx | now left | exact Fx].
    + eapply zipM_raises; eauto.
Qed.

Lemma ew4_raises {X Y Z : Type} (f : X -> Y -> Z) a b (e : exn) :
  ew4 f a b = Raise e -> e = RuntimeError.
Proof.
  unfold ew4, ew3, ew2, ew1. intros Hr.
  eapply bzip_raises; [|exact Hr]. intros; eapply bzip_raises; [|eauto].
  intros; eapply bzip_raises; [|eauto]. intros; eapply bzip_raises; [|eauto].
  intros; discriminate.
Qed.

Lemma max_pool2d_raises (k pad : nat) (p : list (list A)) (e : exn) :
  max_pool2d k pad p = Raise e -> e = RuntimeError.
Proof.
  unfold max_pool2d. destruct ((k =? 0) || (k / 2 <? pad)); intros Hr;
    [now inversion Hr|].
  eapply mapM_raises; [|exact Hr]. intros i e' _ Hi.
  eapply mapM_raises; [|exact Hi]. intros j e'' _ Hj. cbv beta in Hj.
  destruct (window_max p k (Z.of_nat pad) i j); now inversion Hj.
Qed.

(** [_nms] raises nothing but [RuntimeError]. *)
Lemma nms_raises_runtime_only (heat : list (list (list (list A)))) (k : nat)
      (e : exn) :
  _nms heat k = Raise e -> e = RuntimeError.
Proof.
  unfold _nms. intros Hr.
  destruct (mapM (mapM (max_pool2d k ((k - 1) / 2))) heat) as [hmax|e1] eqn:E1.
  - cbn [bind] in Hr.
    destruct (ew4 keep_of hmax heat) as [keep|e2] eqn:E2; cbn [bind] in Hr.
    + eapply ew4_raises; eauto.
    + inversion Hr; subst. eapply ew4_raises; eauto.
  - cbn [bind] in Hr. inversion Hr; subst.
    eapply mapM_raises; [|exact E1]. intros s e' _ Hs.
    eapply mapM_raises; [|exact Hs]. intros p e'' _ Hp.
    eapply max_pool2d_raises; eauto.
Qed.

Lemma zipM_ok_length {X Y Z : Type} (f : X -> Y -> result Z) l1 l2 r :
  zipM f l1 l2 = Ok r -> length l1 = length l2.
Proof.
  revert l2 r. induction l1 as [|x t IH]; intros [|y t2] r Hr; simpl in Hr;
    try discriminate; [reflexivity|].
  destruct (f x y); simpl in Hr; [|discriminate].
  destruct (zipM f t t2) eqn:Ft; simpl in Hr; [|discriminate].
  simpl. f_equal. eauto.
Qed.

Lemma bzip_ok_length {X Y Z : Type} (f : X -> Y -> result Z) l1 l2 r :
  bzip f l1 l2 = Ok r ->
  length l1 = 1 \/ length l2 = 1 \/ length l1 = length l2.
Proof.
  unfold bzip. intros Hr.
  destruct l1 as [|x [|x' t1]]; [| now left |].
  - destruct l2 as [|y [|y' t2]]; simpl in Hr; try discriminate; auto.
  - destruct l2 as [|y [|y' t2]]; [discriminate | auto |].
    right. right. eapply zipM_ok_length; eauto.
Qed.

Lemma bzip_ok_head {X Y Z : Type} (f : X -> Y -> result Z) x t1 y t2 r :
  bzip f (x :: t1) (y :: t2) = Ok r -> exists z, f x y = Ok z.
Proof.
  unfold bzip. intros Hr.
  destruct t1 as [|x' t1].
  - simpl in Hr. destruct (f x y); [eauto | discriminate].
  - destruct t2 as [|y' t2]; simpl in Hr; destruct (f x y); eauto; discriminate.
Qed.

Lemma max_pool2d_ok_length (k pad : nat) (p hp : list (list A)) :
  max_pool2d k pad p = Ok hp -> length hp = length p + 2 * pad + 1 - k.
Proof.
  unfold max_pool2d. destruct ((k =? 0) || (k / 2 <? pad)); [discriminate|].
  intros Hr. apply mapM_ok_length in Hr. now rewrite length_seq in Hr.
Qed.

(** X8: with an even kernel the padding (kernel - 1) // 2 is one short, the
    pooled map has one row less than the heatmap, and on a heatmap with at
    least three rows the comparison [hmax == heat] raises
    [RuntimeError]. *)
Theorem nms_even_kernel_raises
        (heat : list (list (list (list A)))) (b c h w m : nat) :
  0 < b -> 0 < c -> 3 <= h -> shape4 b c h w heat ->
  _nms heat (2 * m + 2) = Raise RuntimeError.
Proof.
  intros Hb Hc Hh Hs.
  destruct (_nms heat (2 * m + 2)) as [out|e] eqn:E.
  2:{ f_equal. eapply nms_raises_runtime_only; eauto. }
  exfalso. unfold _nms in E. destruct (half_even m) as [_ Epad].
  rewrite Epad in E.
  destruct (mapM (mapM (max_pool2d (2 * m + 2) m)) heat) as [hmax|] eqn:E1;
    [|discriminate].
  cbn [bind] in E.
  destruct (ew4 keep_of hmax heat) as [keep|] eqn:E2; [|discriminate].
  clear E. destruct Hs as [Lb Hall].
  destruct heat as [|s ss]; [simpl in Lb; lia|].
  apply Forall_inv in Hall. destruct Hall as [Lc Hp].
  destruct s as [|p ps]; [simpl in Lc; lia|].
  apply Forall_inv in Hp. destruct Hp as [Lh _].
  cbn [mapM] in E1.
  destruct (max_pool2d (2 * m + 2) m p) as [hp|] eqn:Ep; [|discriminate].
  cbn [bind] in E1.
  destruct (mapM (max_pool2d (2 * m + 2) m) ps) as [hps|]; [|discriminate].
  cbn [bind] in E1.
  destruct (mapM (mapM (max_pool2d (2 * m + 2) m)) ss) as [hss|]; [|discriminate].
  cbn [bind] in E1. inversion E1; subst hmax. clear E1.
  unfold ew4 in E2. apply bzip_ok_head in E2 as [z3 E3].
  unfold ew3 in E3. apply bzip_ok_head in E3 as [z2 E2].
  unfold ew2 in E2. apply bzip_ok_length in E2.
  apply max_pool2d_ok_length in Ep. lia.
Qed.

End NMSKernels.

Lemma nms_odd_kernel_witness :
  exists out, _nms heat_Z 5 = Ok out /\ shape4 1 1 3 3 out.
Proof.
  destruct (nms_odd_kernel (A := Z) (heat := heat_Z) (b := 1) (c := 1) (h := 3) (w := 3) 2) as (out & E & Hs & _);
    [repeat (split || constructor)|].
  exists out. auto.
Defined.

Lemma nms_kernel_one_is_identity_witness : _nms heat_Z 1 = Ok heat_Z.
Proof.
  apply (nms_kernel_one_is_identity (A := Z) (heat := heat_Z) (b := 1) (c := 1) (h := 3) (w := 3)).
  repeat (split || constructor).
Defined.

Lemma nms_even_kernel_raises_witness : _nms heat_Z 2 = Raise RuntimeError.
Proof.
  apply (nms_even_kernel_raises (A := Z) (heat := heat_Z) (b := 1) (c := 1) (h := 3) (w := 3) 0); try lia.
  repeat (split || constructor).
Defined.

(** ** Suppression, then selection *)

Section Peaks.
Context {A : Type} {S : Scalar A} {L : ScalarLaws A}.

(** X9: suppression followed by selection, as [object_pose_decode] chains
    them, on a heatmap with no empty axis, at most 2^24 cells per batch
    item and K <= height * width: every candidate that [_topk] returns on
    the suppressed heatmap either has score 0 or sits on a local maximum of
    the input heatmap; its
    score is then the input value at its class, row index / width and
    column index mod width, and no cell of the 3 x 3 neighbourhood in that
    class is larger. *)
Theorem nms_topk_returns_peaks
        (heat : list (list (list (list A)))) (b c h w K : nat) :
  0 < b -> 0 < c -> 0 < h -> 0 < w ->
  shape4 b c h w heat -> K <= h * w ->
  (Z.of_nat (c * h * w) <= 2 ^ 24)%Z ->
  exists heat' score inds clses ys xs,
    _nms heat 3 = Ok heat' /\
    _topk heat' K = Ok (score, inds, clses, ys, xs) /\
    forall bi k s cl ind,
      get2 score bi k = Some s -> get2 clses bi k = Some cl ->
      get2 inds bi k = Some ind ->
      s = szero \/
      (get4 heat bi cl (ind / w) (ind mod w) = Some s /\
       forall y x z, nbr (ind / w) y -> nbr (ind mod w) x ->
                     get4 heat bi cl y x = Some z -> sleb z s = true).
Proof.
  intros Hb Hc Hh Hw Hs HK Hcells.
  pose proof (shape4_nms Hs) as Hs'.
  destruct (topk_stages Hb Hc Hh Hw Hs' HK Hcells)
    as (score & inds & clses & ys & xs & E & Ss & Si & Sc & _ & _ & Hst).
  exists (map (map nms_plane) heat), score, inds, clses, ys, xs.
  split; [exact (nms_maps_planes Hs)|]. split; [exact E|].
  intros bi k s cl ind Gs Gc Gi.
  destruct (get2_Some_lt _ _ Ss Gs) as [Hbi Hk].
  destruct (nth_error heat bi) as [sb|] eqn:Eb;
    [|apply nth_error_None in Eb; destruct Hs; lia].
  assert (Eb' : nth_error (map (map nms_plane) heat) bi = Some (map nms_plane sb))
    by (now rewrite nth_error_map, Eb).
  destruct (Hst bi _ Eb') as (Sr & Escore & Hrank).
  set (rows := map (fun plane => fst (topk_sel (concat plane) K))
                   (map nms_plane sb)) in *.
  assert (HKr : K <= length (concat rows)).
  { rewrite (length_concat_plane Sr). nia. }
  destruct (topk_sel_spec (concat rows) HKr) as (_ & Lr & _ & _).
  destruct (nth_error (snd (topk_sel (concat rows) K)) k) as [rank|] eqn:Ek;
    [|apply nth_error_None in Ek; lia].
  destruct (Hrank k rank Ek) as (Hlt & Gc' & plane' & i & Ep' & Ei & Gi' & _).
  assert (cl = rank / K) by congruence. subst cl.
  assert (i = ind) by congruence. subst i.
  rewrite nth_error_map in Ep'.
  destruct (nth_error sb (rank / K)) as [p|] eqn:Ep; [|discriminate].
  inversion Ep'; subst plane'. clear Ep'.
  assert (Gp : get2 heat bi (rank / K) = Some p) by (unfold get2; now rewrite Eb).
  pose proof (shape4_plane _ _ Hs Gp) as Hp.
  pose proof (shape2_nms_plane Hp) as Hp'.
  assert (HK' : K <= length (concat (nms_plane p)))
    by now rewrite (length_concat_plane Hp').
  assert (Hm : rank mod K < K) by (apply Nat.mod_upper_bound; lia).
  (* the score at [k] is the suppressed value at [ind] *)
  unfold get2 in Gs. rewrite Escore in Gs.
  destruct (@topk_sel_index_bound _ _ _ (concat rows) K k _ HKr Ek) as [_ Ev].
  rewrite Ev in Gs. destruct Sr as [Lrows HrK].
  rewrite (nth_error_concat rank HrK) in Gs.
  unfold get2, rows in Gs. rewrite !nth_error_map, Ep in Gs. cbn [option_map] in Gs.
  destruct (@topk_sel_index_bound _ _ _ (concat (nms_plane p)) K _ _ HK' Ei)
    as [_ Ev'].
  rewrite Ev' in Gs. destruct Hp' as [Lp' Hpw'].
  rewrite (nth_error_concat ind Hpw'), get2_nms_plane in Gs.
  destruct (get2 p (ind / w) (ind mod w)) as [x|] eqn:Gx; [|discriminate].
  simpl in Gs. injection Gs as Es.
  destruct (seqb (wmax p (ind / w) (ind mod w)) x) eqn:Q.
  - right. apply seqb_iff in Q.
    assert (Esx : s = x) by (rewrite <- Es; now apply nms_cell_keep).
    clear Es. subst s.
    split; [rewrite get4_planes, Gp; exact Gx|].
    intros y x' z Ny Nx Gz. rewrite get4_planes, Gp in Gz.
    rewrite <- Q. eapply wmax_ge; eauto.
  - left. rewrite <- Es. apply nms_cell_drop. intros Q'.
    apply seqb_iff in Q'. congruence.
Qed.

End Peaks.

Lemma nms_topk_returns_peaks_witness :
  exists heat' score inds clses ys xs,
    _nms scores_Z 3 = Ok heat' /\
    _topk heat' 4 = Ok (score, inds, clses, ys, xs).
Proof.
  destruct (nms_topk_returns_peaks (A := Z) (heat := scores_Z) (b := 1) (c := 2) (h := 3) (w := 3) (K := 4))
    as (heat' & score & inds & clses & ys & xs & E1 & E2 & _); try lia;
    [repeat (split || constructor)|].
  exists heat', score, inds, clses, ys, xs. auto.
Defined.

(** ** Gathering: bounds and the mask *)

Section GatherMore.
Context {X : Type}.

Lemma gather_feat_ok_inv (feat : list (list (list X))) (ind : list (list nat))
      (out : list (list (list X))) :
  _gather_feat feat ind = Ok out ->
  forall bi j i, get2 ind bi j = Some i ->
    exists fb, nth_error feat bi = Some fb /\ i < length fb.
Proof.
  revert feat out. induction ind as [|indb it IH]; intros feat out E bi j i G.
  - unfold get2 in G. destruct bi; discriminate.
  - destruct feat as [|fb ft]; [discriminate|]. simpl in E.
    apply bind_ok in E as (r & Er & E). apply bind_ok in E as (rs & Ers & _).
    destruct bi as [|bi].
    + unfold get2 in G. simpl in G. exists fb. split; [reflexivity|].
      destruct (mapM_ok_nth _ _ Er _ G) as (y & _ & Ey).
      unfold pick in Ey. destruct (nth_error fb i) eqn:En; [|discriminate].
      apply nth_error_Some. congruence.
    + apply (IH ft rs Ers bi j i). exact G.
Qed.

Lemma gather_feat_raises (feat : list (list (list X))) (ind : list (list nat))
      (e : exn) :
  _gather_feat feat ind = Raise e -> e = RuntimeError.
Proof.
  revert feat. induction ind as [|indb it IH]; intros feat E.
  - destruct feat; discriminate.
  - destruct feat as [|fb ft]; [now inversion E|]. simpl in E.
    destruct (mapM (pick fb) indb) as [r|e1] eqn:Er; cbn [bind] in E.
    + destruct (_gather_feat ft it) as [rs|e2] eqn:Ers; cbn [bind] in E;
        [discriminate|].
      inversion E; subst. eapply IH; eauto.
    + inversion E; subst. eapply mapM_raises; [|exact Er].
      intros i e' _ Hi. unfold pick in Hi.
      destruct (nth_error fb i); now inversion Hi.
Qed.

(** An index without a row to read makes the gather raise. *)
Lemma gather_feat_fails (feat : list (list (list X))) (ind : list (list nat))
      (bi j i : nat) :
  get2 ind bi j = Some i ->
  (forall fb, nth_error feat bi = Some fb -> length fb <= i) ->
  _gather_feat feat ind = Raise RuntimeError.
Proof.
  intros G Hbad. destruct (_gather_feat feat ind) as [out|e] eqn:E.
  - destruct (gather_feat_ok_inv _ _ E _ _ G) as (fb & Efb & Hlt).
    specialize (Hbad fb Efb). lia.
  - f_equal. eapply gather_feat_raises; eauto.
Qed.

Lemma gather_feat_ok (feat : list (list (list X))) (ind : list (list nat))
      (b b' n d k : nat) :
  shape3 b n d feat -> shape2 b' k ind -> b' <= b ->
  (forall bi j i, get2 ind bi j = Some i -> i < n) ->
  exists out,
    _gather_feat feat ind = Ok out /\
    shape3 b' k d out /\
    forall bi j i, get2 ind bi j = Some i ->
                   get2 out bi j = get2 feat bi i.
Proof.
  intros [Lf Hf] [Li Hi] Hle Hrange. rewrite Forall_forall in Hf, Hi.
  destruct (gather_feat_spec feat ind) as (out & E & Lout & Hrows & Hget).
  { lia. }
  { intros bi j i fb G Efb. destruct (Hf fb (nth_error_In _ _ Efb)) as [-> _].
    eauto. }
  exists out. split; [exact E|]. split; [|exact Hget].
  split; [lia|]. apply Forall_forall. intros orow Hin.
  apply In_nth_error in Hin as [bi Ebi].
  assert (Hbi : bi < length ind)
    by (rewrite <- Lout; apply nth_error_Some; congruence).
  destruct (nth_error ind bi) as [row|] eqn:Erow;
    [|apply nth_error_None in Erow; lia].
  split.
  - rewrite (Hrows bi row orow Erow Ebi). apply Hi. eapply nth_error_In; eauto.
  - apply Forall_forall. intros r Hr. apply In_nth_error in Hr as [j Ej].
    assert (Hj : j < length row).
    { rewrite <- (Hrows bi row orow Erow Ebi). apply nth_error_Some. congruence. }
    destruct (nth_error row j) as [i|] eqn:Ei;
      [|apply nth_error_None in Ei; lia].
    assert (G : get2 ind bi j = Some i) by (unfold get2; now rewrite Erow).
    pose proof (Hget bi j i G) as Hg. unfold get2 at 1 in Hg.
    rewrite Ebi, Ej in Hg. symmetry in Hg. unfold get2 in Hg.
    destruct (nth_error feat bi) as [fb|] eqn:Efb; [|discriminate].
    destruct (Hf fb (nth_error_In _ _ Efb)) as [_ Hd].
    rewrite Forall_forall in Hd. apply Hd. eapply nth_error_In; eauto.
Qed.

(** X10: on features of shape [batch, n, dim] and indices of shape
    [batch', K] with batch' <= batch and every index below n,
    [_gather_feat] returns a tensor of shape [batch', K, dim] with
    out[b][k][c] = feat[b][ind[b][k]][c]. *)
Theorem gather_feat_rows (feat : list (list (list X))) (ind : list (list nat))
        (b b' n d k : nat) :
  shape3 b n d feat -> shape2 b' k ind -> b' <= b ->
  (forall bi j i, get2 ind bi j = Some i -> i < n) ->
  exists out,
    _gather_feat feat ind = Ok out /\
    shape3 b' k d out /\
    forall bi j i c, get2 ind bi j = Some i ->
                     get3 out bi j c = get3 feat bi i c.
Proof.
  intros Sf Si Hle Hr.
  destruct (gather_feat_ok Sf Si Hle Hr) as (out & E & So & Hget).
  exists out. split; [exact E|]. split; [exact So|].
  intros bi j i c G. rewrite !get3_rows, (Hget bi j i G). reflexivity.
Qed.

(** X11: an index that is not below n, anywhere in [ind], makes
    [_gather_feat] raise [RuntimeError]. *)
Theorem gather_feat_index_out_of_range
        (feat : list (list (list X))) (ind : list (list nat))
        (b n d bi j i : nat) :
  shape3 b n d feat -> 0 < d ->
  get2 ind bi j = Some i -> n <= i ->
  _gather_feat feat ind = Raise RuntimeError.
Proof.
  intros [_ Hf] _ G Hi. rewrite Forall_forall in Hf.
  apply (@gather_feat_fails feat ind bi j i G). intros fb Efb.
  destruct (Hf fb (nth_error_In _ _ Efb)) as [-> _]. exact Hi.
Qed.

(** X12: an index that is not below height * width makes
    [_permute_and_gather_feat] raise [RuntimeError]. *)
Theorem permute_and_gather_index_out_of_range
        (feat : list (list (list (list X)))) (ind : list (list nat))
        (b c h w bi j i : nat) :
  0 < b -> 0 < c -> 0 < h -> 0 < w ->
  shape4 b c h w feat ->
  get2 ind bi j = Some i -> h * w <= i ->
  _permute_and_gather_feat feat ind = Raise RuntimeError.
Proof.
  intros Hb Hc Hh Hw Hs G Hi.
  destruct (shape4_sizes Hb Hc Hh Hs) as [E2 E3].
  unfold _permute_and_gather_feat. rewrite E2, E3, map_map.
  apply (@gather_feat_fails _ ind bi j i G). intros f Ef.
  rewrite nth_error_map in Ef.
  destruct (nth_error feat bi) as [fb|] eqn:Efb; [|discriminate].
  inversion Ef; subst f.
  destruct Hs as [_ Hall]. rewrite Forall_forall in Hall.
  destruct (flat_hwc_spec (Hall fb (nth_error_In _ _ Efb))) as [-> _].
  exact Hi.
Qed.

(** *** The masked selection *)

Lemma combine_app_same {Y Z : Type} (a a' : list Y) (c c' : list Z) :
  length a = length c ->
  combine (a ++ a') (c ++ c') = combine a c ++ combine a' c'.
Proof.
  revert c. induction a as [|x t IH]; intros [|y u] E; simpl in *;
    try discriminate; [reflexivity|].
  f_equal. apply IH. lia.
Qed.

Lemma selected_rows (rows : list (list X)) (mrow : list bool) :
  concat (zipWith (fun row (m : bool) => if m then [row] else []) rows mrow)
  = map snd (filter fst (combine mrow rows)).
Proof.
  revert mrow. induction rows as [|r t IH]; intros [|m u]; simpl;
    try reflexivity.
  destruct m; simpl; now rewrite IH.
Qed.

Lemma selected_batch (g : list (list (list X))) (mask : list (list bool)) :
  length g = length mask ->
  (forall i rows mrow, nth_error g i = Some rows ->
                       nth_error mask i = Some mrow ->
                       length rows = length mrow) ->
  concat (concat (zipWith (zipWith (fun row (m : bool) =>
                                      if m then [row] else [])) g mask))
  = map snd (filter fst (combine (concat mask) (concat g))).
Proof.
  revert mask. induction g as [|rows t IH]; intros [|mrow u] Hl Hr;
    simpl in *; try discriminate; [reflexivity|].
  rewrite concat_app, selected_rows, IH.
  - rewrite combine_app_same, filter_app, map_app; [reflexivity|].
    symmetry. apply (Hr 0); reflexivity.
  - lia.
  - intros i a c Ea Ec. apply (Hr (Datatypes.S i)); assumption.
Qed.

Lemma count_selected {Y : Type} (ms : list bool) (rs : list Y) :
  length ms = length rs ->
  length (filter fst (combine ms rs)) = count_occ Bool.bool_dec ms true.
Proof.
  revert rs. induction ms as [|m t IH]; intros [|r u] E; simpl in *;
    try discriminate; [reflexivity|].
  destruct m; simpl.
  - f_equal. apply IH. lia.
  - apply IH. lia.
Qed.

(** X13: with a mask of the shape of [ind], [_gather_feat] returns the
    gathered rows whose mask entry is set, in row-major order, as a rank-2
    tensor: as many rows as the mask has set entries, each of dim
    values. *)
Theorem gather_feat_mask_selects
        (feat : list (list (list X))) (ind : list (list nat))
        (mask : list (list bool)) (b n d k : nat) :
  0 < b -> 0 < n -> 0 < d ->
  shape3 b n d feat -> shape2 b k ind -> shape2 b k mask ->
  (forall bi j i, get2 ind bi j = Some i -> i < n) ->
  exists g out,
    _gather_feat feat ind = Ok g /\
    _gather_feat_mask feat ind mask = Ok out /\
    out = map snd (filter fst (combine (concat mask) (concat g))) /\
    length out = count_occ Bool.bool_dec (concat mask) true /\
    Forall (fun row => length row = d) out.
Proof.
  intros Hb Hn Hd Hf Hi Hm Hrange.
  destruct (@gather_feat_ok feat ind b b n d k Hf Hi (le_n b) Hrange)
    as (g & Eg & Sg & _).
  assert (Edim : size2 feat = d).
  { destruct Hf as [Lf Hall]. destruct feat as [|fb ft]; [simpl in Lf; lia|].
    apply Forall_inv in Hall. destruct Hall as [Lfb Hrow].
    destruct fb as [|r rs]; [simpl in Lfb; lia|].
    apply Forall_inv in Hrow. exact Hrow. }
  assert (Lg : size0 g = b) by (destruct Sg; assumption).
  assert (Lg1 : size1 g = k).
  { destruct Sg as [Lb Hall]. destruct g as [|rows t]; [simpl in Lb; lia|].
    apply Forall_inv in Hall. now destruct Hall. }
  assert (Hrows : forall i rows mrow, nth_error g i = Some rows ->
            nth_error mask i = Some mrow -> length rows = length mrow).
  { intros i rows mrow Er Emr. destruct Sg as [_ Hg], Hm as [_ Hmk].
    rewrite Forall_forall in Hg, Hmk.
    destruct (Hg rows (nth_error_In _ _ Er)) as [-> _].
    now rewrite (Hmk mrow (nth_error_In _ _ Emr)). }
  assert (Lgm : length g = length mask) by (destruct Sg, Hm; congruence).
  assert (Lcat : length (concat mask) = length (concat g)).
  { destruct Sg as [Lb Hg], Hm as [Lm Hmk].
    rewrite (length_concat_uniform Hmk), Lm.
    assert (Hg' : Forall (fun r => length r = k) g).
    { eapply Forall_impl; [|exact Hg]. now intros r [-> _]. }
    now rewrite (length_concat_uniform Hg'), Lb. }
  exists g. eexists. split; [exact Eg|].
  split.
  { unfold _gather_feat_mask. rewrite Edim, Eg. cbn [bind].
    rewrite Lg, Lg1.
    rewrite expand0_same by (now destruct Hm). cbn [bind].
    rewrite (mapM_map _ (fun r => r)).
    2:{ intros mrow Hin. apply expand0_same. destruct Hm as [_ Hmk].
        rewrite Forall_forall in Hmk. auto. }
    rewrite map_id. cbn [bind].
    rewrite (zipM_pure _ (zipWith (fun row (m : bool) => if m then [row] else []))).
    2:{ exact Lgm. }
    2:{ intros i rows mrow Er Emr. apply zipM_pure; [eauto | reflexivity]. }
    cbn [bind]. destruct (Nat.eqb_spec d 0) as [|_]; [lia|].
    rewrite (selected_batch _ _ Lgm Hrows). reflexivity. }
  split; [reflexivity|]. split.
  - rewrite length_map. now apply count_selected.
  - apply Forall_forall. intros row Hin.
    apply in_map_iff in Hin as ([m r] & <- & Hin).
    apply filter_In in Hin as [Hin _]. apply in_combine_r in Hin.
    apply in_concat in Hin as (rows & Hrows' & Hr). simpl.
    destruct Sg as [_ Hg]. rewrite Forall_forall in Hg.
    destruct (Hg rows Hrows') as [_ Hd']. rewrite Forall_forall in Hd'. auto.
Qed.

End GatherMore.

Lemma gather_feat_rows_witness :
  exists out,
    _gather_feat [[[1; 2]; [3; 4]]] [[1; 0; 1]] = Ok out /\
    shape3 1 3 2 out.
Proof.
  destruct (gather_feat_rows (X := nat) (feat := [[[1; 2]; [3; 4]]]) (ind := [[1; 0; 1]]) (b := 1) (b' := 1) (n := 2) (d := 2) (k := 3))
    as (out & E & Hs & _).
  - repeat (split || constructor).
  - repeat (split || constructor).
  - lia.
  - intros bi j i G.
    destruct bi as [|bi]; [|destruct bi; discriminate].
    destruct j as [|[|[|j]]]; try (destruct j; discriminate);
      inversion G; lia.
  - exists out. auto.
Defined.

Lemma gather_feat_index_out_of_range_witness :
  _gather_feat [[[1; 2]; [3; 4]]] [[1; 2]] = Raise RuntimeError.
Proof.
  apply (gather_feat_index_out_of_range (X := nat) (feat := [[[1; 2]; [3; 4]]])
           [[1; 2]] (b := 1) (n := 2) (d := 2) 0 1 (i := 2)); try lia; try reflexivity.
  repeat (split || constructor).
Defined.

Lemma permute_and_gather_index_out_of_range_witness :
  _permute_and_gather_feat probe_field [[0; 6]] = Raise RuntimeError.
Proof.
  apply (permute_and_gather_index_out_of_range (X := nat) (feat := probe_field)
           [[0; 6]] (b := 1) (c := 2) (h := 2) (w := 3) 0 1 (i := 6)); try lia; try reflexivity.
  repeat (split || constructor).
Defined.

Lemma gather_feat_mask_selects_witness :
  exists g out,
    _gather_feat [[[1; 2]; [3; 4]]] [[1; 0; 1]] = Ok g /\
    _gather_feat_mask [[[1; 2]; [3; 4]]] [[1; 0; 1]] [[true; false; true]]
    = Ok out /\
    length out = 2.
Proof.
  destruct (gather_feat_mask_selects (X := nat) (feat := [[[1; 2]; [3; 4]]])
              (ind := [[1; 0; 1]]) (mask := [[true; false; true]])
              (b := 1) (n := 2) (d := 2) (k := 3))
    as (g & out & Eg & Eo & _ & Lo & _); try lia.
  - repeat (split || constructor).
  - repeat (split || constructor).
  - repeat (split || constructor).
  - intros bi j i G.
    destruct bi as [|bi]; [|destruct bi; discriminate].
    destruct j as [|[|[|j]]]; try (destruct j; discriminate);
      inversion G; lia.
  - exists g, out. auto.
Defined.

(** ** Back-projection and matching *)

Section Geometry.
Local Open Scope R_scope.

(** *** Image keypoints *)

Lemma view_pairs_inv {X : Type} (l : list X) (pts : list (list X)) :
  view_pairs l = Ok pts ->
  length l = (2 * length pts)%nat /\ Forall (fun p => length p = 2%nat) pts.
Proof.
  revert pts. induction l as [l IH] using (induction_ltof1 _ (@length X)).
  unfold ltof in IH. intros pts E.
  destruct l as [|x [|y t]]; simpl in E.
  - inversion E. split; [reflexivity | constructor].
  - discriminate.
  - apply bind_ok in E as (ps & Eps & E). inversion E; subst pts.
    destruct (IH t (ltac:(simpl; lia)) ps Eps) as [Lt Hps].
    split; [simpl; lia | now constructor].
Qed.

Lemma view_pairs_raises {X : Type} (l : list X) (e : exn) :
  view_pairs l = Raise e -> e = RuntimeError.
Proof.
  induction l as [l IH] using (induction_ltof1 _ (@length X)).
  unfold ltof in IH. intros E.
  destruct l as [|x [|y t]]; simpl in E.
  - discriminate.
  - now inversion E.
  - destruct (view_pairs t) as [ps|e'] eqn:Et; cbn [bind] in E; [discriminate|].
    inversion E; subst. apply (IH t); [simpl; lia | exact Et].
Qed.

Lemma img_kps_needs_nine_keypoints (out_inv : T2) (kps : T1) :
  length kps <> 18%nat -> img_kps out_inv kps = Raise RuntimeError.
Proof.
  intros Hl. unfold img_kps.
  destruct (view_pairs kps) as [pts|e] eqn:Ev.
  2:{ rewrite (view_pairs_raises _ Ev). reflexivity. }
  cbn [bind]. apply view_pairs_inv in Ev as [Lk Hp].
  unfold cat_hom.
  assert (Ef : forallb (fun r => (length r =? 9)%nat) (transpose 2 pts) = false).
  { pose proof (transpose_length Hp) as Lt.
    destruct (transpose 2 pts) as [|c0 cs] eqn:Et; [discriminate|].
    assert (Lc : length c0 = length pts).
    { apply (@transpose_col_length _ 2 pts c0 Hp). rewrite Et. now left. }
    simpl. destruct (Nat.eqb_spec (length c0) 9); [lia | reflexivity]. }
  rewrite Ef. reflexivity.
Qed.

(** X14: [transform_img2cam] does not return when an object has other than
    18 keypoint coordinates: the coordinates are viewed as pairs, and the
    pairs are concatenated with a row of nine ones. *)
Theorem back_projection_needs_nine_keypoints
        (kps dim rot : T3) (meta : option Meta) (const : option ConstT)
        (bi k : nat) (row : T1) :
  get2 kps bi k = Some row -> length row <> 18%nat ->
  is_ok (transform_img2cam kps dim rot meta const) = false.
Proof.
  intros G Hl.
  destruct (transform_img2cam kps dim rot meta const) as [r|e] eqn:E;
    [|reflexivity].
  exfalso. unfold transform_img2cam in E.
  apply bind_ok in E as (m & _ & E).
  apply bind_ok in E as (out_inv & _ & E).
  apply bind_ok in E as (kps' & Ekps & _).
  unfold T3, T2, T1 in *.
  unfold get2 in G. destruct (nth_error kps bi) as [kb|] eqn:Ekb; [|discriminate].
  assert (Lz : length out_inv = length kps) by (eapply zipM_ok_length; eauto).
  destruct (nth_error out_inv bi) as [mi|] eqn:Emi.
  2:{ apply nth_error_None in Emi.
      assert (bi < length kps)%nat by (apply nth_error_Some; congruence). lia. }
  assert (exists z, mapM (img_kps mi) kb = Ok z) as [z Ez].
  { clear - Ekps Ekb Emi. revert out_inv kps kps' Ekps Ekb Emi.
    induction bi as [|bi IH]; intros [|m0 ms] [|k0 ks] kps' Ekps Ekb Emi;
      simpl in *; try discriminate.
    - inversion Ekb; inversion Emi; subst.
      apply bind_ok in Ekps as (z & Ez & _). eauto.
    - apply bind_ok in Ekps as (z0 & _ & Ekps).
      apply bind_ok in Ekps as (zs & Ezs & _). eapply IH; eauto. }
  destruct (mapM_ok_nth _ _ Ez _ G) as (y & _ & Ey).
  rewrite (@img_kps_needs_nine_keypoints mi row Hl) in Ey. discriminate.
Qed.

(** *** The view of line 172 *)

Lemma concat_length_const {X : Type} (a : nat) (l : list (list X)) :
  Forall (fun c => length c = a) l -> length (concat l) = (length l * a)%nat.
Proof.
  induction 1 as [|c t Hc _ IH]; simpl; [reflexivity|].
  rewrite length_app, IH, Hc. reflexivity.
Qed.

Lemma expand0_inv {X : Type} (P : X -> Prop) (n : nat) (l : list X) :
  Forall P l ->
  match expand0 n l with
  | Ok l' => Forall P l'
  | Raise e => e = RuntimeError
  end.
Proof.
  intros H. unfold expand0. destruct l as [|x [|y t]].
  - destruct (length (@nil X) =? n)%nat; [constructor | reflexivity].
  - inversion H; subst. clear H. induction n; simpl; constructor; auto.
  - destruct (length (x :: y :: t) =? n)%nat; [exact H | reflexivity].
Qed.

(** Up to the view, the image keypoints of one object are a block with
    one row per row of [out_inv] and nine columns. *)
Lemma img_kps_block (out_inv : T2) (kps : T1) :
  img_kps out_inv kps = Raise RuntimeError \/
  exists r : T2,
    length r = length out_inv /\
    Forall (fun row => length row = 9%nat) r /\
    img_kps out_inv kps = view_permuted r.
Proof.
  unfold img_kps.
  destruct (view_pairs kps) as [pts|e] eqn:Ev.
  2:{ left. rewrite (view_pairs_raises _ Ev). reflexivity. }
  cbn [bind]. unfold cat_hom.
  destruct (forallb (fun r => (length r =? 9)%nat) (transpose 2 pts)) eqn:Ef;
    [|left; reflexivity].
  cbn [bind]. unfold mmul.
  match goal with
  | |- context [forallb ?f out_inv] =>
      destruct (forallb f out_inv); [|left; reflexivity]
  end.
  cbn [bind]. right. eexists. split; [|split; [|reflexivity]].
  - apply length_map.
  - unfold T2, T1 in *.
    assert (Hm : Forall (fun r : list R => length r = 9%nat)
                        (transpose 2 pts ++ [repeat 1 9])).
    { apply Forall_app. split.
      - apply Forall_forall. intros c Hc.
        rewrite forallb_forall in Ef. apply Nat.eqb_eq. now apply Ef.
      - constructor; [reflexivity | constructor]. }
    assert (Es : size1 (transpose 2 pts ++ [repeat 1 9]) = 9%nat).
    { destruct (transpose 2 pts ++ [repeat 1 9]) as [|c0 cs] eqn:Em.
      - destruct (transpose 2 pts); discriminate.
      - now inversion Hm. }
    rewrite Es. apply Forall_forall. intros row Hrow.
    apply in_map_iff in Hrow as (a & <- & _).
    rewrite length_map. now apply transpose_length.
Qed.

(** An output transform of two rows, as line 161 views it, never gets
    through the view of line 172. *)
Lemma img_kps_raises (out_inv : T2) (kps : T1) :
  (1 < length out_inv)%nat -> img_kps out_inv kps = Raise RuntimeError.
Proof.
  intros Hm. destruct (img_kps_block out_inv kps) as [E|(r & Lr & Hr & E)];
    [exact E|].
  rewrite E. unfold view_permuted.
  destruct r as [|row t]; [simpl in Lr; lia|].
  inversion Hr as [|? ? Hrow _]; subst. cbn [size1]. rewrite Hrow.
  destruct (Nat.leb_spec (length (row :: t)) 1); [lia | reflexivity].
Qed.

(** When the view exists it yields at most nine values. *)
Lemma img_kps_ok_length (out_inv : T2) (kps k' : T1) :
  img_kps out_inv kps = Ok k' -> (length k' <= 9)%nat.
Proof.
  intros E. destruct (img_kps_block out_inv kps) as [E'|(r & _ & Hr & E')];
    [congruence|].
  rewrite E' in E. unfold view_permuted in E.
  destruct r as [|row [|row' t]].
  - inversion E. simpl. lia.
  - inversion Hr as [|? ? Hrow _]; subst. cbn [size1 length] in E.
    rewrite Hrow in E. cbn in E. inversion E.
    rewrite (@concat_length_const _ 1).
    + rewrite zipWith_length. simpl. lia.
    + apply Forall_forall. intros c Hc.
      apply (@transpose_col_length _ 9 [row] c); [now constructor | exact Hc].
  - inversion Hr as [|? ? Hrow _]; subst. cbn [size1 length] in E.
    rewrite Hrow in E. discriminate.
Qed.

(** C2: given output transforms of two rows and three columns, the
    back-projection raises [RuntimeError] on every input that holds an
    object: the image keypoints are viewed at line 172 right after being
    permuted, without [contiguous], so no 3D position is ever returned. *)
Theorem transform_img2cam_raises_at_view
        (kps dim rot : T3) (m : Meta) (const : option ConstT)
        (bi k : nat) (row : T1) :
  Forall (shape2 2 3) (trans_output_inv m) ->
  get2 kps bi k = Some row ->
  transform_img2cam kps dim rot (Some m) const = Raise RuntimeError.
Proof.
  intros Hm G. unfold transform_img2cam. cbn [subscript bind].
  assert (Hm' : Forall (fun M : T2 => (1 < length M)%nat) (trans_output_inv m)).
  { eapply Forall_impl; [|exact Hm]. intros M [L _]. unfold T2, T1 in *. lia. }
  pose proof (expand0_inv (size0 kps) Hm') as Hx.
  destruct (expand0 (size0 kps) (trans_output_inv m)) as [out_inv|e];
    [|subst e; reflexivity].
  cbn [bind].
  destruct (zipM (fun M kb => mapM (img_kps M) kb) out_inv kps)
    as [kps'|e] eqn:Ekps.
  - exfalso. unfold T3, T2, T1 in *.
    unfold get2 in G.
    destruct (nth_error kps bi) as [kb|] eqn:Ekb; [|discriminate].
    assert (Lz : length out_inv = length kps) by (eapply zipM_ok_length; eauto).
    destruct (nth_error out_inv bi) as [mi|] eqn:Emi.
    2:{ apply nth_error_None in Emi.
        assert (bi < length kps)%nat by (apply nth_error_Some; congruence). lia. }
    assert (exists z, mapM (img_kps mi) kb = Ok z) as [z Ez].
    { clear - Ekps Ekb Emi. revert out_inv kps kps' Ekps Ekb Emi.
      induction bi as [|bi IH]; intros [|m0 ms] [|k0 ks] kps' Ekps Ekb Emi;
        simpl in *; try discriminate.
      - inversion Ekb; inversion Emi; subst.
        apply bind_ok in Ekps as (z & Ez & _). eauto.
      - apply bind_ok in Ekps as (z0 & _ & Ekps).
        apply bind_ok in Ekps as (zs & Ezs & _). eapply IH; eauto. }
    destruct (mapM_ok_nth _ _ Ez _ G) as (y & _ & Ey).
    rewrite Forall_forall in Hx.
    rewrite (@img_kps_raises mi row) in Ey; [discriminate|].
    apply Hx. eapply nth_error_In; eauto.
  - cbn [bind]. f_equal.
    apply zipM_raises in Ekps; [exact Ekps|].
    intros M kb e' HM _ Er.
    apply (@mapM_raises _ _ _ _ RuntimeError) in Er; [exact Er|].
    intros x e'' _ Ex. rewrite Forall_forall in Hx.
    rewrite (@img_kps_raises M x (Hx M HM)) in Ex. now inversion Ex.
Qed.

(** C5: the back-projection returns on no input, so no yaw is ever
    computed: a returning call would hold exactly one object, whose image
    keypoints, if the view of line 172 exists at all, are at most nine
    values, and the yaw reads entry 16 of them. *)
Theorem transform_img2cam_never_returns
        (kps dim rot : T3) (meta : option Meta) (const : option ConstT) :
  is_ok (transform_img2cam kps dim rot meta const) = false.
Proof.
  destruct (transform_img2cam kps dim rot meta const) as [r|e] eqn:E;
    [|reflexivity].
  exfalso.
  apply transform_img2cam_ok_inv in E
    as (M & k0 & k' & cal & rr & y & _ & Ek & Ey).
  apply img_kps_ok_length in Ek.
  unfold rot_y_obj in Ey.
  destruct (index2 cal 0 0); cbn [bind] in Ey; [|discriminate].
  destruct (index2 cal 0 2); cbn [bind] in Ey; [|discriminate].
  assert (Es : slice 16 17 k' = []).
  { unfold slice. rewrite skipn_all2 by lia. reflexivity. }
  rewrite Es in Ey. discriminate.
Qed.

(** *** Nearest candidate *)

Lemma min_from_spec (l : T1) (best : R) (besti i : nat) (d : R) (j : nat) :
  min_from best besti i l = (d, j) -> (besti < i)%nat ->
  d <= best /\ Forall (fun x => d <= x) l /\
  ((j = besti /\ d = best) \/
   ((i <= j)%nat /\ nth_error l (j - i) = Some d /\ d < best /\
    forall n x, (n < j - i)%nat -> nth_error l n = Some x -> d < x)).
Proof.
  revert best besti i. induction l as [|a t IH]; intros best besti i E Hlt.
  - simpl in E. inversion E; subst. split; [lra|]. split; [constructor|].
    now left.
  - simpl in E. destruct (Rlt_dec a best) as [Ha|Ha].
    + destruct (IH a i (Datatypes.S i) E ltac:(lia)) as (Hle & Hall & Hcase).
      split; [lra|]. split; [constructor; [exact Hle | exact Hall]|].
      right. destruct Hcase as [[-> ->]|(Hj & Hn & Hd & Hfirst)].
      * rewrite Nat.sub_diag. repeat split; auto. intros n x Hn. lia.
      * split; [lia|].
        replace (j - i)%nat with (Datatypes.S (j - Datatypes.S i)) by lia.
        split; [exact Hn|]. split; [lra|].
        intros [|n] x Hn' Ex; simpl in Ex.
        -- inversion Ex; subst. exact Hd.
        -- apply (Hfirst n x); [lia | exact Ex].
    + destruct (IH best besti (Datatypes.S i) E ltac:(lia)) as (Hle & Hall & Hcase).
      split; [exact Hle|]. split; [constructor; [lra | exact Hall]|].
      destruct Hcase as [[-> ->]|(Hj & Hn & Hd & Hfirst)]; [now left|].
      right. split; [lia|].
      replace (j - i)%nat with (Datatypes.S (j - Datatypes.S i)) by lia.
      split; [exact Hn|]. split; [exact Hd|].
      intros [|n] x Hn' Ex; simpl in Ex.
      * inversion Ex; subst. lra.
      * apply (Hfirst n x); [lia | exact Ex].
Qed.

(** X15: lines 380-390 for one regression keypoint: among K >= 1 candidates
    with their scores the matching keeps the candidate at the least
    Euclidean distance, the first such candidate on ties, together with that
    distance and the score of that candidate. *)
Theorem match_one_returns_nearest (cands : T2) (scores : T1) (p : T1) :
  cands <> [] -> length scores = length cands ->
  exists m,
    match_one cands scores p = Ok m /\
    nth_error cands (min_ind m) = Some (hm_kps_of m) /\
    nth_error scores (min_ind m) = Some (hm_score_of m) /\
    min_dist m = dist p (hm_kps_of m) /\
    (forall c, In c cands -> min_dist m <= dist p c) /\
    (forall i c, (i < min_ind m)%nat -> nth_error cands i = Some c ->
                 min_dist m < dist p c).
Proof.
  intros Hne Hlen. destruct cands as [|c0 cs]; [congruence|]. clear Hne.
  destruct (min_from (dist p c0) 0 1 (map (dist p) cs)) as [d j] eqn:Emin.
  destruct (@min_from_spec _ _ _ _ _ _ Emin ltac:(lia)) as (Hle & Hall & Hcase).
  assert (Hj : nth_error (map (dist p) (c0 :: cs)) j = Some d /\
               forall n x, (n < j)%nat ->
                           nth_error (map (dist p) (c0 :: cs)) n = Some x -> d < x).
  { destruct Hcase as [[-> ->]|(Hj & Hn & Hd & Hfirst)].
    - split; [reflexivity|]. intros n x Hn. lia.
    - destruct j as [|j]; [lia|]. simpl in *. rewrite Nat.sub_0_r in *.
      split; [exact Hn|]. intros [|n] x Hn' Ex; simpl in Ex.
      + inversion Ex; subst. exact Hd.
      + apply (Hfirst n x); [lia | exact Ex]. }
  destruct Hj as [Ej Hfirst].
  rewrite nth_error_map in Ej.
  destruct (nth_error (c0 :: cs) j) as [c|] eqn:Ec; [|discriminate].
  inversion Ej as [Ed]. clear Ej.
  destruct (nth_error scores j) as [s|] eqn:Es.
  2:{ apply nth_error_None in Es.
      assert (j < length (c0 :: cs))%nat by (apply nth_error_Some; congruence).
      lia. }
  exists {| min_dist := d; min_ind := j; hm_score_of := s; hm_kps_of := c |}.
  split.
  { unfold match_one, min_dim. cbn [map]. rewrite Emin. cbn [bind].
    unfold pick. rewrite Es. cbn [bind]. rewrite Ec. reflexivity. }
  cbn [min_dist min_ind hm_score_of hm_kps_of].
  split; [exact Ec|]. split; [exact Es|]. split; [now symmetry|]. split.
  - intros c' [<-|Hin]; [exact Hle|].
    rewrite Forall_forall in Hall. apply Hall. now apply in_map.
  - intros i c' Hi Ec'. apply (Hfirst i); [exact Hi|].
    now rewrite nth_error_map, Ec'.
Qed.

(** *** Keypoint offsets *)

Lemma add_odd_even_cons2 (x y a b : R) (t : T1) :
  add_odd y (add_even x (a :: b :: t))
  = (a + x) :: (b + y) :: add_odd y (add_even x t).
Proof. simpl. destruct (add_even x t); reflexivity. Qed.

Lemma add_odd_even_nth (x y : R) (l : T1) :
  length (add_odd y (add_even x l)) = length l /\
  forall i v,
    (nth_error l (2 * i) = Some v ->
     nth_error (add_odd y (add_even x l)) (2 * i) = Some (v + x)) /\
    (nth_error l (2 * i + 1) = Some v ->
     nth_error (add_odd y (add_even x l)) (2 * i + 1) = Some (v + y)).
Proof.
  induction l as [l IH] using (induction_ltof1 _ (@length R)).
  unfold ltof in IH.
  destruct l as [|a [|b t]].
  - split; [reflexivity|]. intros i v. split; intros E.
    + destruct (2 * i)%nat; discriminate.
    + destruct (2 * i + 1)%nat; discriminate.
  - split; [reflexivity|]. intros [|i] v; split; intros E.
    + simpl in *. now inversion E.
    + discriminate.
    + replace (2 * Datatypes.S i)%nat with (Datatypes.S (Datatypes.S (2 * i))) in E by lia.
      simpl in E. destruct (2 * i)%nat; discriminate.
    + replace (2 * Datatypes.S i + 1)%nat
        with (Datatypes.S (Datatypes.S (2 * i + 1))) in E by lia.
      simpl in E. destruct (2 * i + 1)%nat; discriminate.
  - rewrite add_odd_even_cons2.
    destruct (IH t ltac:(simpl; lia)) as [Lt Ht].
    split; [simpl; now rewrite Lt|].
    intros [|i] v; split; intros E.
    + simpl in *. now inversion E.
    + simpl in *. now inversion E.
    + replace (2 * Datatypes.S i)%nat with (Datatypes.S (Datatypes.S (2 * i))) in * by lia.
      simpl in *. now apply Ht.
    + replace (2 * Datatypes.S i + 1)%nat
        with (Datatypes.S (Datatypes.S (2 * i + 1))) in * by lia.
      simpl in *. now apply Ht.
Qed.

End Geometry.

Section GeometryExamples.
Local Open Scope R_scope.

Lemma back_projection_needs_nine_keypoints_witness :
  is_ok (transform_img2cam [[repeat 0 16]] [[[1; 1; 1]]] [[rot_bin1]]
           (Some meta_id) (Some (Const2 const_matrix))) = false.
Proof.
  apply (back_projection_needs_nine_keypoints
           [[repeat 0 16]] [[[1; 1; 1]]] [[rot_bin1]]
           (Some meta_id) (Some (Const2 const_matrix)) 0 0 (row := repeat 0 16)).
  - reflexivity.
  - simpl. lia.
Defined.

Lemma transform_img2cam_raises_at_view_witness :
  transform_img2cam [[repeat 0 18]] [[[1; 1; 1]]] [[rot_bin1]]
                    (Some meta_id) (Some (Const2 const_matrix))
  = Raise RuntimeError /\
  transform_img2cam [[repeat 0 18; repeat 0 18]] [[[1; 1; 1]; [1; 1; 1]]]
                    [[rot_bin1; rot_bin1]]
                    (Some meta_id) (Some (Const2 const_matrix))
  = Raise RuntimeError.
Proof.
  split.
  - apply (transform_img2cam_raises_at_view
             [[repeat 0 18]] [[[1; 1; 1]]] [[rot_bin1]] meta_id
             (Some (Const2 const_matrix)) 0 0 (row := repeat 0 18)).
    + repeat (split || constructor).
    + reflexivity.
  - apply (transform_img2cam_raises_at_view
             [[repeat 0 18; repeat 0 18]] [[[1; 1; 1]; [1; 1; 1]]]
             [[rot_bin1; rot_bin1]] meta_id
             (Some (Const2 const_matrix)) 0 1 (row := repeat 0 18)).
    + repeat (split || constructor).
    + reflexivity.
Defined.

Lemma match_one_returns_nearest_witness :
  exists m, match_one [[0; 0]; [3; 4]] [1; 1] [0; 0] = Ok m.
Proof.
  destruct (match_one_returns_nearest (cands := [[0; 0]; [3; 4]]) [1; 1] [0; 0])
    as (m & E & _); [discriminate | reflexivity |].
  exists m. exact E.
Defined.

End GeometryExamples.

(** ** Decoding up to the boxes *)

(** [object_pose_decode] starts with [decode_boxes]. *)
Lemma object_pose_decode_boxes_first
      (heat wh kps dim rot : T4) (prob reg kps_heatmap kps_offsets : option T4)
      (K : nat) (meta : option Meta) (const : option ConstT) :
  object_pose_decode heat wh kps dim rot prob reg kps_heatmap kps_offsets
                     K meta const
  = ('(scores, inds, clses, kps', bboxes) <- decode_boxes heat wh kps reg K ;;
     dim <- _permute_and_gather_feat dim inds ;;
     dim <- check_last 3 dim ;;
     rot <- _permute_and_gather_feat rot inds ;;
     rot <- check_last 8 rot ;;
     prob <- attribute prob ;;
     prob <- _permute_and_gather_feat prob inds ;;
     prob <- mapM (mapM (fun r => p <- index r 0 ;; Ok [p])) prob ;;
     '(kps', hm_score) <-
       match kps_heatmap with
       | Some kps_heatmap =>
           '(kps', hm_score) <- refine_keypoints K (size1 kps / 2) kps' bboxes
                                  kps_heatmap kps_offsets ;;
           Ok (kps', Some hm_score)
       | None => Ok (kps', None)
       end ;;
     '(position, rot_y, kps_inv) <- transform_img2cam kps' dim rot meta const ;;
     hm_score <- local hm_score ;;
     assemble bboxes scores kps_inv dim hm_score rot_y position prob clses).
Proof.
  unfold object_pose_decode, decode_boxes.
  destruct (_nms heat 3) as [heat'|]; cbn [bind]; [|reflexivity].
  destruct (_topk heat' K) as [[[[[scores inds] clses] ys] xs]|]; cbn [bind];
    [|reflexivity].
  destruct (_permute_and_gather_feat kps inds) as [k1|]; cbn [bind]; [|reflexivity].
  destruct (check_last (size1 kps / 2 * 2) k1) as [k2|]; cbn [bind]; [|reflexivity].
  destruct (zipM (zipM (fun x row => Ok (add_even x row))) xs k2) as [k3|];
    cbn [bind]; [|reflexivity].
  destruct (zipM (zipM (fun y row => Ok (add_odd y row))) ys k3) as [k4|];
    cbn [bind]; [|reflexivity].
  match goal with
  | |- bind ?m _ = _ => destruct m as [[xs' ys']|]; cbn [bind]; [|reflexivity]
  end.
  destruct (_permute_and_gather_feat wh inds) as [w1|]; cbn [bind]; [|reflexivity].
  destruct (check_last 2 w1) as [w2|]; cbn [bind]; [|reflexivity].
  repeat match goal with
         | |- bind ?m _ = bind (bind ?m _) _ =>
             destruct m; cbn [bind]; [|reflexivity]
         end.
  reflexivity.
Qed.

(** *** Reading a field at the peaks *)

Lemma permute_and_gather_ok {X : Type} (feat : list (list (list (list X))))
      (ind : list (list nat)) (b c h w K : nat) :
  0 < b -> 0 < c -> 0 < h -> 0 < w ->
  shape4 b c h w feat -> shape2 b K ind ->
  (forall bi k i, get2 ind bi k = Some i -> i < h * w) ->
  exists out,
    _permute_and_gather_feat feat ind = Ok out /\
    shape3 b K c out /\
    forall bi k i ch, get2 ind bi k = Some i ->
      get3 out bi k ch = get4 feat bi ch (i / w) (i mod w).
Proof.
  intros Hb Hc Hh Hw Hs Hind Hrange.
  destruct (shape4_sizes Hb Hc Hh Hs) as [E2 E3].
  unfold _permute_and_gather_feat. rewrite E2, E3, map_map.
  set (flat := map (fun fb => concat (permute_hwc h w fb)) feat).
  assert (Sflat : shape3 b (h * w) c flat).
  { destruct Hs as [Lb Hall]. split; [unfold flat; now rewrite length_map|].
    apply Forall_map. eapply Forall_impl; [|exact Hall]. intros fb Hfb.
    destruct (flat_hwc_spec Hfb) as (Lf & Hc' & _). split; assumption. }
  destruct (@gather_feat_ok X flat ind b b (h * w) c K Sflat Hind (le_n b) Hrange)
    as (out & Eout & Sout & Hget).
  exists out. split; [exact Eout|]. split; [exact Sout|].
  intros bi k i ch G. rewrite get3_rows, (Hget bi k i G).
  unfold get2 at 1. unfold get4, flat. rewrite nth_error_map.
  destruct (nth_error feat bi) as [fb|] eqn:Efb; [|reflexivity].
  cbn [option_map].
  assert (Hfb : shape3 c h w fb).
  { destruct Hs as [_ Hall]. rewrite Forall_forall in Hall.
    apply Hall. eapply nth_error_In; eauto. }
  destruct (flat_hwc_spec Hfb) as (_ & _ & Hf).
  specialize (Hf i ch). unfold get2 in Hf. exact Hf.
Qed.

Lemma check_last_ok (n b K : nat) (t : T3) :
  shape3 b K n t -> check_last n t = Ok t.
Proof.
  intros [_ Hall]. unfold check_last.
  match goal with |- (if ?c then _ else _) = _ => assert (E : c = true) end.
  { apply forallb_forall. intros rows Hin. rewrite Forall_forall in Hall.
    destruct (Hall rows Hin) as [_ Hr]. now apply forallb_length_eq. }
  now rewrite E.
Qed.

Lemma add_even_length (x : R) (l : T1) : length (add_even x l) = length l.
Proof.
  induction l as [l IH] using (induction_ltof1 _ (@length R)).
  unfold ltof in IH. destruct l as [|a [|b t]]; try reflexivity.
  simpl. rewrite (IH t); [reflexivity | simpl; lia].
Qed.

Lemma add_odd_length (y : R) (l : T1) : length (add_odd y l) = length l.
Proof. destruct l; simpl; [reflexivity | now rewrite add_even_length]. Qed.

Lemma zipM2_pure {X Y Z : Type} (g : X -> Y -> Z) (a : list (list X))
      (c : list (list Y)) (b K : nat) :
  shape2 b K a -> shape2 b K c ->
  zipM (zipM (fun x y => Ok (g x y))) a c = Ok (zipWith (zipWith g) a c).
Proof.
  intros [La Ha] [Lc Hc]. rewrite Forall_forall in Ha, Hc.
  apply zipM_pure; [lia|]. intros i ra rc Ea Ec.
  apply zipM_pure; [|reflexivity].
  rewrite (Ha ra (nth_error_In _ _ Ea)), (Hc rc (nth_error_In _ _ Ec)).
  reflexivity.
Qed.

Lemma shape3_rows {X : Type} (t : list (list (list X))) (b K n : nat) :
  shape3 b K n t -> shape2 b K t.
Proof.
  intros [Lb Hall]. split; [exact Lb|].
  eapply Forall_impl; [|exact Hall]. now intros r [Lr _].
Qed.

Lemma shape3_zipWith2 {X Y : Type} (g : X -> list Y -> list Y)
      (a : list (list X)) (c : list (list (list Y))) (b K n : nat) :
  (forall x r, length (g x r) = length r) ->
  shape2 b K a -> shape3 b K n c ->
  shape3 b K n (zipWith (zipWith g) a c).
Proof.
  intros Hg [La Ha] [Lc Hc]. rewrite Forall_forall in Ha, Hc. split.
  - rewrite zipWith_length; lia.
  - apply Forall_forall. intros rows Hin. apply In_nth_error in Hin as [i Ei].
    rewrite nth_error_zipWith in Ei.
    destruct (nth_error a i) as [ra|] eqn:Ea; [|discriminate].
    destruct (nth_error c i) as [rc|] eqn:Ec; [|discriminate].
    inversion Ei; subst rows.
    destruct (Hc rc (nth_error_In _ _ Ec)) as [Lrc Hrc].
    pose proof (Ha ra (nth_error_In _ _ Ea)) as Lra.
    rewrite Forall_forall in Hrc. split.
    + rewrite zipWith_length; lia.
    + apply Forall_forall. intros r Hr. apply In_nth_error in Hr as [j Ej].
      rewrite nth_error_zipWith in Ej.
      destruct (nth_error ra j); [|discriminate].
      destruct (nth_error rc j) as [r0|] eqn:Er; [|discriminate].
      inversion Ej; subst r. rewrite Hg. apply Hrc. eapply nth_error_In; eauto.
Qed.

Lemma shape3_map_rows {X Y : Type} (g : list X -> list Y)
      (t : list (list (list X))) (b K n m : nat) :
  (forall r, length r = n -> length (g r) = m) ->
  shape3 b K n t -> shape3 b K m (map (map g) t).
Proof.
  intros Hg [Lb Hall]. split; [now rewrite length_map|].
  apply Forall_map. eapply Forall_impl; [|exact Hall].
  intros rows [Lr Hr]. split; [now rewrite length_map|].
  apply Forall_map. eapply Forall_impl; [|exact Hr]. intros r. apply Hg.
Qed.

Lemma shape3_units {X Y : Type} (g : X -> list Y) (t : list (list X))
      (b K m : nat) :
  (forall x, length (g x) = m) ->
  shape2 b K t -> shape3 b K m (map (map g) t).
Proof.
  intros Hg [Lb Hall]. split; [now rewrite length_map|].
  apply Forall_map. eapply Forall_impl; [|exact Hall].
  intros row Lr. split; [now rewrite length_map|].
  apply Forall_map. apply Forall_forall. intros x _. apply Hg.
Qed.

(** One stage of a chain of binds has a known result. *)
Ltac run_stage H :=
  lazymatch goal with
  | |- bind ?m _ = _ =>
      lazymatch type of H with
      | _ = ?r =>
          let E := fresh "E" in
          assert (E : m = r) by exact H; rewrite E; cbn [bind]; clear E
      end
  end.

Section DecodeBoxes.
Local Open Scope R_scope.

Lemma half_double (J : nat) : (2 * J / 2 * 2 = 2 * J)%nat.
Proof.
  replace (2 * J)%nat with (J * 2)%nat by lia. now rewrite Nat.div_mul by lia.
Qed.

Lemma row_of_two (t : list (list (list R))) (b K bi k : nat) :
  shape3 b K 2 t -> (bi < b)%nat -> (k < K)%nat ->
  exists u v, get2 t bi k = Some [u; v] /\
              get3 t bi k 0 = Some u /\ get3 t bi k 1 = Some v.
Proof.
  intros St Hbi Hk.
  destruct (get2_in_shape St Hbi Hk) as (r & Er & Lr).
  destruct r as [|u [|v [|? ?]]]; try discriminate Lr.
  exists u, v. rewrite !get3_rows, Er. auto.
Qed.

(** Lines 334-341: the sub-pixel centres. *)
Lemma centres_ok (reg : option (list (list (list (list R)))))
      (inds : list (list nat)) (xs ys : list (list R)) (b h w K : nat) :
  (0 < b)%nat -> (0 < h)%nat -> (0 < w)%nat ->
  match reg with Some r => shape4 b 2 h w r | None => True end ->
  shape2 b K inds ->
  (forall bi k i, get2 inds bi k = Some i -> (i < h * w)%nat) ->
  shape2 b K xs -> shape2 b K ys ->
  exists xs' ys',
    match reg with
    | Some reg =>
        reg <- _permute_and_gather_feat reg inds ;;
        reg <- check_last 2 reg ;;
        xs <- ew3 Rplus (map (map (fun x => [x])) xs)
                        (map (map (slice 0 1)) reg) ;;
        ys <- ew3 Rplus (map (map (fun y => [y])) ys)
                        (map (map (slice 1 2)) reg) ;;
        Ok (xs, ys)
    | None =>
        Ok (map (map (fun x => [x + 0.5])) xs,
            map (map (fun y => [y + 0.5])) ys)
    end = Ok (xs', ys') /\
    shape3 b K 1 xs' /\ shape3 b K 1 ys' /\
    forall bi k ind x y,
      get2 inds bi k = Some ind ->
      get2 xs bi k = Some x -> get2 ys bi k = Some y ->
      exists cx cy,
        get2 xs' bi k = Some [cx] /\ get2 ys' bi k = Some [cy] /\
        match reg with
        | Some r =>
            exists ox oy,
              get4 r bi 0 (ind / w) (ind mod w) = Some ox /\
              get4 r bi 1 (ind / w) (ind mod w) = Some oy /\
              cx = x + ox /\ cy = y + oy
        | None => cx = x + 0.5 /\ cy = y + 0.5
        end.
Proof.
  intros Hb Hh Hw Hreg Si Hrange Sx Sy.
  destruct reg as [r|].
  - destruct (@permute_and_gather_ok R r inds b 2 h w K Hb ltac:(lia) Hh Hw
                Hreg Si Hrange) as (gr & Egr & Sgr & Hgr).
    rewrite Egr. cbn [bind]. rewrite (check_last_ok Sgr). cbn [bind].
    assert (Sx1 : shape3 b K 1 (map (map (fun x : R => [x])) xs))
      by (apply shape3_units; [reflexivity | exact Sx]).
    assert (Sy1 : shape3 b K 1 (map (map (fun y : R => [y])) ys))
      by (apply shape3_units; [reflexivity | exact Sy]).
    assert (Sr0 : shape3 b K 1 (map (map (slice 0 1)) gr)).
    { eapply shape3_map_rows; [|exact Sgr]. intros row Lr.
      destruct row as [|u [|v [|? ?]]]; try discriminate Lr. reflexivity. }
    assert (Sr1 : shape3 b K 1 (map (map (slice 1 2)) gr)).
    { eapply shape3_map_rows; [|exact Sgr]. intros row Lr.
      destruct row as [|u [|v [|? ?]]]; try discriminate Lr. reflexivity. }
    rewrite (ew3_pure Rplus Sx1 Sr0). cbn [bind].
    rewrite (ew3_pure Rplus Sy1 Sr1). cbn [bind].
    do 2 eexists. split; [reflexivity|].
    split; [now apply shape3_zipWith3|]. split; [now apply shape3_zipWith3|].
    intros bi k ind x y G Gx Gy.
    destruct (get2_Some_lt _ _ Si G) as [Hbi Hk].
    destruct (row_of_two Sgr Hbi Hk) as (ox & oy & Er & E0 & E1).
    exists (x + ox), (y + oy).
    rewrite !get2_zipWith2, !get2_map_map, Gx, Gy, Er. cbn.
    split; [reflexivity|]. split; [reflexivity|].
    exists ox, oy. rewrite <- (Hgr bi k ind 0%nat G), <- (Hgr bi k ind 1%nat G).
    auto.
  - do 2 eexists. split; [reflexivity|].
    split; [apply shape3_units; [reflexivity | exact Sx]|].
    split; [apply shape3_units; [reflexivity | exact Sy]|].
    intros bi k ind x y G Gx Gy. exists (x + 0.5), (y + 0.5).
    rewrite !get2_map_map, Gx, Gy. cbn. auto.
Qed.

(** Lines 342-351: the boxes around the centres. *)
Lemma boxes_ok (wh : list (list (list (list R)))) (inds : list (list nat))
      (xs ys : list (list (list R))) (b h w K : nat) :
  (0 < b)%nat -> (0 < h)%nat -> (0 < w)%nat ->
  shape4 b 2 h w wh -> shape2 b K inds ->
  (forall bi k i, get2 inds bi k = Some i -> (i < h * w)%nat) ->
  shape3 b K 1 xs -> shape3 b K 1 ys ->
  exists gw bboxes,
    _permute_and_gather_feat wh inds = Ok gw /\
    check_last 2 gw = Ok gw /\
    (x1 <- ew3 Rminus xs
             (map (map (fun r => map (fun v => v / 2) (slice 0 1 r))) gw) ;;
     y1 <- ew3 Rminus ys
             (map (map (fun r => map (fun v => v / 2) (slice 1 2 r))) gw) ;;
     x2 <- ew3 Rplus xs
             (map (map (fun r => map (fun v => v / 2) (slice 0 1 r))) gw) ;;
     y2 <- ew3 Rplus ys
             (map (map (fun r => map (fun v => v / 2) (slice 1 2 r))) gw) ;;
     cat_dim2 [x1; y1; x2; y2]) = Ok bboxes /\
    shape3 b K 4 bboxes /\
    forall bi k ind cx cy,
      get2 inds bi k = Some ind ->
      get2 xs bi k = Some [cx] -> get2 ys bi k = Some [cy] ->
      exists bw bh,
        get4 wh bi 0 (ind / w) (ind mod w) = Some bw /\
        get4 wh bi 1 (ind / w) (ind mod w) = Some bh /\
        get2 bboxes bi k
        = Some [cx - bw / 2; cy - bh / 2; cx + bw / 2; cy + bh / 2].
Proof.
  intros Hb Hh Hw Hwh Si Hrange Sx Sy.
  destruct (@permute_and_gather_ok R wh inds b 2 h w K Hb ltac:(lia) Hh Hw
              Hwh Si Hrange) as (gw & Egw & Sgw & Hgw).
  exists gw.
  set (half_w := map (map (fun r => map (fun v => v / 2) (slice 0 1 r))) gw).
  set (half_h := map (map (fun r => map (fun v => v / 2) (slice 1 2 r))) gw).
  assert (Sw : shape3 b K 1 half_w).
  { eapply shape3_map_rows; [|exact Sgw]. intros row Lr.
    destruct row as [|u [|v [|? ?]]]; try discriminate Lr. reflexivity. }
  assert (Sh : shape3 b K 1 half_h).
  { eapply shape3_map_rows; [|exact Sgw]. intros row Lr.
    destruct row as [|u [|v [|? ?]]]; try discriminate Lr. reflexivity. }
  rewrite (ew3_pure Rminus Sx Sw), (ew3_pure Rminus Sy Sh),
    (ew3_pure Rplus Sx Sw), (ew3_pure Rplus Sy Sh). cbn [bind cat_dim2].
  set (x1 := zipWith (zipWith (zipWith Rminus)) xs half_w).
  set (y1 := zipWith (zipWith (zipWith Rminus)) ys half_h).
  set (x2 := zipWith (zipWith (zipWith Rplus)) xs half_w).
  set (y2 := zipWith (zipWith (zipWith Rplus)) ys half_h).
  assert (S1 : shape3 b K 1 x1) by now apply shape3_zipWith3.
  assert (S2 : shape3 b K 1 y1) by now apply shape3_zipWith3.
  assert (S3 : shape3 b K 1 x2) by now apply shape3_zipWith3.
  assert (S4 : shape3 b K 1 y2) by now apply shape3_zipWith3.
  destruct (cat2_rows S3 S4) as [E34 S34]. rewrite E34. cbn [bind].
  destruct (cat2_rows S2 S34) as [E234 S234]. rewrite E234. cbn [bind].
  destruct (cat2_rows S1 S234) as [E1234 S1234]. rewrite E1234.
  eexists. split; [exact Egw|]. split; [exact (check_last_ok Sgw)|].
  split; [reflexivity|]. split; [exact S1234|].
  intros bi k ind cx cy G Gx Gy.
  destruct (get2_Some_lt _ _ Si G) as [Hbi Hk].
  destruct (row_of_two Sgw Hbi Hk) as (bw & bh & Er & E0 & E1).
  exists bw, bh.
  rewrite <- (Hgw bi k ind 0%nat G), <- (Hgw bi k ind 1%nat G).
  split; [exact E0|]. split; [exact E1|].
  unfold x1, y1, x2, y2, half_w, half_h.
  rewrite !get2_zipWith2, !get2_map_map, Gx, Gy, Er. cbn. reflexivity.
Qed.


(** [decode_boxes] on well-formed inputs, stage by stage: the peaks with
    their coordinates, the keypoint field read at the peaks, the centres
    and the boxes. *)
Lemma decode_boxes_run
      (heat wh kps : T4) (reg : option T4) (b c J h w K : nat) :
  (0 < b)%nat -> (0 < c)%nat -> (0 < h)%nat -> (0 < w)%nat -> (0 < J)%nat ->
  shape4 b c h w heat -> shape4 b 2 h w wh -> shape4 b (2 * J) h w kps ->
  match reg with Some r => shape4 b 2 h w r | None => True end ->
  (K <= h * w)%nat ->
  exists score inds clses ys xs gk xs' ys' bboxes,
    decode_boxes heat wh kps reg K
    = Ok (map (map (fun s => [s])) score, inds,
          map (map (fun c => [INR c])) clses,
          zipWith (zipWith add_odd) ys (zipWith (zipWith add_even) xs gk),
          bboxes) /\
    shape2 b K inds /\ shape2 b K ys /\ shape2 b K xs /\
    shape3 b K (2 * J) gk /\
    shape3 b K (2 * J)
           (zipWith (zipWith add_odd) ys (zipWith (zipWith add_even) xs gk)) /\
    shape3 b K 4 bboxes /\
    (forall bi k ind, get2 inds bi k = Some ind ->
       (ind < h * w)%nat /\
       get2 ys bi k = Some (INR (float_of_int (true_div_int ind w))) /\
       get2 xs bi k = Some (INR (float_of_int (ind mod w)))) /\
    (forall bi k i ch, get2 inds bi k = Some i ->
       get3 gk bi k ch = get4 kps bi ch (i / w) (i mod w)) /\
    (forall bi k ind x y,
       get2 inds bi k = Some ind ->
       get2 xs bi k = Some x -> get2 ys bi k = Some y ->
       exists cx cy,
         get2 xs' bi k = Some [cx] /\ get2 ys' bi k = Some [cy] /\
         match reg with
         | Some r =>
             exists ox oy,
               get4 r bi 0 (ind / w) (ind mod w) = Some ox /\
               get4 r bi 1 (ind / w) (ind mod w) = Some oy /\
               cx = x + ox /\ cy = y + oy
         | None => cx = x + 0.5 /\ cy = y + 0.5
         end) /\
    (forall bi k ind cx cy,
       get2 inds bi k = Some ind ->
       get2 xs' bi k = Some [cx] -> get2 ys' bi k = Some [cy] ->
       exists bw bh,
         get4 wh bi 0 (ind / w) (ind mod w) = Some bw /\
         get4 wh bi 1 (ind / w) (ind mod w) = Some bh /\
         get2 bboxes bi k
         = Some [cx - bw / 2; cy - bh / 2; cx + bw / 2; cy + bh / 2]).
Proof.
  unfold T4, T3, T2, T1 in *.
  intros Hb Hc Hh Hw HJ Hheat Hwh Hkps Hreg HK.
  pose proof (shape4_nms Hheat) as Hs'.
  destruct (topk_coordinates Hb Hc Hh Hw Hs' HK)
    as (score & inds & clses & ys & xs & Etop & Ss & Si & Sc & Sy & Sx & Hcoord).
  assert (Hrange : forall bi k i, get2 inds bi k = Some i -> (i < h * w)%nat).
  { intros bi k i G. now destruct (Hcoord bi k i G). }
  destruct (@permute_and_gather_ok R kps inds b (2 * J) h w K Hb ltac:(lia)
              Hh Hw Hkps Si Hrange) as (gk & Egk & Sgk & Hgk).
  assert (Esz : size1 kps = (2 * J)%nat).
  { destruct Hkps as [Lb Hall]. destruct kps as [|fb ft]; [simpl in Lb; lia|].
    apply Forall_inv in Hall. now destruct Hall. }
  set (k3 := zipWith (zipWith add_even) xs gk).
  set (k4 := zipWith (zipWith add_odd) ys k3).
  assert (Sk3 : shape3 b K (2 * J) k3)
    by (apply shape3_zipWith2; [apply add_even_length | exact Sx | exact Sgk]).
  assert (Sk4 : shape3 b K (2 * J) k4)
    by (apply shape3_zipWith2; [apply add_odd_length | exact Sy | exact Sk3]).
  destruct (@centres_ok reg inds xs ys b h w K Hb Hh Hw Hreg Si Hrange Sx Sy)
    as (xs' & ys' & Ecen & Sx' & Sy' & Hcen).
  destruct (@boxes_ok wh inds xs' ys' b h w K Hb Hh Hw Hwh Si Hrange Sx' Sy')
    as (gw & bboxes & Egw & Echk & Ebox & Sbox & Hbox).
  exists score, inds, clses, ys, xs, gk, xs', ys', bboxes.
  assert (Ebox' : forall (X : Type) (v : X),
            (x1 <- ew3 Rminus xs'
                     (map (map (fun r => map (fun v => v / 2) (slice 0 1 r))) gw) ;;
             y1 <- ew3 Rminus ys'
                     (map (map (fun r => map (fun v => v / 2) (slice 1 2 r))) gw) ;;
             x2 <- ew3 Rplus xs'
                     (map (map (fun r => map (fun v => v / 2) (slice 0 1 r))) gw) ;;
             y2 <- ew3 Rplus ys'
                     (map (map (fun r => map (fun v => v / 2) (slice 1 2 r))) gw) ;;
             bboxes <- cat_dim2 [x1; y1; x2; y2] ;; Ok (v, bboxes))
            = Ok (v, bboxes)).
  { intros X v. revert Ebox.
    destruct (ew3 Rminus xs' _) as [x1|]; cbn [bind]; [|discriminate].
    destruct (ew3 Rminus ys' _) as [y1|]; cbn [bind]; [|discriminate].
    destruct (ew3 Rplus xs' _) as [x2|]; cbn [bind]; [|discriminate].
    destruct (ew3 Rplus ys' _) as [y2|]; cbn [bind]; [|discriminate].
    intros E. unfold T3, T2, T1 in *. rewrite E. reflexivity. }
  split.
  { unfold decode_boxes.
    run_stage (nms_maps_planes Hheat). run_stage Etop. run_stage Egk.
    assert (Ek : check_last (size1 kps / 2 * 2) gk = Ok gk)
      by (rewrite Esz, half_double; exact (check_last_ok Sgk)).
    run_stage Ek.
    run_stage (zipM2_pure add_even Sx (shape3_rows Sgk)).
    run_stage (zipM2_pure add_odd Sy (shape3_rows Sk3)).
    run_stage Ecen. run_stage Egw. run_stage Echk.
    cbv zeta. apply Ebox'. }
  repeat (split; [assumption|]). exact Hbox.
Qed.

(** X16: lines 324-351 of [object_pose_decode] on well-formed inputs (a
    heatmap [batch, classes, height, width] with no empty axis, [wh] with
    2 channels, [kps] with 2 J channels, [reg] absent or with 2 channels,
    K <= height * width <= 2^24): the stage returns K candidates per batch
    item.
    Every returned index is below height * width and, with y = index /
    width and x = index mod width, the box of the candidate is
    [cx - bw / 2; cy - bh / 2; cx + bw / 2; cy + bh / 2], where bw and bh
    are the two channels of [wh] at (y, x) and (cx, cy) is (x, y) plus the
    two channels of [reg] at (y, x), or plus 0.5 without [reg]; keypoint j
    of the candidate is channel 2 j of [kps] at (y, x) plus x and channel
    2 j + 1 plus y. *)
Theorem decode_boxes_at_peaks
        (heat wh kps : T4) (reg : option T4) (b c J h w K : nat) :
  (0 < b)%nat -> (0 < c)%nat -> (0 < h)%nat -> (0 < w)%nat -> (0 < J)%nat ->
  shape4 b c h w heat -> shape4 b 2 h w wh -> shape4 b (2 * J) h w kps ->
  match reg with Some r => shape4 b 2 h w r | None => True end ->
  (K <= h * w)%nat ->
  (Z.of_nat (h * w) <= 2 ^ 24)%Z ->
  exists scores inds clses kps' bboxes,
    decode_boxes heat wh kps reg K = Ok (scores, inds, clses, kps', bboxes) /\
    shape2 b K inds /\ shape3 b K (2 * J) kps' /\ shape3 b K 4 bboxes /\
    forall bi k ind, get2 inds bi k = Some ind ->
      let y := (ind / w)%nat in
      let x := (ind mod w)%nat in
      (ind < h * w)%nat /\
      (exists bw bh cx cy,
          get4 wh bi 0 y x = Some bw /\ get4 wh bi 1 y x = Some bh /\
          match reg with
          | Some r =>
              exists ox oy,
                get4 r bi 0 y x = Some ox /\ get4 r bi 1 y x = Some oy /\
                cx = INR x + ox /\ cy = INR y + oy
          | None => cx = INR x + 0.5 /\ cy = INR y + 0.5
          end /\
          get2 bboxes bi k
          = Some [cx - bw / 2; cy - bh / 2; cx + bw / 2; cy + bh / 2]) /\
      (forall j v, (j < J)%nat ->
         (get4 kps bi (2 * j) y x = Some v ->
          get3 kps' bi k (2 * j) = Some (v + INR x)) /\
         (get4 kps bi (2 * j + 1) y x = Some v ->
          get3 kps' bi k (2 * j + 1) = Some (v + INR y))).
Proof.
  intros Hb Hc Hh Hw HJ Hheat Hwh Hkps Hreg HK Hcells.
  destruct (decode_boxes_run reg Hb Hc Hh Hw HJ Hheat Hwh Hkps Hreg HK)
    as (score & inds & clses & ys & xs & gk & xs' & ys' & bboxes & E & Si & Sy
        & Sx & Sgk & Sk4 & Sbox & Hcoord & Hgk & Hcen & Hbox).
  unfold T4, T3, T2, T1 in *.
  do 5 eexists. split; [exact E|].
  split; [exact Si|]. split; [exact Sk4|]. split; [exact Sbox|].
  intros bi k ind G.
  set (y := (ind / w)%nat). set (x := (ind mod w)%nat).
  destruct (Hcoord bi k ind G) as (Hind & Gy & Gx).
  destruct (@f32_index_exact (h * w) ind w Hind Hw ltac:(nia) Hcells)
    as (Ey & Ey' & Ex).
  rewrite Ey, Ey' in Gy. rewrite Ex in Gx.
  fold y in Gy. fold x in Gx.
  split; [exact Hind|]. split.
  - destruct (Hcen bi k ind (INR x) (INR y) G Gx Gy) as (cx & cy & Gcx & Gcy & Hc').
    destruct (Hbox bi k ind cx cy G Gcx Gcy) as (bw & bh & Ew & Eh & Eb).
    exists bw, bh, cx, cy. auto.
  - intros j v Hj.
    destruct (get2_Some_lt _ _ Si G) as [Hbi Hk].
    destruct (get2_in_shape Sgk Hbi Hk) as (row & Erow & Lrow).
    assert (E4 : get2 (zipWith (zipWith add_odd) ys
                               (zipWith (zipWith add_even) xs gk)) bi k
                 = Some (add_odd (INR y) (add_even (INR x) row))).
    { rewrite !get2_zipWith2. unfold T1 in *.
      rewrite Gy, Gx, Erow. reflexivity. }
    destruct (add_odd_even_nth (INR x) (INR y) row) as [_ Hnth].
    destruct (Hnth j v) as [He Ho].
    unfold T1 in *. rewrite !get3_rows, E4.
    pose proof (Hgk bi k ind (2 * j)%nat G) as H0.
    pose proof (Hgk bi k ind (2 * j + 1)%nat G) as H1.
    rewrite get3_rows, Erow in H0, H1. fold y x in H0, H1.
    rewrite <- H0, <- H1. auto.
Qed.

End DecodeBoxes.

(** ** Where the decoding stops *)

Section DecodeErrors.

(** *** Stages that cannot fail on well-formed operands *)

Lemma mapM_exists {X Y : Type} (f : X -> result Y) (Q : X -> Prop)
      (P : Y -> Prop) (l : list X) :
  Forall Q l ->
  (forall x, Q x -> exists y, f x = Ok y /\ P y) ->
  exists r, mapM f l = Ok r /\ length r = length l /\ Forall P r.
Proof.
  intros Hl Hf. induction Hl as [|x t Hx _ IH].
  - exists []. repeat split. constructor.
  - destruct (Hf x Hx) as (y & Ey & Py). destruct IH as (r & Er & Lr & Pr).
    exists (y :: r). simpl. rewrite Ey. cbn [bind]. rewrite Er. cbn [bind].
    repeat split; [simpl; lia | constructor; assumption].
Qed.

Lemma zipM_exists {X Y Z : Type} (f : X -> Y -> result Z)
      (Q : X -> Y -> Prop) (P : Z -> Prop) (l1 : list X) (l2 : list Y) :
  Forall2 Q l1 l2 ->
  (forall x y, Q x y -> exists z, f x y = Ok z /\ P z) ->
  exists r, zipM f l1 l2 = Ok r /\ length r = length l1 /\ Forall P r.
Proof.
  intros Hl Hf. induction Hl as [|x y t u Hxy _ IH].
  - exists []. repeat split. constructor.
  - destruct (Hf x y Hxy) as (z & Ez & Pz). destruct IH as (r & Er & Lr & Pr).
    exists (z :: r). simpl. rewrite Ez. cbn [bind]. rewrite Er. cbn [bind].
    repeat split; [simpl; lia | constructor; assumption].
Qed.

Lemma Forall2_both {X Y : Type} (A : X -> Prop) (B : Y -> Prop)
      (l1 : list X) (l2 : list Y) :
  length l1 = length l2 -> Forall A l1 -> Forall B l2 ->
  Forall2 (fun x y => A x /\ B y) l1 l2.
Proof.
  revert l2. induction l1 as [|x t IH]; intros [|y u] L HA HB;
    try discriminate; constructor.
  - split; [now inversion HA | now inversion HB].
  - apply IH; [simpl in L; lia | now inversion HA | now inversion HB].
Qed.

Lemma Forall_zipWith {X Y Z : Type} (g : X -> Y -> Z) (A : X -> Prop)
      (B : Y -> Prop) (P : Z -> Prop) (l1 : list X) (l2 : list Y) :
  Forall A l1 -> Forall B l2 ->
  (forall x y, A x -> B y -> P (g x y)) ->
  Forall P (zipWith g l1 l2).
Proof.
  intros HA. revert l2. induction HA as [|x t Hx _ IH]; intros l2 HB Hg.
  - constructor.
  - destruct l2 as [|y u]; [constructor|]. simpl. inversion HB; subst.
    constructor; [now apply Hg | now apply IH].
Qed.

(** [t[..., i]] on a rank-4 tensor whose last axis is longer than [i]. *)
Lemma index_last_ok {X : Type} (i n b J K : nat)
      (v : list (list (list (list X)))) :
  i < n -> shape4 b J K n v ->
  exists o, mapM (mapM (mapM (fun r => index r i))) v = Ok o /\ shape3 b J K o.
Proof.
  intros Hi [Lb Hall].
  destruct (@mapM_exists _ _ (mapM (mapM (fun r : list X => index r i)))
              (shape3 J K n) (shape2 J K) v Hall) as (o & E & Lo & Fo).
  { intros s [Ls Hs].
    destruct (@mapM_exists _ _ (mapM (fun r : list X => index r i))
                (shape2 K n) (fun x => length x = K) s Hs)
      as (o2 & E2 & L2 & F2).
    { intros rows [Lr Hr].
      destruct (@mapM_exists _ _ (fun r : list X => index r i)
                  (fun r => length r = n) (fun _ => True) rows Hr)
        as (o3 & E3 & L3 & _).
      { intros r Lr'. unfold index.
        destruct (nth_error r i) as [x|] eqn:En; [eauto|].
        apply nth_error_None in En. lia. }
      exists o3. split; [exact E3 | lia]. }
    exists o2. split; [exact E2|]. split; [lia | exact F2]. }
  exists o. split; [exact E|]. split; [lia | exact Fo].
Qed.

Lemma view_pairs_ok {X : Type} (J : nat) (l : list X) :
  length l = 2 * J ->
  exists pts, view_pairs l = Ok pts /\ length pts = J /\
              Forall (fun p => length p = 2) pts.
Proof.
  revert l. induction J as [|J IH]; intros l Hl.
  - destruct l; [|simpl in Hl; lia]. exists []. repeat split. constructor.
  - destruct l as [|x [|y t]]; simpl in Hl; try lia.
    destruct (IH t) as (pts & E & L & F); [lia|].
    exists ([x; y] :: pts). simpl. rewrite E. cbn [bind].
    repeat split; [simpl; lia | constructor; [reflexivity | exact F]].
Qed.

(** Line 362: the regression keypoints as [batch x J x K x 2]. *)
Lemma regression_pairs_ok {X : Type} (J b K : nat) (kps : list (list (list X))) :
  shape3 b K (2 * J) kps ->
  exists kps4,
    mapM (fun kb => rows <- mapM view_pairs kb ;; Ok (transpose J rows)) kps
    = Ok kps4 /\
    shape3 b J K kps4.
Proof.
  intros [Lb Hall].
  destruct (@mapM_exists _ _
              (fun kb : list (list X) =>
                 rows <- mapM view_pairs kb ;; Ok (transpose J rows))
              (shape2 K (2 * J)) (shape2 J K) kps Hall) as (r & E & Lr & Fr).
  { intros kb [Lk Hk].
    destruct (@mapM_exists _ _ (@view_pairs X) (fun r => length r = 2 * J)
                (fun pts => length pts = J) kb Hk) as (rows & Er & Lrows & Frows).
    { intros row Lrow. destruct (view_pairs_ok J row Lrow) as (pts & Ep & Lp & _).
      eauto. }
    exists (transpose J rows). rewrite Er. cbn [bind]. split; [reflexivity|].
    split; [now apply transpose_length|].
    apply Forall_forall. intros col Hin.
    rewrite (@transpose_col_length _ J rows col Frows Hin). lia. }
  exists r. split; [exact E|]. split; [lia | exact Fr].
Qed.

Local Open Scope R_scope.

(** *** Candidates and matching *)

Lemma min_from_index (l : T1) (best : R) (besti i : nat) (d : R) (j : nat) :
  min_from best besti i l = (d, j) -> (besti < i)%nat ->
  (j < i + length l)%nat.
Proof.
  revert best besti i. induction l as [|a t IH]; intros best besti i E Hlt;
    simpl in E.
  - inversion E; subst. lia.
  - destruct (Rlt_dec a best).
    + specialize (IH a i (Datatypes.S i) E). simpl. lia.
    + specialize (IH best besti (Datatypes.S i) E). simpl. lia.
Qed.

Lemma match_one_ok (cands : T2) (scores p : T1) :
  cands <> [] -> length scores = length cands ->
  Forall (fun c => length c = 2%nat) cands ->
  exists m, match_one cands scores p = Ok m /\ length (hm_kps_of m) = 2%nat.
Proof.
  unfold T2, T1 in *. intros Hne Hlen Hc.
  destruct cands as [|c0 cs]; [congruence|].
  unfold match_one, min_dim, pick. cbn [map].
  destruct (min_from (dist p c0) 0 1 (map (dist p) cs)) as [d j] eqn:Emin.
  assert (Hi : (j < 1 + length cs)%nat).
  { pose proof (@min_from_index _ _ _ _ _ _ Emin ltac:(lia)) as Hi.
    rewrite length_map in Hi. exact Hi. }
  cbn [bind]. unfold T2, T1 in *.
  destruct (nth_error scores j) as [s|] eqn:Es;
    [|apply nth_error_None in Es; simpl in Hlen; lia].
  destruct (nth_error (c0 :: cs) j) as [c|] eqn:Ec;
    [|apply nth_error_None in Ec; simpl in Ec; lia].
  cbn [bind]. eexists. split; [reflexivity|]. cbn [hm_kps_of].
  rewrite Forall_forall in Hc. apply Hc. eapply nth_error_In; eauto.
Qed.

(** Lines 376-390 on well-formed operands: every regression keypoint gets
    a match, and the matched candidate is a point. *)
Lemma match_candidates_ok (J b K : nat) (kps : T4) (hm_score hm_xs hm_ys : T3) :
  (0 < K)%nat ->
  shape3 b J K kps -> shape3 b J K hm_score ->
  shape3 b J K hm_xs -> shape3 b J K hm_ys ->
  exists matched,
    match_candidates J kps hm_score hm_xs hm_ys = Ok matched /\
    length matched = b /\
    Forall (fun mb => length mb = J /\
              Forall (fun mj => length mj = K /\
                        Forall (fun m => length (hm_kps_of m) = 2%nat) mj) mb)
           matched.
Proof.
  unfold T4, T3, T2, T1 in *. intros HK Sk Ss Sx Sy.
  set (ys' := zipWith (zipWith (zipWith thresh_coord)) hm_score hm_ys).
  set (xs' := zipWith (zipWith (zipWith thresh_coord)) hm_score hm_xs).
  assert (Sys' : shape3 b J K ys') by now apply shape3_zipWith3.
  assert (Sxs' : shape3 b J K xs') by now apply shape3_zipWith3.
  set (hk := zipWith (zipWith (zipWith (fun x y : R => [x; y]))) xs' ys').
  assert (Shk : shape3 b J K hk) by now apply shape3_zipWith3.
  assert (Phk : Forall (Forall (Forall (fun c : list R => length c = 2%nat))) hk).
  { unfold hk. destruct Sxs' as [_ Hx], Sys' as [_ Hy].
    apply (@Forall_zipWith _ _ _ _ _ _ _ _ _ Hx Hy). intros x y [_ Hx'] [_ Hy'].
    apply (@Forall_zipWith _ _ _ _ _ _ _ _ _ Hx' Hy'). intros rx ry Lrx Lry.
    assert (Tx : Forall (fun _ : R => True) rx) by (apply Forall_forall; auto).
    assert (Ty : Forall (fun _ : R => True) ry) by (apply Forall_forall; auto).
    apply (@Forall_zipWith _ _ _ _ _ _ _ _ _ Tx Ty). reflexivity. }
  assert (Eexp : mapM (expand0 J) hk = Ok hk).
  { rewrite <- (map_id hk) at 2. apply mapM_map. intros x Hx.
    apply expand0_same. destruct Shk as [_ Hall]. rewrite Forall_forall in Hall.
    now destruct (Hall x Hx). }
  set (hs := map (map (map thresh_score)) hm_score).
  assert (Shs : shape3 b J K hs) by now apply shape3_map3.
  set (cands := zipWith (zipWith (@pair (list (list R)) (list R))) hk hs).
  assert (Estages :
            match_candidates J kps hm_score hm_xs hm_ys
            = zipM (zipM (fun (regs : list (list R)) '(c, s) =>
                            mapM (match_one c s) regs)) kps cands).
  { unfold match_candidates.
    run_stage (ew3_pure thresh_coord Ss Sy).
    run_stage (ew3_pure thresh_coord Ss Sx).
    run_stage (zipM3_pure (fun x y : R => [x; y]) Sxs' Sys').
    run_stage Eexp.
    run_stage (zipM2_pure (@pair (list (list R)) (list R))
                 (shape3_rows Shk) (shape3_rows Shs)).
    reflexivity. }
  rewrite Estages. clear Estages.
  set (B := fun cs : list (list R) * list R =>
              length (fst cs) = K /\ length (snd cs) = K /\
              Forall (fun c : list R => length c = 2%nat) (fst cs)).
  assert (Lc : length cands = b).
  { unfold cands. rewrite zipWith_length.
    destruct Shk as [-> _], Shs as [-> _]. apply Nat.min_id. }
  assert (Pc : Forall (fun cb => length cb = J /\ Forall B cb) cands).
  { unfold cands.
    assert (Ahk : Forall (fun s => length s = J /\
                            Forall (fun c => length c = K /\
                                      Forall (fun p : list R => length p = 2%nat) c) s)
                         hk).
    { destruct Shk as [_ Hall]. rewrite Forall_forall in *. intros s Hs.
      destruct (Hall s Hs) as [Ls Hr]. split; [exact Ls|].
      rewrite Forall_forall in *. intros c Hc. split; [now apply Hr|].
      pose proof (Phk s Hs) as Ps. rewrite Forall_forall in Ps.
      exact (Ps c Hc). }
    destruct Shs as [_ Hhs]. apply (@Forall_zipWith _ _ _ _ _ _ _ _ _ Ahk Hhs).
    intros s t [Ls Hs] [Lt Ht]. split; [rewrite zipWith_length; lia|].
    apply (@Forall_zipWith _ _ _ _ _ _ _ _ _ Hs Ht). intros c sc [Lcn Hc2] Lsc.
    unfold B. cbn [fst snd]. auto. }
  destruct Sk as [Lk Hk].
  destruct (@zipM_exists _ _ _
              (zipM (fun (regs : list (list R)) '(c, s) => mapM (match_one c s) regs))
              (fun kb cb => shape2 J K kb /\ (length cb = J /\ Forall B cb))
              (fun mb => length mb = J /\
                 Forall (fun mj => length mj = K /\
                           Forall (fun m => length (hm_kps_of m) = 2%nat) mj) mb)
              kps cands) as (matched & Em & Lm & Fm).
  { apply Forall2_both; [transitivity b; [exact Lk | symmetry; exact Lc] | exact Hk | exact Pc]. }
  { intros kb cb [[Lkb Hkb] [Lcb Hcb]].
    destruct (@zipM_exists _ _ _
                (fun (regs : list (list R)) '(c, s) => mapM (match_one c s) regs)
                (fun regs cs => length regs = K /\ B cs)
                (fun mj => length mj = K /\
                           Forall (fun m => length (hm_kps_of m) = 2%nat) mj)
                kb cb) as (mb & Emb & Lmb & Fmb).
    { apply Forall2_both; [transitivity J; [exact Lkb | symmetry; exact Lcb] | exact Hkb | exact Hcb]. }
    { intros regs [c s] [Lregs (Lcn & Lsn & Hc2)]. cbn [fst snd] in *.
      assert (Tregs : Forall (fun _ : list R => True) regs)
        by (apply Forall_forall; auto).
      destruct (@mapM_exists _ _ (match_one c s) (fun _ => True)
                  (fun m => length (hm_kps_of m) = 2%nat) regs Tregs)
        as (mj & Emj & Lmj & Fmj).
      { intros p _.
        apply match_one_ok;
          [|transitivity K; [exact Lsn | symmetry; exact Lcn] | exact Hc2].
        intros ->. simpl in Lcn. lia. }
      exists mj. split; [exact Emj|].
      split; [transitivity (length regs); [exact Lmj | exact Lregs] | exact Fmj]. }
    exists mb. split; [exact Emb|].
    split; [transitivity (length kb); [exact Lmb | exact Lkb] | exact Fmb]. }
  exists matched. split; [exact Em|].
  split; [transitivity (length kps); [exact Lm | exact Lk] | exact Fm].
Qed.

(** *** Candidate offsets *)

Lemma shape2_concat_rows {X : Type} (b J K : nat) (t : list (list (list X))) :
  shape3 b J K t -> shape2 b (J * K) (map (@concat X) t).
Proof.
  intros [Lb Hall]. split; [now rewrite length_map|].
  apply Forall_map. eapply Forall_impl; [|exact Hall].
  intros s [Ls Hs]. rewrite (length_concat_uniform Hs), Ls. reflexivity.
Qed.

Lemma concat_rows_range (P : nat -> Prop) (t : list (list (list nat))) :
  Forall (Forall (Forall P)) t ->
  forall bi k i, get2 (map (@concat nat) t) bi k = Some i -> P i.
Proof.
  intros H bi k i G. unfold get2 in G. rewrite nth_error_map in G.
  destruct (nth_error t bi) as [s|] eqn:Es; [|discriminate]. cbn in G.
  apply nth_error_In in G. apply in_concat in G as (row & Hrow & Hi).
  rewrite Forall_forall in H. pose proof (H s (nth_error_In _ _ Es)) as Hs.
  rewrite Forall_forall in Hs. pose proof (Hs row Hrow) as Hr.
  rewrite Forall_forall in Hr. auto.
Qed.

Lemma Forall_slice {X : Type} (P : X -> Prop) (a c : nat) (l : list X) :
  Forall P l -> Forall P (slice a c l).
Proof.
  intros H. unfold slice.
  rewrite <- (firstn_skipn a l) in H. apply Forall_app in H as [_ H].
  rewrite <- (firstn_skipn (c - a) (skipn a l)) in H.
  now apply Forall_app in H as [H _].
Qed.

Lemma view_J_K_ok (J K : nat) (rows : T2) :
  shape2 (J * K) 2 rows ->
  exists v, view_J_K J K rows = Ok v /\ shape3 J K 2 v.
Proof.
  intros [L H]. unfold view_J_K. unfold T2, T1 in *.
  rewrite L, Nat.eqb_refl, (forallb_length_eq H). cbn [andb].
  eexists. split; [reflexivity|]. split.
  - now rewrite length_map, length_seq.
  - apply Forall_map. apply Forall_forall. intros j Hj. apply in_seq in Hj.
    split; [|now apply Forall_slice].
    unfold slice. rewrite length_firstn, length_skipn, L. nia.
Qed.

(** Lines 367-375 on well-formed operands. *)
Lemma apply_offsets_ok (J K b h w : nat) (ko : option T4)
      (hm_inds : list (list (list nat))) (hm_xs hm_ys : T3) :
  (0 < b)%nat -> (0 < h)%nat -> (0 < w)%nat ->
  match ko with Some r => shape4 b 2 h w r | None => True end ->
  shape3 b J K hm_inds ->
  Forall (Forall (Forall (fun i => (i < h * w)%nat))) hm_inds ->
  shape3 b J K hm_xs -> shape3 b J K hm_ys ->
  exists xs ys,
    apply_offsets J K ko hm_inds hm_xs hm_ys = Ok (xs, ys) /\
    shape3 b J K xs /\ shape3 b J K ys.
Proof.
  unfold T4, T3, T2, T1 in *. intros Hb Hh Hw Hko Si Ri Sx Sy.
  destruct ko as [r|]; unfold apply_offsets.
  - destruct (@permute_and_gather_ok R r (map (@concat nat) hm_inds)
                b 2 h w (J * K) Hb ltac:(lia) Hh Hw Hko
                (shape2_concat_rows Si)
                (@concat_rows_range _ hm_inds Ri))
      as (g & Eg & [Lg Hg] & _).
    destruct (@mapM_exists _ _ (view_J_K J K) (shape2 (J * K) 2)
                (shape3 J K 2) g Hg) as (v & Ev & Lv & Fv).
    { intros rows Hrows. apply view_J_K_ok. exact Hrows. }
    assert (Sv : shape4 b J K 2 v)
      by (split; [transitivity (length g); [exact Lv | exact Lg] | exact Fv]).
    destruct (@index_last_ok R 0 2 b J K v ltac:(lia) Sv) as (ox & Eox & Sox).
    destruct (@index_last_ok R 1 2 b J K v ltac:(lia) Sv) as (oy & Eoy & Soy).
    exists (zipWith (zipWith (zipWith Rplus)) hm_xs ox),
           (zipWith (zipWith (zipWith Rplus)) hm_ys oy).
    split; [|split; now apply shape3_zipWith3].
    run_stage Eg. run_stage Ev. run_stage Eox. run_stage Eoy.
    run_stage (ew3_pure Rplus Sx Sox). run_stage (ew3_pure Rplus Sy Soy).
    reflexivity.
  - do 2 eexists. split; [reflexivity|]. split; now apply shape3_map3.
Qed.

(** *** The acceptance test and the mask *)

Lemma reject_ok (box : T1) (m : Match) :
  length box = 4%nat -> length (hm_kps_of m) = 2%nat ->
  exists r, reject box m = Ok r.
Proof.
  unfold T1 in *. intros Lb Lm.
  destruct box as [|l [|t [|r [|bt [|]]]]]; try discriminate.
  unfold reject, index. cbn [nth_error bind].
  destruct (hm_kps_of m) as [|hx [|hy [|]]]; try discriminate. eauto.
Qed.

Lemma bottom_ok (J b K : nat) (bboxes : T3) :
  shape3 b K 4 bboxes ->
  exists bottom,
    mapM (fun bb => row <- mapM (fun box => b <- index box 3 ;; Ok [b]) bb ;;
                    Ok (repeat row J)) bboxes = Ok bottom.
Proof.
  unfold T3, T2, T1 in *. intros [_ Hall].
  destruct (@mapM_exists _ _
              (fun bb : list (list R) =>
                 row <- mapM (fun box => b <- index box 3 ;; Ok [b]) bb ;;
                 Ok (repeat row J))
              (shape2 K 4) (fun _ => True) bboxes Hall) as (bottom & E & _).
  { intros bb [_ Hbb].
    destruct (@mapM_exists _ _ (fun box : list R => b <- index box 3 ;; Ok [b])
                (fun box => length box = 4%nat) (fun _ => True) bb Hbb)
      as (row & Er & _).
    { intros box Lbox. destruct box as [|x0 [|x1 [|x2 [|x3 [|]]]]];
        try discriminate. cbn. eauto. }
    rewrite Er. cbn [bind]. eauto. }
  eauto.
Qed.

Lemma mask_ok (J b K : nat) (matched : list (list (list Match)))
      (bboxes : T3) :
  length matched = b ->
  Forall (fun mb => length mb = J /\
            Forall (fun mj => length mj = K /\
                      Forall (fun m => length (hm_kps_of m) = 2%nat) mj) mb)
         matched ->
  shape3 b K 4 bboxes ->
  exists mask,
    zipM (fun mb bb =>
            mapM (fun mj => zipM (fun m box => r <- reject box m ;;
                                            Ok [if r : bool then 1 else 0])
                                 mj bb) mb)
         matched bboxes = Ok mask.
Proof.
  unfold T3, T2, T1 in *. intros Lm Fm [Lb Hb].
  destruct (@zipM_exists _ _ _
              (fun (mb : list (list Match)) (bb : list (list R)) =>
                 mapM (fun mj => zipM (fun m box => r <- reject box m ;;
                                                 Ok [if r : bool then 1 else 0])
                                      mj bb) mb)
              (fun mb bb =>
                 (length mb = J /\
                  Forall (fun mj => length mj = K /\
                            Forall (fun m => length (hm_kps_of m) = 2%nat) mj) mb)
                 /\ shape2 K 4 bb)
              (fun _ => True) matched bboxes) as (mask & E & _).
  { apply Forall2_both; [transitivity b; [exact Lm | symmetry; exact Lb]
                        | exact Fm | exact Hb]. }
  { intros mb bb [[Lmb Hmb] [Lbb Hbb]].
    destruct (@mapM_exists _ _
                (fun mj : list Match =>
                   zipM (fun m box => r <- reject box m ;;
                                      Ok [if r : bool then 1 else 0]) mj bb)
                (fun mj => length mj = K /\
                           Forall (fun m => length (hm_kps_of m) = 2%nat) mj)
                (fun _ => True) mb Hmb) as (rows & Er & _).
    { intros mj [Lmj Hmj].
      destruct (@zipM_exists _ _ _
                  (fun (m : Match) (box : list R) =>
                     r <- reject box m ;; Ok [if r : bool then 1 else 0])
                  (fun m box => length (hm_kps_of m) = 2%nat /\
                                length box = 4%nat)
                  (fun _ => True) mj bb) as (row & Erow & _).
      { apply Forall2_both;
          [transitivity K; [exact Lmj | symmetry; exact Lbb]
          | exact Hmj | exact Hbb]. }
      { intros m box [Hm Hbox]. destruct (reject_ok box m Hbox Hm) as (r & Er).
        rewrite Er. cbn [bind]. eauto. }
      eauto. }
    eauto. }
  eauto.
Qed.

(** Lines 360-403 on well-formed operands: everything up to the mask is
    computed, and the size list of line 403 is refused. *)
Lemma refine_keypoints_type_error (K J b h w : nat) (kps bboxes : T3)
      (kps_heatmap : T4) (kps_offsets : option T4) :
  (0 < b)%nat -> (0 < J)%nat -> (0 < h)%nat -> (0 < w)%nat ->
  (0 < K)%nat -> (K <= h * w)%nat ->
  shape3 b K (2 * J) kps -> shape3 b K 4 bboxes ->
  shape4 b J h w kps_heatmap ->
  match kps_offsets with Some r => shape4 b 2 h w r | None => True end ->
  refine_keypoints K J kps bboxes kps_heatmap kps_offsets = Raise TypeError.
Proof.
  unfold T4, T3, T2, T1 in *.
  intros Hb HJ Hh Hw HK HKle Sk Sb Sh So.
  pose proof (shape4_nms Sh) as Sh'.
  set (kh := map (map nms_plane) kps_heatmap) in *.
  destruct (regression_pairs_ok J Sk) as (kps4 & Ek4 & Sk4).
  pose proof (topk_channel_planes Hb HJ Hh Sh' HKle) as Etop.
  assert (Hlen : forall (Y : Type) (f : nat -> Y) (plane : list (list R)),
            shape2 h w plane ->
            length (map f (snd (topk_sel (concat plane) K))) = K).
  { intros Y f plane Hp. rewrite length_map.
    apply topk_sel_spec. now rewrite (length_concat_plane Hp). }
  assert (Ss : shape3 b J K
                 (map (map (fun plane => fst (topk_sel (concat plane) K))) kh)).
  { apply (shape3_of_planes _ Sh'). intros plane Hp.
    apply topk_sel_spec. now rewrite (length_concat_plane Hp). }
  assert (Si : shape3 b J K
                 (map (map (fun plane => map (fun i => (i mod (h * w))%nat)
                                             (snd (topk_sel (concat plane) K))))
                      kh)).
  { apply (shape3_of_planes _ Sh'). intros plane Hp. now apply Hlen. }
  assert (Ri : Forall (Forall (Forall (fun i => (i < h * w)%nat)))
                 (map (map (fun plane => map (fun i => (i mod (h * w))%nat)
                                             (snd (topk_sel (concat plane) K))))
                      kh)).
  { apply Forall_map, Forall_forall. intros s _.
    apply Forall_map, Forall_forall. intros plane _.
    apply Forall_map, Forall_forall. intros i _.
    apply Nat.mod_upper_bound. nia. }
  assert (Sy : shape3 b J K
                 (map (map (fun plane =>
                              map (fun i => of_nat (float_of_int (true_div_int (i mod (h * w)) w)))
                                  (snd (topk_sel (concat plane) K)))) kh)).
  { apply (shape3_of_planes _ Sh'). intros plane Hp. now apply Hlen. }
  assert (Sx : shape3 b J K
                 (map (map (fun plane =>
                              map (fun i => of_nat (float_of_int ((i mod (h * w)) mod w)))
                                  (snd (topk_sel (concat plane) K)))) kh)).
  { apply (shape3_of_planes _ Sh'). intros plane Hp. now apply Hlen. }
  destruct (apply_offsets_ok kps_offsets Hb Hh Hw So Si Ri Sx Sy)
    as (xs & ys & Eoff & Sxs & Sys).
  destruct (match_candidates_ok HK Sk4 Ss Sxs Sys)
    as (matched & Em & Lm & Fm).
  destruct (bottom_ok J Sb) as (bottom & Ebot).
  destruct (mask_ok Lm Fm Sb) as (mask & Emask).
  unfold refine_keypoints.
  run_stage (nms_maps_planes Sh). run_stage Ek4. run_stage Etop.
  run_stage Eoff. run_stage Em. cbv zeta.
  run_stage Ebot. run_stage Emask. reflexivity.
Qed.

(** *** The fields read at the peaks *)

Lemma read_field_at_peaks (f : T4) (inds : list (list nat))
      (b c h w K : nat) :
  (0 < b)%nat -> (0 < c)%nat -> (0 < h)%nat -> (0 < w)%nat ->
  shape4 b c h w f -> shape2 b K inds ->
  (forall bi k i, get2 inds bi k = Some i -> (i < h * w)%nat) ->
  exists g,
    _permute_and_gather_feat f inds = Ok g /\ check_last c g = Ok g /\
    shape3 b K c g.
Proof.
  unfold T4, T3, T2, T1 in *. intros Hb Hc Hh Hw Sf Si Hr.
  destruct (permute_and_gather_ok Hb Hc Hh Hw Sf Si Hr) as (g & E & Sg & _).
  exists g. split; [exact E|]. split; [exact (check_last_ok Sg) | exact Sg].
Qed.

(** X17: with [prob] left at its default [None], [object_pose_decode] raises
    [AttributeError] on every well-formed input ([dim] with 3 and [rot]
    with 8 channels besides the shapes above), whatever the other optional
    arguments are: lines 324-356 are computed, and line 357 calls
    [permute] on [None]. *)
Theorem decode_without_prob_raises
        (heat wh kps dim rot : T4) (reg kps_heatmap kps_offsets : option T4)
        (meta : option Meta) (const : option ConstT) (b c J h w K : nat) :
  (0 < b)%nat -> (0 < c)%nat -> (0 < h)%nat -> (0 < w)%nat -> (0 < J)%nat ->
  shape4 b c h w heat -> shape4 b 2 h w wh -> shape4 b (2 * J) h w kps ->
  shape4 b 3 h w dim -> shape4 b 8 h w rot ->
  match reg with Some r => shape4 b 2 h w r | None => True end ->
  (K <= h * w)%nat ->
  object_pose_decode heat wh kps dim rot None reg kps_heatmap kps_offsets
                     K meta const
  = Raise AttributeError.
Proof.
  intros Hb Hc Hh Hw HJ Sheat Swh Skps Sdim Srot Sreg HK.
  rewrite object_pose_decode_boxes_first.
  destruct (decode_boxes_run reg Hb Hc Hh Hw HJ Sheat Swh Skps Sreg HK)
    as (score & inds & clses & ys & xs & gk & xs' & ys' & bboxes & E & Si & _
        & _ & _ & _ & _ & Hcoord & _).
  assert (Hrange : forall bi k i, get2 inds bi k = Some i -> (i < h * w)%nat).
  { intros bi k i G. now destruct (Hcoord bi k i G). }
  destruct (read_field_at_peaks Hb (Nat.lt_0_succ 2) Hh Hw Sdim Si Hrange)
    as (gd & Egd & Ecd & _).
  destruct (read_field_at_peaks Hb (Nat.lt_0_succ 7) Hh Hw Srot Si Hrange)
    as (gr & Egr & Ecr & _).
  unfold T4, T3, T2, T1 in *.
  run_stage E. run_stage Egd. run_stage Ecd. run_stage Egr. run_stage Ecr.
  reflexivity.
Qed.

(** X18: with [prob] and [kps_heatmap] given, [object_pose_decode] raises
    [TypeError] on every well-formed input ([kps_heatmap] with J channels,
    [kps_offsets] absent or with 2 channels, 1 <= K <= height * width):
    the boxes, the candidates of every keypoint channel, the matching and
    the six comparisons of lines 324-402 are all computed, and line 403
    hands the tensor [bottom] to [expand] as a size. *)
Theorem decode_with_keypoint_heatmap_raises_type_error
        (heat wh kps dim rot prob kps_heatmap : T4)
        (reg kps_offsets : option T4)
        (meta : option Meta) (const : option ConstT)
        (b c cp J h w K : nat) :
  (0 < b)%nat -> (0 < c)%nat -> (0 < cp)%nat -> (0 < h)%nat -> (0 < w)%nat ->
  (0 < J)%nat -> (0 < K)%nat -> (K <= h * w)%nat ->
  shape4 b c h w heat -> shape4 b 2 h w wh -> shape4 b (2 * J) h w kps ->
  shape4 b 3 h w dim -> shape4 b 8 h w rot -> shape4 b cp h w prob ->
  shape4 b J h w kps_heatmap ->
  match reg with Some r => shape4 b 2 h w r | None => True end ->
  match kps_offsets with Some r => shape4 b 2 h w r | None => True end ->
  object_pose_decode heat wh kps dim rot (Some prob) reg
                     (Some kps_heatmap) kps_offsets K meta const
  = Raise TypeError.
Proof.
  intros Hb Hc Hcp Hh Hw HJ HK0 HK Sheat Swh Skps Sdim Srot Sprob Skh Sreg Soff.
  rewrite object_pose_decode_boxes_first.
  destruct (decode_boxes_run reg Hb Hc Hh Hw HJ Sheat Swh Skps Sreg HK)
    as (score & inds & clses & ys & xs & gk & xs' & ys' & bboxes & E & Si & _
        & _ & _ & Sk4 & Sbox & Hcoord & _).
  assert (Hrange : forall bi k i, get2 inds bi k = Some i -> (i < h * w)%nat).
  { intros bi k i G. now destruct (Hcoord bi k i G). }
  destruct (read_field_at_peaks Hb (Nat.lt_0_succ 2) Hh Hw Sdim Si Hrange)
    as (gd & Egd & Ecd & _).
  destruct (read_field_at_peaks Hb (Nat.lt_0_succ 7) Hh Hw Srot Si Hrange)
    as (gr & Egr & Ecr & _).
  destruct (read_field_at_peaks Hb Hcp Hh Hw Sprob Si Hrange)
    as (gp & Egp & _ & [Lgp Hgp]).
  unfold T4, T3, T2, T1 in *.
  destruct (@mapM_exists _ _
              (mapM (fun r : list R => p <- index r 0 ;; Ok [p]))
              (shape2 K cp) (fun _ => True) gp Hgp) as (pr & Epr & _).
  { intros rows [_ Hrows].
    destruct (@mapM_exists _ _ (fun r : list R => p <- index r 0 ;; Ok [p])
                (fun r => length r = cp) (fun _ => True) rows Hrows)
      as (o & Eo & _).
    { intros r Lr. destruct r as [|x r]; [simpl in Lr; lia|]. cbn. eauto. }
    eauto. }
  assert (EJ : (size1 kps / 2 = J)%nat).
  { destruct Skps as [Lb Hall]. destruct kps as [|fb ft]; [simpl in Lb; lia|].
    apply Forall_inv in Hall. destruct Hall as [Lc _]. cbn [size1].
    rewrite Lc, Nat.mul_comm. apply Nat.div_mul. lia. }
  run_stage E. run_stage Egd. run_stage Ecd. run_stage Egr. run_stage Ecr.
  cbn [attribute bind]. run_stage Egp. run_stage Epr.
  rewrite EJ.
  rewrite (refine_keypoints_type_error kps_offsets Hb HJ Hh Hw HK0 HK Sk4 Sbox Skh Soff).
  reflexivity.
Qed.

End DecodeErrors.

Section DecodeExamples.
Local Open Scope R_scope.

Lemma decode_boxes_at_peaks_witness :
  exists scores inds clses kps' bboxes,
    decode_boxes [[[[1; 3]]]] [[[[2; 2]]; [[4; 4]]]] [[[[0; 5]]; [[0; 6]]]]
                 None 1
    = Ok (scores, inds, clses, kps', bboxes) /\
    shape3 1 1 4 bboxes.
Proof.
  destruct (@decode_boxes_at_peaks
              [[[[1; 3]]]] [[[[2; 2]]; [[4; 4]]]] [[[[0; 5]]; [[0; 6]]]]
              None 1 1 1 1 2 1)
    as (scores & inds & clses & kps' & bboxes & E & _ & _ & Sb & _);
    try lia; try exact I; try (repeat (split || constructor)).
  exists scores, inds, clses, kps', bboxes. split; [exact E | exact Sb].
Defined.

Lemma decode_without_prob_raises_witness :
  object_pose_decode
    [[[[1; 3]]]] [[[[2; 2]]; [[4; 4]]]] [[[[0; 5]]; [[0; 6]]]]
    [[[[1; 1]]; [[1; 1]]; [[1; 1]]]]
    [[[[0; 0]]; [[0; 0]]; [[0; 0]]; [[1; 1]];
      [[0; 0]]; [[0; 0]]; [[0; 0]]; [[1; 1]]]]
    None None None None 1 None None
  = Raise AttributeError.
Proof.
  apply (@decode_without_prob_raises
           [[[[1; 3]]]] [[[[2; 2]]; [[4; 4]]]] [[[[0; 5]]; [[0; 6]]]]
           [[[[1; 1]]; [[1; 1]]; [[1; 1]]]]
           [[[[0; 0]]; [[0; 0]]; [[0; 0]]; [[1; 1]];
             [[0; 0]]; [[0; 0]]; [[0; 0]]; [[1; 1]]]]
           None None None None None 1 1 1 1 2 1);
    try lia; try exact I; repeat (split || constructor).
Defined.

Lemma decode_with_keypoint_heatmap_raises_type_error_witness :
  object_pose_decode
    [[[[1; 3]]]] [[[[2; 2]]; [[4; 4]]]] [[[[0; 5]]; [[0; 6]]]]
    [[[[1; 1]]; [[1; 1]]; [[1; 1]]]]
    [[[[0; 0]]; [[0; 0]]; [[0; 0]]; [[1; 1]];
      [[0; 0]]; [[0; 0]]; [[0; 0]]; [[1; 1]]]]
    (Some [[[[1; 1]]]]) None (Some [[[[1; 2]]]]) None 1 None None
  = Raise TypeError.
Proof.
  apply (@decode_with_keypoint_heatmap_raises_type_error
           [[[[1; 3]]]] [[[[2; 2]]; [[4; 4]]]] [[[[0; 5]]; [[0; 6]]]]
           [[[[1; 1]]; [[1; 1]]; [[1; 1]]]]
           [[[[0; 0]]; [[0; 0]]; [[0; 0]]; [[1; 1]];
             [[0; 0]]; [[0; 0]]; [[0; 0]]; [[1; 1]]]]
           [[[[1; 1]]]] [[[[1; 2]]]] None None None None 1 1 1 1 1 2 1);
    try lia; try exact I; repeat (split || constructor).
Defined.

End DecodeExamples.
